(** * espore firmware builder: dependency resolution and image packing

    Shallow embedding of [builder/builder.go] (package [builder]) and the
    properties of its root/closure pipeline ([Build2]) and of the cache key
    and the library list of the older flat pipeline ([build]); and of the
    command parser and the history of the prompt in [cli/cli.go].

    Go values are modelled as follows.
    - [string] is a byte string ([String.string]); [strings.Compare] is the
      bytewise lexicographic order [String.compare].
    - [map[string]T] is [gmap string T]; assignment [m[k] = v] is [<[k:=v]> m].
      The order in which [range] visits a map is not fixed by Go; it is
      supplied by a [MapOrder] (any enumeration of the map's bindings).
    - [*FileEntry2] values are never written after [AddRoot] has created
      them, so pointers to entries are modelled by the entries themselves.
    - [error] is the message text, as all wrapping goes through [%s].
    - a function that fills a map passed by reference returns the map it
      leaves behind together with its [error] result.
    - the file system is a map from paths to contents; whether creating,
      measuring, reading or writing a file fails for a reason that the
      contents do not decide is supplied with the collaborators. *)

From Stdlib Require Import Ascii.
From stdpp Require Import base strings gmap list sorting pretty fin_maps.


(** ** Errors *)

Definition error := string.

Inductive result (A : Type) : Type :=
| Ok (a : A)
| Err (e : error).
Arguments Ok {A} a.
Arguments Err {A} e.

Global Instance result_ret : MRet result := λ A a, Ok a.
Global Instance result_bind : MBind result := λ A B k r,
  match r with
  | Ok a => k a
  | Err e => Err e
  end.

Definition is_Ok {A} (r : result A) : bool :=
  match r with Ok _ => true | Err _ => false end.

(** ** Data model (builder.go, lines 23-26 and 243-275) *)

Record DeviceInfo := {
  Name : string;
  ID : string
}.

Record FileEntry2 := {
  Base : string;
  Path : string;
  Hash : string;
  Dependencies : list string;
  Datafiles : list string
}.

Record FirmwareRoot := {
  BasePath : string;
  Files : gmap string FileEntry2
}.

Record LibDef := {
  LibName : string;
  IncludeLua : bool;
  Include : list string
}.

Record ModuleDef := {
  ModName : string;
  Autostart : bool
}.

Record FirmwareDef2 := {
  DefInfo : DeviceInfo;
  Libs : list LibDef;
  Modules : list ModuleDef
}.

Record FirmwareManifest2 := {
  ManInfo : DeviceInfo;
  ManFiles : list FileEntry2
}.

(** The zero value [FirmwareRoot{}], which indexing a map of roots with a
    missing key yields. Looking a name up in its nil [Files] map fails. *)
Definition zeroRoot : FirmwareRoot := {| BasePath := EmptyString; Files := ∅ |}.

(** Equality of all these values is decidable, by comparison of the fields. *)
Global Instance result_eq_dec `{EqDecision A} : EqDecision (result A).
Proof. solve_decision. Defined.
Global Instance DeviceInfo_eq_dec : EqDecision DeviceInfo.
Proof. solve_decision. Defined.
Global Instance FileEntry2_eq_dec : EqDecision FileEntry2.
Proof. solve_decision. Defined.
Global Instance FirmwareRoot_eq_dec : EqDecision FirmwareRoot.
Proof. solve_decision. Defined.
Global Instance LibDef_eq_dec : EqDecision LibDef.
Proof. solve_decision. Defined.
Global Instance ModuleDef_eq_dec : EqDecision ModuleDef.
Proof. solve_decision. Defined.
Global Instance FirmwareDef2_eq_dec : EqDecision FirmwareDef2.
Proof. solve_decision. Defined.
Global Instance FirmwareManifest2_eq_dec : EqDecision FirmwareManifest2.
Proof. solve_decision. Defined.

(** ** Strings *)

(** [strings.ReplaceAll(s, old, new)] for one-byte [old] and [new]. *)
Fixpoint ReplaceAll (s : string) (old new : ascii) : string :=
  match s with
  | EmptyString => EmptyString
  | String c s' =>
      String (if decide (c = old) then new else c) (ReplaceAll s' old new)
  end.

(** [s] occurs in [t] as a contiguous substring. *)
Fixpoint contains (t s : string) : bool :=
  String.prefix s t ||
  match t with
  | EmptyString => false
  | String _ t' => contains t' s
  end.

(** ** Module resolution (builder.go, lines 357-389) *)

Definition Mod2File (moduleName : string) : string :=
  ReplaceAll moduleName "." "/" +:+ ".lua".

Definition ErrFileEntryNotFound : error := "Cannot find file in firmware roots".

Fixpoint FindInRoots (fileName : string) (roots : list FirmwareRoot)
  : result FileEntry2 :=
  match roots with
  | [] => Err ErrFileEntryNotFound
  | root :: roots' =>
      match Files root !! fileName with
      | Some entry => Ok entry
      | None => FindInRoots fileName roots'
      end
  end.

(** The body of [for _, dep := range entry.Dependencies] in
    [AddFilesFromModule]; [self] is the recursive call, [quote] is [%q].
    [None] stands for a recursive call that has not returned. *)
Fixpoint resolveDependencies
    (self : string → gmap string FileEntry2 → option (gmap string FileEntry2 * option error))
    (quote : string → string) (entry : FileEntry2) (deps : list string)
    (fileMap : gmap string FileEntry2)
  : option (gmap string FileEntry2 * option error) :=
  match deps with
  | [] => Some (fileMap, None)
  | dep :: deps' =>
      match self dep fileMap with
      | None => None
      | Some (fileMap', Some err) =>
          Some (fileMap',
                Some ("Cannot resolve dependency " +:+ quote dep +:+ " of "
                        +:+ Path entry +:+ ": " +:+ err))
      | Some (fileMap', None) =>
          resolveDependencies self quote entry deps' fileMap'
      end
  end.

(** [AddFilesFromModule] with its call depth bounded by [fuel]. *)
Fixpoint AddFilesFromModule_fuel (fuel : nat) (quote : string → string)
    (moduleName : string) (roots : list FirmwareRoot)
    (fileMap : gmap string FileEntry2)
  : option (gmap string FileEntry2 * option error) :=
  match fuel with
  | O => None
  | S fuel' =>
      let moduleFileName := Mod2File moduleName in
      match fileMap !! moduleFileName with
      | Some _ => Some (fileMap, None)
      | None =>
          match FindInRoots moduleFileName roots with
          | Err err =>
              Some (fileMap,
                    Some ("Error finding " +:+ moduleFileName +:+ ": " +:+ err))
          | Ok entry =>
              resolveDependencies
                (λ dep fm, AddFilesFromModule_fuel fuel' quote dep roots fm)
                quote entry (Dependencies entry)
                (<[moduleFileName := entry]> fileMap)
          end
      end
  end.

(** Paths indexed by at least one of the searched roots. *)
Definition rootPaths (roots : list FirmwareRoot) : gset string :=
  ⋃ (dom ∘ Files <$> roots).

(** Number of indexed paths not yet recorded in [fileMap]: every call that
    gets past the membership test records one of them. *)
Definition pending (roots : list FirmwareRoot) (fileMap : gmap string FileEntry2) : nat :=
  size (rootPaths roots ∖ dom fileMap).

(** [AddFilesFromModule]: the call depth never exceeds [pending] + 1, see
    [AddFilesFromModule_fuel_enough]. *)
Definition AddFilesFromModule (quote : string → string) (moduleName : string)
    (roots : list FirmwareRoot) (fileMap : gmap string FileEntry2)
  : option (gmap string FileEntry2 * option error) :=
  AddFilesFromModule_fuel (S (pending roots fileMap)) quote moduleName roots fileMap.

(** ** Collaborators outside the package

    Functions of Go's standard library, of [github.com/gobwas/glob] and of
    [espore/utils] that the builder calls. They are taken as given; only the
    facts about them that the proofs below use are recorded. *)

Class Extern := {
  (** [strconv.Quote], the [%q] verb of [fmt]. *)
  strconv_Quote : string → string;
  (** [filepath.Join] of two elements, and [filepath.Base]. *)
  filepath_Join : string → string → string;
  filepath_Base : string → string;
  (** First submatch of every match of [parseDepRegex2], resp.
      [parseDFRegex], in order of occurrence. *)
  parseDepRegex2 : string → list string;
  parseDFRegex : string → list string;
  (** [glob.Compile(pattern, '/')] and the compiled glob's [Match]. *)
  glob_Compile : string → result (string → bool);
  (** [sha1] of a byte string, hex encoded: 40 hex digits. *)
  sha1_hex : string → string;
  sha1_hex_length : ∀ s, String.length (sha1_hex s) = 40;
  (** [hex.DecodeString] with its error dropped. *)
  hex_DecodeString : string → string;
  (** [encoding/json]'s rendering of one string as a JSON string literal. *)
  json_string : string → string;
  (** [utils.HashFile] on the bytes of a file. *)
  hashBytes : string → string;
  (** [utils.EnumerateDir]: relative names of the files below a path. *)
  EnumerateDir : gmap string string → string → result (list string);
  (** [ioutil.ReadDir], keeping the names of the entries that are
      directories, in listing order. *)
  ReadDir_dirs : gmap string string → string → result (list string);
  (** [utils.RemoveDirContents]. *)
  RemoveDirContents : gmap string string → string → result (gmap string string);
  (** JSON decoding of a device definition, JSON encoding of a manifest. *)
  decodeFirmwareDef2 : string → result FirmwareDef2;
  encodeManifest : FirmwareManifest2 → string;
  (** The failures of the operating system that the content of the file
      system does not decide, each for a file system and a path:
      [os.Create] of the path; [Stat] of the opened file; [io.Copy] out of
      the opened file; [io.Copy] of bytes into the created file, which
      leaves in the file the first part of the bytes. *)
  os_Create_error : gmap string string → string → option error;
  Stat_error : gmap string string → string → option error;
  read_error : gmap string string → string → option error;
  write_error : gmap string string → string → string → option (error * string);
  write_error_partial : ∀ fs path bytes err written,
    write_error fs path bytes = Some (err, written) →
    ∃ rest, bytes = written +:+ rest
}.

(** The order in which [range] visits the bindings of a map. *)
Class MapOrder := {
  range : ∀ {V}, gmap string V → list (string * V);
  range_perm : ∀ V (m : gmap string V), range m ≡ₚ map_to_list m
}.

(** [strings.Compare(a, b) < 0]. *)
Definition less (a b : string) : bool :=
  match String.compare a b with Lt => true | _ => false end.

(** [sort.Slice(s, func(i, j) { strings.Compare(key s[i], key s[j]) < 0 })]:
    the slice is permuted so that no element is [less] than one before it.
    The sort is not stable, so nothing more is known of it. *)
Class SliceSort := {
  sort_Slice : ∀ {A}, (A → string) → list A → list A;
  sort_Slice_perm : ∀ A (key : A → string) l, sort_Slice key l ≡ₚ l;
  sort_Slice_sorted : ∀ A (key : A → string) l,
    Sorted (λ a b, less (key b) (key a) = false) (sort_Slice key l)
}.

(** A Go slice: [nil] differs from an empty slice, which matters to
    [json.Marshal]. *)
Inductive slice (A : Type) : Type :=
| nilSlice
| Slice (elems : list A).
Arguments nilSlice {A}.
Arguments Slice {A} elems.

(** [append(s, xs...)] *)
Definition append {A} (s : slice A) (xs : list A) : slice A :=
  match s, xs with
  | nilSlice, [] => nilSlice
  | nilSlice, _ => Slice xs
  | Slice l, _ => Slice (l ++ xs)
  end.

Definition elements_of {A} (s : slice A) : list A :=
  match s with nilSlice => [] | Slice l => l end.

(** [filepath.Ext]: the suffix starting at the last dot of the last path
    element. *)
Fixpoint hasDotOrSeparator (s : string) : bool :=
  match s with
  | EmptyString => false
  | String c s' =>
      bool_decide (c = "."%char) || bool_decide (c = "/"%char) || hasDotOrSeparator s'
  end.

Fixpoint Ext (path : string) : string :=
  match path with
  | EmptyString => EmptyString
  | String c rest =>
      if hasDotOrSeparator rest then Ext rest
      else if decide (c = "."%char) then path else EmptyString
  end.

(** The file system: the bytes of every regular file, by path. *)
Abbreviation FS := (gmap string string).

(** The error of [os.Open] and [ioutil.ReadFile] on a missing file. *)
Definition ErrNotExist (path : string) : error :=
  "open " +:+ path +:+ ": no such file or directory".

Definition ReadFile (fs : FS) (path : string) : result string :=
  match fs !! path with
  | Some code => Ok code
  | None => Err (ErrNotExist path)
  end.

Section Builder.
Context {ext : Extern}.

(** [json.Marshal] of a [[]string]. *)
Definition json_Marshal (v : slice string) : string :=
  match v with
  | nilSlice => "null"
  | Slice l => "[" +:+ String.concat "," (json_string <$> l) +:+ "]"
  end.

(** Modelled from the spec: [utils.HashFile] (bytes to hex digest), which
    fails on a file it cannot read. *)
Definition HashFile (fs : FS) (path : string) : result string :=
  code ← ReadFile fs path; Ok (hashBytes code).

(** Modelled from the spec: [utils.ReadJSON] of a device definition. *)
Definition ReadJSON (fs : FS) (path : string) : result FirmwareDef2 :=
  doc ← ReadFile fs path; decodeFirmwareDef2 doc.

(** Modelled from the spec: [utils.WriteJSON] of a manifest. *)
Definition WriteJSON (fs : FS) (path : string) (v : FirmwareManifest2) : result FS :=
  Ok (<[path := encodeManifest v]> fs).

(** ** Indexing a root (builder.go, lines 280-341) *)

(** [for _, match := range matches { m[match[1]] = true }] *)
Definition matchSet (matches : list string) : gmap string bool :=
  foldl (λ m name, <[name := true]> m) ∅ matches.

Definition ReadDependenciesAndDatafiles {ord : MapOrder} (fs : FS) (luaFile : string)
  : result (list string * list string) :=
  code ← ReadFile fs luaFile;
  let depMap := matchSet (parseDepRegex2 code) in
  let dfMap := matchSet (parseDFRegex code) in
  Ok ((range depMap).*1, (range dfMap).*1).

(** One iteration of the loop of [AddRoot]. *)
Definition indexFile {ord : MapOrder} (fs : FS) (path f : string) : result FileEntry2 :=
  let fpath := filepath_Join path f in
  hash ← HashFile fs fpath;
  if decide (Ext f = ".lua") then
    '(deps, datafiles) ← ReadDependenciesAndDatafiles fs fpath;
    Ok {| Base := path; Path := f; Hash := hash;
          Dependencies := deps; Datafiles := datafiles |}
  else
    Ok {| Base := path; Path := f; Hash := hash;
          Dependencies := []; Datafiles := [] |}.

Fixpoint indexFiles {ord : MapOrder} (fs : FS) (path : string) (list : list string)
    (entries : gmap string FileEntry2) : result (gmap string FileEntry2) :=
  match list with
  | [] => Ok entries
  | f :: list' =>
      entry ← indexFile fs path f;
      indexFiles fs path list' (<[Path entry := entry]> entries)
  end.

Definition AddRoot {ord : MapOrder} (fs : FS) (path : string)
    (roots : gmap string FirmwareRoot) : result (gmap string FirmwareRoot) :=
  list ← EnumerateDir fs path;
  entries ← indexFiles fs path list ∅;
  Ok (<[path := {| BasePath := path; Files := entries |}]> roots).

(** ** Roots searched for a device (builder.go, lines 343-355) *)

Fixpoint selectLibRoots (allRoots : gmap string FirmwareRoot) (libs : list LibDef)
    (roots : list FirmwareRoot) : result (list FirmwareRoot) :=
  match libs with
  | [] => Ok roots
  | libDef :: libs' =>
      if IncludeLua libDef then
        match allRoots !! filepath_Join "site/lib" (LibName libDef) with
        | Some root => selectLibRoots allRoots libs' (roots ++ [root])
        | None =>
            Err ("Cannot find library with name '" +:+ LibName libDef +:+ "'")
        end
      else selectLibRoots allRoots libs' roots
  end.

Definition getDeviceFirmwareRoots (allRoots : gmap string FirmwareRoot)
    (libs : list LibDef) : result (list FirmwareRoot) :=
  roots ← selectLibRoots allRoots libs [];
  Ok (roots ++ [default zeroRoot (allRoots !! "firmware")]).

(** ** Library assets and device files (builder.go, lines 391-416) *)

(** [for path, entry := range libRoot.Files { if g.Match(path) {...} }] *)
Definition addMatching {ord : MapOrder} (g : string → bool) (libRoot : FirmwareRoot)
    (fileMap : gmap string FileEntry2) : gmap string FileEntry2 :=
  foldl (λ fm '(path, entry), if g path then <[path := entry]> fm else fm)
        fileMap (range (Files libRoot)).

(** [for _, pattern := range lib.Include] *)
Fixpoint addPatterns {ord : MapOrder} (allRoots : gmap string FirmwareRoot) (lib : LibDef)
    (patterns : list string) (fileMap : gmap string FileEntry2)
  : gmap string FileEntry2 * option error :=
  match patterns with
  | [] => (fileMap, None)
  | pattern :: patterns' =>
      match glob_Compile pattern with
      | Err err =>
          (fileMap, Some ("Error in glob expression, library " +:+ LibName lib
                            +:+ ": " +:+ err))
      | Ok g =>
          match allRoots !! filepath_Join "site/lib" (LibName lib) with
          | None =>
              (* [err] is nil here and is printed with [%s] *)
              (fileMap, Some ("Cannot find library " +:+ LibName lib
                                +:+ ": %!s(<nil>)"))
          | Some libRoot =>
              addPatterns allRoots lib patterns' (addMatching g libRoot fileMap)
          end
      end
  end.

Fixpoint AddOtherFiles {ord : MapOrder} (allRoots : gmap string FirmwareRoot)
    (libs : list LibDef) (fileMap : gmap string FileEntry2)
  : gmap string FileEntry2 * option error :=
  match libs with
  | [] => (fileMap, None)
  | lib :: libs' =>
      match addPatterns allRoots lib (Include lib) fileMap with
      | (fileMap', Some err) => (fileMap', Some err)
      | (fileMap', None) => AddOtherFiles allRoots libs' fileMap'
      end
  end.

Definition AddDeviceSpecificFiles {ord : MapOrder} (deviceRoot : FirmwareRoot)
    (fileMap : gmap string FileEntry2) : gmap string FileEntry2 :=
  foldl (λ fm '(_, fe), <[Path fe := fe]> fm) fileMap (range (Files deviceRoot)).

(** ** The manifest of one device (builder.go, lines 418-455) *)

(** [for _, modDef := range fwDef.Modules] *)
Fixpoint addModules (roots : list FirmwareRoot) (mods : list ModuleDef)
    (fileMap : gmap string FileEntry2)
  : option (gmap string FileEntry2 * option error) :=
  match mods with
  | [] => Some (fileMap, None)
  | modDef :: mods' =>
      match AddFilesFromModule strconv_Quote (ModName modDef) roots fileMap with
      | None => None
      | Some (fileMap', Some err) =>
          Some (fileMap',
                Some ("Cannot add files from module " +:+ ModName modDef
                        +:+ ": " +:+ err))
      | Some (fileMap', None) => addModules roots mods' fileMap'
      end
  end.

(** The file set of a device: module closure, then library assets, then the
    device's own files. [None]: the resolver has not returned. *)
Definition deviceFileMap {ord : MapOrder} (allRoots : gmap string FirmwareRoot)
    (deviceName : string) (fwDef : FirmwareDef2)
  : option (result (gmap string FileEntry2)) :=
  let devicePath := filepath_Join "site/devices" deviceName in
  match getDeviceFirmwareRoots allRoots (Libs fwDef) with
  | Err err =>
      Some (Err ("Cannot build firmware roots for " +:+ deviceName +:+ ": " +:+ err))
  | Ok roots =>
      match addModules roots (Modules fwDef) ∅ with
      | None => None
      | Some (_, Some err) => Some (Err err)
      | Some (fileMap, None) =>
          match AddOtherFiles allRoots (Libs fwDef) fileMap with
          | (_, Some err) =>
              Some (Err ("Error adding other files in device " +:+ deviceName
                           +:+ ": " +:+ err))
          | (fileMap, None) =>
              match allRoots !! devicePath with
              | None => Some (Err ("Cannot find device root for " +:+ deviceName))
              | Some deviceRoot =>
                  Some (Ok (AddDeviceSpecificFiles deviceRoot fileMap))
              end
          end
      end
  end.

Definition buildDeviceFirmwareManifest {ord : MapOrder} (fs : FS)
    (allRoots : gmap string FirmwareRoot) (deviceName : string)
  : option (result FirmwareManifest2) :=
  let devicePath := filepath_Join "site/devices" deviceName in
  match ReadJSON fs (filepath_Join devicePath "firmware.json") with
  | Err err =>
      Some (Err ("Cannot read firmware file for " +:+ deviceName +:+ ": " +:+ err))
  | Ok fwDef =>
      match deviceFileMap allRoots deviceName fwDef with
      | None => None
      | Some (Err err) => Some (Err err)
      | Some (Ok fileMap) =>
          Some (Ok {| ManInfo := DefInfo fwDef; ManFiles := (range fileMap).*2 |})
      end
  end.

(** ** The image of one device (builder.go, lines 457-517) *)

(** The byte [\n] that [Fprintln] and the formats end a line with. *)
Definition nl : string := String "010"%char EmptyString.

(** [writeFileToImage] on a [bytes.Buffer]: the buffer after the call. *)
Definition writeFileToImage (imageFile : string) (path : string) (size : nat)
    (sourceFile : string) : string :=
  imageFile +:+ path +:+ nl +:+ pretty size +:+ nl +:+ sourceFile.

(** [for _, fe := range manifest.Files]: every source file is opened,
    measured ([Stat]) and copied into the buffer; the first failure of one
    of the three ends the loop. *)
Fixpoint packFiles (fs : FS) (files : list FileEntry2) (imgBuf : string)
    (datafiles : slice string) : result (string * slice string) :=
  match files with
  | [] => Ok (imgBuf, datafiles)
  | fe :: files' =>
      let path := filepath_Join (Base fe) (Path fe) in
      match fs !! path with
      | None => Err (ErrNotExist path)
      | Some content =>
          match Stat_error fs path with
          | Some err => Err err
          | None =>
              match read_error fs path with
              | Some err => Err err
              | None =>
                  packFiles fs files'
                    (writeFileToImage imgBuf (Path fe) (String.length content) content)
                    (append datafiles (Datafiles fe))
              end
          end
      end
  end.

Definition imageHeader (manifest : FirmwareManifest2) : string :=
  "Version: 1 -- HomeNode Device Image File" +:+ nl
  +:+ "Device Id: " +:+ ID (ManInfo manifest) +:+ nl
  +:+ "Device Name: " +:+ Name (ManInfo manifest) +:+ nl
  +:+ "Total files: " +:+ pretty (length (ManFiles manifest) + 1) +:+ nl
  +:+ nl.

Definition imagePath (manifest : FirmwareManifest2) : string :=
  filepath_Join "dist" (ID (ManInfo manifest) +:+ ".img").

(** [writeFirmwareImage]: the file system and the manifest the call leaves
    behind ([sort.Slice] reorders [manifest.Files] in place), and its error.
    [os.Create] puts an empty image file in place before anything is read;
    when it fails nothing has happened yet. The record [datafiles.json] is
    copied from memory to memory. The line of the checksum and the buffer
    are written to the file one after the other and the error of the first
    of the two writes is not looked at: the two are taken as one write,
    whose failure [io.Copy] reports and which leaves a part of the bytes. *)
Definition writeFirmwareImage {srt : SliceSort} (fs : FS) (manifest : FirmwareManifest2)
  : FS * FirmwareManifest2 * option error :=
  match os_Create_error fs (imagePath manifest) with
  | Some err => (fs, manifest, Some err)
  | None =>
      let fs := <[imagePath manifest := EmptyString]> fs in
      let imgBuf := imageHeader manifest in
      let manifest :=
        {| ManInfo := ManInfo manifest;
           ManFiles := sort_Slice Path (ManFiles manifest) |} in
      match packFiles fs (ManFiles manifest) imgBuf (Slice []) with
      | Err err => (fs, manifest, Some err)
      | Ok (imgBuf, datafiles) =>
          let datafilesJSON := json_Marshal datafiles in
          let imgBuf :=
            writeFileToImage imgBuf "datafiles.json" (String.length datafilesJSON)
              datafilesJSON in
          let bytes := "Checksum: " +:+ sha1_hex imgBuf +:+ nl +:+ imgBuf in
          match write_error fs (imagePath manifest) bytes with
          | Some (err, written) =>
              (<[imagePath manifest := written]> fs, manifest, Some err)
          | None => (<[imagePath manifest := bytes]> fs, manifest, None)
          end
      end
  end.

(** ** The build driver (builder.go, lines 519-564) *)

Definition manifestPath (manifest : FirmwareManifest2) : string :=
  filepath_Join "dist" (ID (ManInfo manifest) +:+ ".json").

(** [err = AddRoot(...)] in the loop over [site/devices]: the error is
    overwritten by the next statement before it is looked at, so a failed
    indexing leaves the roots as they were and the loop body goes on. *)
Definition addDeviceRoot {ord : MapOrder} (fs : FS) (roots : gmap string FirmwareRoot)
    (name : string) : gmap string FirmwareRoot :=
  match AddRoot fs (filepath_Join "site/devices" name) roots with
  | Ok roots' => roots'
  | Err _ => roots
  end.

(** The body of the loop over [site/devices]. *)
Definition Build2_device {ord : MapOrder} {srt : SliceSort} (fs : FS)
    (roots : gmap string FirmwareRoot) (name : string)
  : option (FS * gmap string FirmwareRoot * option error) :=
  let roots := addDeviceRoot fs roots name in
  match buildDeviceFirmwareManifest fs roots name with
  | None => None
  | Some (Err err) => Some (fs, roots, Some err)
  | Some (Ok manifest) =>
      match WriteJSON fs (manifestPath manifest) manifest with
      | Err err => Some (fs, roots, Some err)
      | Ok fs =>
          let '(fs, _, err) := writeFirmwareImage fs manifest in
          Some (fs, roots, err)
      end
  end.

Fixpoint Build2_devices {ord : MapOrder} {srt : SliceSort} (fs : FS)
    (roots : gmap string FirmwareRoot) (deviceLibs : list string)
  : option (FS * option error) :=
  match deviceLibs with
  | [] => Some (fs, None)
  | name :: deviceLibs' =>
      match Build2_device fs roots name with
      | None => None
      | Some (fs', _, Some err) => Some (fs', Some err)
      | Some (fs', roots', None) => Build2_devices fs' roots' deviceLibs'
      end
  end.

Fixpoint addSiteLibs {ord : MapOrder} (fs : FS) (siteLibs : list string)
    (roots : gmap string FirmwareRoot) : result (gmap string FirmwareRoot) :=
  match siteLibs with
  | [] => Ok roots
  | name :: siteLibs' =>
      roots' ← AddRoot fs (filepath_Join "site/lib" name) roots;
      addSiteLibs fs siteLibs' roots'
  end.

(** The roots indexed before the devices are built: the core root, then
    every directory of [site/lib]. *)
Definition indexRoots {ord : MapOrder} (fs : FS) : result (gmap string FirmwareRoot) :=
  roots ← AddRoot fs "firmware" ∅;
  siteLibs ← ReadDir_dirs fs "site/lib";
  addSiteLibs fs siteLibs roots.

Definition Build2 {ord : MapOrder} {srt : SliceSort} (fs : FS) : option (FS * option error) :=
  match RemoveDirContents fs "dist" with
  | Err err => Some (fs, Some ("cannot remove dist dir contents: " +:+ err))
  | Ok fs =>
      match indexRoots fs with
      | Err err => Some (fs, Some err)
      | Ok roots =>
          match ReadDir_dirs fs "site/devices" with
          | Err err => Some (fs, Some err)
          | Ok deviceLibs => Build2_devices fs roots deviceLibs
          end
      end
  end.

(** ** The cache key of the flat pipeline (builder.go, lines 153-183) *)

Record FileEntry := {
  fileName : string;
  hash : string
}.

Record Lib := {
  files : gmap string string;
  dependencies : list string
}.

Global Instance FileEntry_eq_dec : EqDecision FileEntry.
Proof. solve_decision. Defined.

Global Instance Lib_eq_dec : EqDecision Lib.
Proof. solve_decision. Defined.

(** The body of [for fileName, hash := range lib.files]: a script is queued
    for the bytecode bundle, another file goes to the device's file table. *)
Definition splitLibFile (acc : list FileEntry * gmap string FileEntry)
    (binding : string * string) : list FileEntry * gmap string FileEntry :=
  let '(lfsEntries, files) := acc in
  let '(fileName, hash) := binding in
  let entry := {| fileName := fileName; hash := hash |} in
  if decide (Ext fileName = ".lua")
  then (lfsEntries ++ [entry], files)
  else (lfsEntries, <[filepath_Base fileName := entry]> files).

Definition splitLibFiles {ord : MapOrder} (lib : Lib)
    (acc : list FileEntry * gmap string FileEntry)
  : list FileEntry * gmap string FileEntry :=
  foldl splitLibFile acc (range (files lib)).

(** [for _, libName := range fd.LFS]; [log.Fatalf] is the error. *)
Fixpoint collectLFS {ord : MapOrder} (libs : gmap string Lib) (device : string)
    (LFS : list string) (acc : list FileEntry * gmap string FileEntry)
  : result (list FileEntry * gmap string FileEntry) :=
  match LFS with
  | [] => Ok acc
  | libName :: LFS' =>
      match libs !! libName with
      | None =>
          Err ("Cannot find lib " +:+ libName +:+ " defined in " +:+ device)
      | Some lib => collectLFS libs device LFS' (splitLibFiles lib acc)
      end
  end.

(** The entries are sorted by file name and their decoded hashes are fed
    to the hasher one after the other. *)
Definition contentHash {srt : SliceSort} (lfsEntries : list FileEntry) : string :=
  let lfsEntries := sort_Slice fileName lfsEntries in
  let hasher := foldl (λ written entry, written +:+ hex_DecodeString (hash entry))
                      EmptyString lfsEntries in
  sha1_hex hasher.

Definition cacheImgFile {srt : SliceSort} (id : string) (lfsEntries : list FileEntry)
  : string :=
  let imgFile := "/" +:+ id +:+ "-lfs.img" in
  filepath_Join "imgcache" (imgFile +:+ "." +:+ contentHash lfsEntries).

(** ** The libraries of a device in the flat pipeline (builder.go, lines 199-235) *)

(** [processedLibs[name]]: a key that is not there reads as [false]. *)
Definition processed (processedLibs : gmap string bool) (name : string) : bool :=
  default false (processedLibs !! name).

(** The body of [for _, dep := range lib.dependencies]. *)
Definition addDependency (acc : gmap string bool * list string) (dep : string)
  : gmap string bool * list string :=
  let '(processedLibs, allLibs) := acc in
  if processed processedLibs dep then acc
  else (<[dep := true]> processedLibs, allLibs ++ [dep]).

(** [for _, libName := range fd.Libs]: a library that is already processed
    is passed over before it is looked up; the others are looked up, their
    declared dependencies are listed first and then the library itself. *)
Fixpoint orderLibs (libs : gmap string Lib) (device : string) (names : list string)
    (acc : gmap string bool * list string) : result (list string) :=
  match names with
  | [] => Ok acc.2
  | libName :: names' =>
      if processed acc.1 libName then orderLibs libs device names' acc
      else
        match libs !! libName with
        | None =>
            Err ("Cannot find lib " +:+ libName +:+ " defined in " +:+ device)
        | Some lib =>
            let '(processedLibs, allLibs) :=
              foldl addDependency acc (dependencies lib) in
            orderLibs libs device names'
              (<[libName := true]> processedLibs, allLibs ++ [libName])
        end
  end.

(** [files[filepath.Base(fileName)] = FileEntry{fileName, hash}] *)
Definition addLibFile (table : gmap string FileEntry) (binding : string * string)
  : gmap string FileEntry :=
  let '(fileName, hash) := binding in
  <[filepath_Base fileName := {| fileName := fileName; hash := hash |}]> table.

Definition addLibFiles {ord : MapOrder} (lib : Lib) (table : gmap string FileEntry)
  : gmap string FileEntry :=
  foldl addLibFile table (range (files lib)).

(** [for _, libName := range allLibs] *)
Fixpoint gatherLibs {ord : MapOrder} (libs : gmap string Lib) (device : string)
    (allLibs : list string) (table : gmap string FileEntry)
  : result (gmap string FileEntry) :=
  match allLibs with
  | [] => Ok table
  | libName :: allLibs' =>
      match libs !! libName with
      | None =>
          Err ("Cannot find lib " +:+ libName +:+ " defined in " +:+ device)
      | Some lib => gatherLibs libs device allLibs' (addLibFiles lib table)
      end
  end.

(** [for _, entry := range files { fm.Files[entry.fileName] = entry.hash }] *)
Definition manifestFiles {ord : MapOrder} (table : gmap string FileEntry)
  : gmap string string :=
  foldl (λ fmFiles '(_, entry), <[fileName entry := hash entry]> fmFiles)
        ∅ (range table).

(** Lines 199-235 for one device: the libraries are ordered, their files
    are gathered over the table that the bytecode bundle has left, the
    device's own files come last, and the table is turned into the file
    list of the manifest. *)
Definition deviceManifestFiles {ord : MapOrder} (libs : gmap string Lib)
    (device : string) (deviceLib : Lib) (names : list string)
    (table : gmap string FileEntry) : result (gmap string string) :=
  allLibs ← orderLibs libs device names (∅, []);
  table ← gatherLibs libs device allLibs table;
  Ok (manifestFiles (addLibFiles deviceLib table)).

End Builder.

(** * The command line (cli.go) *)

(** What the command line takes from its libraries and from the session. *)
Class Terminal := {
  (** [strings.TrimSpace]. *)
  strings_TrimSpace : string → string;
  (** [commandRegex.FindStringSubmatch]: the two groups of the match. *)
  commandRegex_FindStringSubmatch : string → option (string * string);
  (** [handler.handler(parameters)] of a command, and
      [Session.SendCommand]: the error they return. *)
  handle : string → list string → option error;
  Session_SendCommand : string → option error
}.

(** [strings.Split(s, sep)] for a separator of one character. *)
Fixpoint Split (s : string) (sep : ascii) : list string :=
  match s with
  | EmptyString => [EmptyString]
  | String c s' =>
      if decide (c = sep) then EmptyString :: Split s' sep
      else match Split s' sep with
           | field :: fields => String c field :: fields
           | [] => [String c EmptyString]
           end
  end.

(** What [parseCommandLine] does to its surroundings, in order. *)
Inductive Effect :=
| Printf (line : string)
| DumperStop
| DumperDump
| Handler (command : string) (parameters : list string)
| SendCommand (cmdline : string).

Global Instance Effect_eq_dec : EqDecision Effect.
Proof. solve_decision. Defined.

Section CommandLine.
Context {ext : Extern} {term : Terminal}.

(** [parseCommandLine] (cli.go, lines 48-67): its effects and the error it
    returns. [commandHandlers] maps a command to its [minParameters]. *)
Definition parseCommandLine (commandHandlers : gmap string Z) (cmdline : string)
  : list Effect * option error :=
  match commandRegex_FindStringSubmatch cmdline with
  | Some (command, rest) =>
      let parameters := Split rest " " in
      match commandHandlers !! command with
      | None =>
          ([Printf ("Unknown command " +:+ strconv_Quote command +:+ nl)], None)
      | Some minParameters =>
          if decide (Z.of_nat (length parameters) < minParameters)%Z
          then ([Printf ("Expected at least " +:+ pretty minParameters
                           +:+ " parameters. Got "
                           +:+ pretty (length parameters) +:+ nl)], None)
          else ([DumperStop; Handler command parameters; DumperDump],
                handle command parameters)
      end
  | None => ([SendCommand cmdline], Session_SendCommand cmdline)
  end.

(** The variables that the callbacks of [Run] share (cli.go, lines 76-176):
    the history and the position in it, the text of the input field, and the
    command lines sent to the [commands] channel. *)
Record Prompt := {
  history : list string;
  historyPos : Z;
  text : string;
  commands : list string
}.

Definition newPrompt : Prompt :=
  {| history := []; historyPos := 0; text := EmptyString; commands := [] |}.

(** [history[i]]: an index out of range panics. *)
Definition at_index (history : list string) (i : Z) : option string :=
  if decide (0 ≤ i)%Z then history !! Z.to_nat i else None.

(** [input.SetDoneFunc], case [tcell.KeyEnter]. *)
Definition onEnter (p : Prompt) : option Prompt :=
  let cmd := strings_TrimSpace (text p) in
  if decide (String.length cmd = 0) then Some p
  else
    let lh := Z.of_nat (length (history p)) in
    fresh ← (if decide (lh = 0)%Z then Some true
             else if decide (lh > 0)%Z
                  then last ← at_index (history p) (lh - 1);
                       Some (bool_decide (last ≠ cmd))
                  else Some false);
    Some (if fresh : bool
          then {| history := history p ++ [cmd]; historyPos := lh + 1;
                  text := EmptyString; commands := commands p ++ [cmd] |}
          else {| history := history p; historyPos := historyPos p;
                  text := EmptyString; commands := commands p ++ [cmd] |}).

(** [input.SetInputCapture], case [tcell.KeyUp]. *)
Definition onUp (p : Prompt) : option Prompt :=
  if decide (historyPos p > 0)%Z
  then
    let historyPos := (historyPos p - 1)%Z in
    recalled ← at_index (history p) historyPos;
    Some {| history := history p; historyPos := historyPos;
            text := recalled; commands := commands p |}
  else Some p.

(** [input.SetInputCapture], case [tcell.KeyDown]. *)
Definition onDown (p : Prompt) : option Prompt :=
  if decide (historyPos p < Z.of_nat (length (history p)) - 1)%Z
  then
    let historyPos := (historyPos p + 1)%Z in
    recalled ← at_index (history p) historyPos;
    Some {| history := history p; historyPos := historyPos;
            text := recalled; commands := commands p |}
  else
    Some {| history := history p; historyPos := historyPos p;
            text := EmptyString; commands := commands p |}.

(** What reaches the input field: the keys that the callbacks look at, and
    an edit, which leaves the field with some other text. *)
Inductive Event :=
| KeyTAB
| KeyEnter
| KeyUp
| KeyDown
| Edit (newText : string).

Definition onEvent (p : Prompt) (event : Event) : option Prompt :=
  match event with
  | KeyTAB => Some p
  | KeyEnter => onEnter p
  | KeyUp => onUp p
  | KeyDown => onDown p
  | Edit newText =>
      Some {| history := history p; historyPos := historyPos p;
              text := newText; commands := commands p |}
  end.

(** The callbacks on a sequence of events; [None]: a callback has panicked. *)
Fixpoint onEvents (p : Prompt) (events : list Event) : option Prompt :=
  match events with
  | [] => Some p
  | event :: events' => p' ← onEvent p event; onEvents p' events'
  end.

End CommandLine.

Global Instance Prompt_eq_dec : EqDecision Prompt.
Proof. solve_decision. Defined.


(** * Vocabulary of the properties *)

(** What a run of the resolver may do to the file map: bindings that were
    there stay as they are, and a path that was not there is bound to the
    entry that the search of the roots yields for it. *)
Definition recorded (roots : list FirmwareRoot)
    (fm fm' : gmap string FileEntry2) : Prop :=
  (∀ path entry, fm !! path = Some entry → fm' !! path = Some entry) ∧
  (∀ path entry, fm !! path = None → fm' !! path = Some entry →
                 FindInRoots path roots = Ok entry).

(** Every entry of the map is bound to its own [Path]. *)
Definition keyed (m : gmap string FileEntry2) : Prop :=
  map_Forall (λ path entry, Path entry = path) m.

(** Every indexed root is keyed; [AddRoot] builds such roots only. *)
Definition rootsKeyed (allRoots : gmap string FirmwareRoot) : Prop :=
  map_Forall (λ _ root, keyed (Files root)) allRoots.

Global Instance keyed_dec m : Decision (keyed m).
Proof. unfold keyed. apply _. Defined.

Global Instance rootsKeyed_dec allRoots : Decision (rootsKeyed allRoots).
Proof. unfold rootsKeyed. apply _. Defined.

(** An error that wraps [ErrFileEntryNotFound]: some context, then its text. *)
Definition notFoundError (err : error) : Prop :=
  ∃ context, err = context +:+ ErrFileEntryNotFound.

(** Every binding of the map is what the search of the roots yields. *)
Definition resolvedFrom (roots : list FirmwareRoot)
    (fm : gmap string FileEntry2) : Prop :=
  ∀ path entry, fm !! path = Some entry → FindInRoots path roots = Ok entry.

(** The error of [addModules] for an entry module without a file. *)
Definition missingModuleError (moduleName : string) : error :=
  "Cannot add files from module " +:+ moduleName +:+ ": "
  +:+ "Error finding " +:+ Mod2File moduleName +:+ ": " +:+ ErrFileEntryNotFound.

(** The order of the bundled scripts: lexicographic by file name. *)
Definition byName (a b : FileEntry) : Prop := String.le (fileName a) (fileName b).

(** Module [m] needs module [d]: [d] is [m] itself, or a dependency declared
    by the entry found for [m], or needed by such a dependency. *)
Inductive needs (roots : list FirmwareRoot) : string → string → Prop :=
| needs_self m : needs roots m m
| needs_dep m entry dep d :
    FindInRoots (Mod2File m) roots = Ok entry →
    dep ∈ Dependencies entry →
    needs roots dep d →
    needs roots m d.

(** One of the entry modules needs module [d]. *)
Definition needed (roots : list FirmwareRoot) (mods : list ModuleDef)
    (d : string) : Prop :=
  ∃ modDef, modDef ∈ mods ∧ needs roots (ModName modDef) d.

(** The list of libraries holds exactly the processed ones. *)
Definition listed (acc : gmap string bool * list string) : Prop :=
  ∀ n, processed acc.1 n = true ↔ n ∈ acc.2.

(** The position is an index of the history or the length of it. *)
Definition inRange (p : Prompt) : Prop :=
  (0 ≤ historyPos p ≤ Z.of_nat (length (history p)))%Z.

(** A list without its immediate repetitions. *)
Fixpoint collapse (l : list string) : list string :=
  match l with
  | [] => []
  | a :: l' =>
      match l' with
      | b :: _ => if decide (a = b) then collapse l' else a :: collapse l'
      | [] => [a]
      end
  end.

Section Vocabulary.
Context {ext : Extern}.

(** The library root that a definition names. *)
Definition libRootOf (allRoots : gmap string FirmwareRoot) (lib : LibDef)
    (root : FirmwareRoot) : Prop :=
  allRoots !! filepath_Join "site/lib" (LibName lib) = Some root.

#[global] Instance libRootOf_dec allRoots lib root :
  Decision (libRootOf allRoots lib root).
Proof. unfold libRootOf. apply _. Defined.

(** The order of the records: lexicographic by path. *)
Definition byPath (a b : FileEntry2) : Prop := String.le (Path a) (Path b).

#[global] Instance byPath_dec : RelDecision byPath.
Proof. intros a b. unfold byPath. apply _. Defined.

(** One record: the path line, the byte-length line, the raw content. *)
Definition imageRecord (path content : string) : string :=
  path +:+ nl +:+ pretty (String.length content) +:+ nl +:+ content.

Definition imageRecords (files : list (string * string)) : string :=
  foldr (λ '(path, content) rest, imageRecord path content +:+ rest) EmptyString files.

(** The payload as the specification describes it: the textual header, one
    record per file, and the trailing datafiles record holding a JSON array
    of the tokens. *)
Definition imagePayload (info : DeviceInfo) (files : list (string * string))
    (tokens : list string) : string :=
  ("Version: 1 -- HomeNode Device Image File" +:+ nl
   +:+ "Device Id: " +:+ ID info +:+ nl
   +:+ "Device Name: " +:+ Name info +:+ nl
   +:+ "Total files: " +:+ pretty (length files + 1) +:+ nl
   +:+ nl)
  +:+ imageRecords files
  +:+ imageRecord "datafiles.json"
        ("[" +:+ String.concat "," (json_string <$> tokens) +:+ "]").

(** The image file: the checksum line, then the payload it digests. *)
Definition imageLayout (info : DeviceInfo) (files : list (string * string))
    (tokens : list string) : string :=
  "Checksum: " +:+ sha1_hex (imagePayload info files tokens) +:+ nl
  +:+ imagePayload info files tokens.

(** The source of an entry holds [content] when the image is packed. *)
Definition sourceOf (fs : FS) (fe : FileEntry2) (content : string) : Prop :=
  fs !! filepath_Join (Base fe) (Path fe) = Some content.

(** The source of an entry can be opened, measured and read to its end. *)
Definition readable (fs : FS) (fe : FileEntry2) : Prop :=
  let path := filepath_Join (Base fe) (Path fe) in
  is_Some (fs !! path) ∧ Stat_error fs path = None ∧ read_error fs path = None.

#[global] Instance readable_dec fs fe : Decision (readable fs fe).
Proof. unfold readable. apply _. Defined.

(** The error met at the source of an entry: the file is not there, or
    [Stat] fails, or reading it fails. *)
Definition sourceError (fs : FS) (fe : FileEntry2) (err : error) : Prop :=
  let path := filepath_Join (Base fe) (Path fe) in
  (fs !! path = None ∧ err = ErrNotExist path)
  ∨ (is_Some (fs !! path) ∧ Stat_error fs path = Some err)
  ∨ (is_Some (fs !! path) ∧ Stat_error fs path = None
     ∧ read_error fs path = Some err).

#[global] Instance sourceError_dec fs fe err : Decision (sourceError fs fe err).
Proof. unfold sourceError. apply _. Defined.

(** The bytes the hasher is fed: the decoded hashes, one after the other. *)
Definition hashedBytes (entries : list FileEntry) : string :=
  foldr (λ entry rest, hex_DecodeString (hash entry) +:+ rest) EmptyString entries.

(** Library [lib] includes [path] with [entry]: one of its include patterns
    compiles and matches the path, which the root of the library binds to
    the entry. *)
Definition includes (allRoots : gmap string FirmwareRoot) (lib : LibDef)
    (path : string) (entry : FileEntry2) : Prop :=
  ∃ pattern g libRoot,
    pattern ∈ Include lib ∧ glob_Compile pattern = Ok g
    ∧ libRootOf allRoots lib libRoot
    ∧ Files libRoot !! path = Some entry ∧ g path = true.

(** The two documents of the device with the given id. *)
Definition deviceDocument (id path : string) : Prop :=
  path = filepath_Join "dist" (id +:+ ".json")
  ∨ path = filepath_Join "dist" (id +:+ ".img").

#[global] Instance deviceDocument_dec id path : Decision (deviceDocument id path).
Proof. unfold deviceDocument. apply _. Defined.

(** The definition of a device as [buildDeviceFirmwareManifest] reads it. *)
Definition definitionOf (fs : FS) (name : string) (fwDef : FirmwareDef2) : Prop :=
  ReadJSON fs (filepath_Join (filepath_Join "site/devices" name) "firmware.json")
  = Ok fwDef.

#[global] Instance definitionOf_dec fs name fwDef : Decision (definitionOf fs name fwDef).
Proof. unfold definitionOf. apply _. Defined.

(** Every entry of the file table is bound to the base name of its file. *)
Definition based (table : gmap string FileEntry) : Prop :=
  map_Forall (λ b entry, filepath_Base (fileName entry) = b) table.

#[global] Instance based_dec table : Decision (based table).
Proof. unfold based. apply _. Defined.

End Vocabulary.

(** * A runnable instance of the collaborators

    Small stand-ins for the collaborators, good for paths and names made of
    letters, digits, dots and dashes; they serve to run the builder on
    concrete trees. *)

Module Demo.

Definition dquote : string := String "034"%char EmptyString.

Fixpoint splitOn (sep : ascii) (s : string) : list string :=
  match s with
  | EmptyString => [EmptyString]
  | String c s' =>
      if decide (c = sep) then EmptyString :: splitOn sep s'
      else match splitOn sep s' with
           | [] => [String c EmptyString]
           | w :: ws => String c w :: ws
           end
  end.

Fixpoint stripPrefix (p s : string) : option string :=
  match p, s with
  | EmptyString, _ => Some s
  | String a p', String b s' =>
      if decide (a = b) then stripPrefix p' s' else None
  | _, _ => None
  end.

Fixpoint takeUntil (stop : ascii) (s : string) : string :=
  match s with
  | EmptyString => EmptyString
  | String c s' =>
      if decide (c = stop) then EmptyString else String c (takeUntil stop s')
  end.

Definition hasSeparator (s : string) : bool :=
  bool_decide ("/"%char ∈ String.list_ascii_of_string s).

(** Lines of the form [require("name")]. *)
Definition requires (code : string) : list string :=
  omap (λ line, takeUntil "034"%char <$> stripPrefix ("require(" +:+ dquote) line)
       (splitOn "010"%char code).

(** Lines of the form [-- datafile: token]. *)
Definition datafileTokens (code : string) : list string :=
  omap (stripPrefix "-- datafile: ") (splitOn "010"%char code).

(** Patterns [*suffix] (within one path element) and literal patterns. *)
Definition compileGlob (pattern : string) : result (string → bool) :=
  match pattern with
  | String "*"%char suffix =>
      Ok (λ path, negb (hasSeparator path)
                  && String.prefix (String.rev suffix) (String.rev path))
  | _ => Ok (λ path, bool_decide (path = pattern))
  end.

Definition hexDigit (n : N) : ascii :=
  default "0"%char
    (String.list_ascii_of_string "0123456789abcdef" !! N.to_nat (n `mod` 16)%N).

(** A 40 digit stand-in for the digest: a polynomial checksum. *)
Definition checksum (s : string) : N :=
  let modulus := (16 ^ 40)%N in
  foldl (λ acc c, (acc * 257 + N_of_ascii c + 1) `mod` modulus)%N 0%N
        (String.list_ascii_of_string s).

Definition digest (s : string) : string :=
  let sum := checksum s in
  String.string_of_list_ascii
    ((λ i, hexDigit (sum `div` 16 ^ N.of_nat i)%N) <$> seq 0 40).

Definition hexValue (c : ascii) : option N :=
  (λ i, N.of_nat i) <$>
    list_find (λ d, d = c) (String.list_ascii_of_string "0123456789abcdef") ≫= (Some ∘ fst).

Fixpoint hexDecode (s : string) : string :=
  match s with
  | String a (String b s') =>
      match hexValue a, hexValue b with
      | Some x, Some y => String (ascii_of_N (16 * x + y)) (hexDecode s')
      | _, _ => EmptyString
      end
  | _ => EmptyString
  end.

(** [filepath.Clean]: empty and [.] components are dropped, a [..] takes
    the component before it away (at the start of a relative path it
    stays, at the root it is dropped); [stack] holds the components kept so
    far, the last one first. *)
Definition cleanStep (rooted : bool) (stack : list string) (component : string)
  : list string :=
  if decide (component = EmptyString ∨ component = ".") then stack
  else if decide (component = "..") then
    match stack with
    | top :: rest => if decide (top = "..") then component :: stack else rest
    | [] => if rooted then [] else [component]
    end
  else component :: stack.

Definition clean (path : string) : string :=
  let rooted := bool_decide (String.get 0 path = Some "/"%char) in
  let components := reverse (foldl (cleanStep rooted) [] (splitOn "/"%char path)) in
  if rooted then "/" +:+ String.concat "/" components
  else match components with
       | [] => "."
       | _ => String.concat "/" components
       end.

(** [filepath.Join] of two elements: empty elements are left out and the
    result is cleaned. *)
Definition join (dir name : string) : string :=
  if decide (dir = EmptyString) then
    if decide (name = EmptyString) then EmptyString else clean name
  else if decide (name = EmptyString) then clean dir
  else clean (dir +:+ "/" +:+ name).

(** The first [n] bytes of a string. *)
Fixpoint firstBytes (n : nat) (s : string) : string :=
  match n, s with
  | S n', String c s' => String c (firstBytes n' s')
  | _, _ => EmptyString
  end.

Definition base (path : string) : string :=
  default path (last (splitOn "/"%char path)).

(** Files directly below [path]. *)
Definition enumerate (fs : FS) (path : string) : result (list string) :=
  Ok (omap (λ '(file, _),
              name ← stripPrefix (path +:+ "/") file;
              if hasSeparator name then None else Some name)
           (map_to_list fs)).

(** Directories directly below [path]. *)
Definition subdirs (fs : FS) (path : string) : result (list string) :=
  Ok (remove_dups
        (omap (λ '(file, _),
                 name ← stripPrefix (path +:+ "/") file;
                 if hasSeparator name then head (splitOn "/"%char name) else None)
              (map_to_list fs))).

Definition removeContents (fs : FS) (dir : string) : result FS :=
  Ok (filter (λ '(file, _), stripPrefix (dir +:+ "/") file = None) fs).

Definition renderEntry (fe : FileEntry2) : string :=
  "{" +:+ dquote +:+ "path" +:+ dquote +:+ ":" +:+ dquote +:+ Path fe +:+ dquote
  +:+ "," +:+ dquote +:+ "hash" +:+ dquote +:+ ":" +:+ dquote +:+ Hash fe +:+ dquote
  +:+ "}".

Definition renderManifest (m : FirmwareManifest2) : string :=
  "{" +:+ dquote +:+ "name" +:+ dquote +:+ ":" +:+ dquote +:+ Name (ManInfo m) +:+ dquote
  +:+ "," +:+ dquote +:+ "id" +:+ dquote +:+ ":" +:+ dquote +:+ ID (ManInfo m) +:+ dquote
  +:+ "," +:+ dquote +:+ "files" +:+ dquote +:+ ":["
  +:+ String.concat "," (renderEntry <$> ManFiles m) +:+ "]}".

(** The collaborators, given the device definitions by document text. *)
(** A write on a disk that takes [quota] bytes of a file, when there is a
    quota. *)
Definition overQuota (quota : option nat) (bytes : string) : option (error * string) :=
  match quota with
  | Some n =>
      if decide (n < String.length bytes)
      then Some ("no space left on device", firstBytes n bytes)
      else None
  | None => None
  end.

(** The collaborators on such a disk, which otherwise never fails. *)
Program Definition externOn (quota : option nat)
    (definitions : list (string * FirmwareDef2)) : Extern := {|
  strconv_Quote s := dquote +:+ s +:+ dquote;
  filepath_Join := join;
  filepath_Base := base;
  parseDepRegex2 := requires;
  parseDFRegex := datafileTokens;
  glob_Compile := compileGlob;
  sha1_hex := digest;
  hex_DecodeString := hexDecode;
  json_string s := dquote +:+ s +:+ dquote;
  hashBytes := digest;
  EnumerateDir := enumerate;
  ReadDir_dirs := subdirs;
  RemoveDirContents := removeContents;
  decodeFirmwareDef2 doc :=
    match list_find (λ d, d.1 = doc) definitions with
    | Some (_, (_, def)) => Ok def
    | None => Err "invalid character looking for beginning of value"
    end;
  encodeManifest := renderManifest;
  os_Create_error _ _ := None;
  Stat_error _ _ := None;
  read_error _ _ := None;
  write_error _ _ := overQuota quota
|}.
Next Obligation.
  intros _ _ s. unfold digest. cbv zeta.
  generalize ((λ i, hexDigit (checksum s `div` 16 ^ N.of_nat i)%N)) as digit.
  intros digit.
  transitivity (length (digit <$> seq 0 40)).
  - generalize (digit <$> seq 0 40).
    intros l. induction l; simpl; congruence.
  - by rewrite length_fmap, length_seq.
Qed.
Next Obligation.
  intros quota definitions fs path bytes err written. unfold overQuota.
  destruct quota as [n|]; [|done].
  destruct (decide (n < String.length bytes)); [|done].
  intros [= Herr <-]. clear. revert bytes.
  induction n as [|n IH]; intros [|c bytes]; simpl; try by eexists.
  destruct (IH bytes) as [rest Hrest]. exists rest.
  change (String c bytes = String c (firstBytes n bytes +:+ rest)). by f_equal.
Qed.

Definition extern : list (string * FirmwareDef2) → Extern := externOn None.

(** Two orders in which [range] may visit a map. *)
Program Definition forward : MapOrder :=
  {| range V m := map_to_list m |}.
Next Obligation. done. Qed.

Program Definition backward : MapOrder :=
  {| range V m := reverse (map_to_list m) |}.
Next Obligation. intros. apply reverse_Permutation. Qed.

(** A sort that meets the contract of [sort.Slice]. *)
Program Definition mergeSort : SliceSort :=
  {| sort_Slice A key l := merge_sort (λ a b, String.le (key a) (key b)) l |}.
Next Obligation. intros. apply merge_sort_Permutation. Qed.
Next Obligation.
  intros A key l.
  assert (Hsorted : Sorted (λ a b, String.le (key a) (key b))
                      (merge_sort (λ a b, String.le (key a) (key b)) l)).
  { apply Sorted_merge_sort. intros a b. apply (total String.le). }
  simpl. remember (merge_sort _ l) as sorted eqn:Heq in *. clear Heq.
  induction Hsorted as [|a l' _ IH Hhd]; constructor; [done|].
  destruct Hhd as [|b l'' Hab]; constructor.
  unfold less. unfold String.le, String.leb in Hab.
  rewrite (String.compare_antisym (key b) (key a)).
  by destruct (String.compare (key a) (key b)).
Qed.

(** The command line: blanks are trimmed, and a command is a slash, a word
    and the rest of the line. *)
Fixpoint dropBlanks (l : list ascii) : list ascii :=
  match l with
  | c :: l' => if decide (c = " "%char) then dropBlanks l' else l
  | [] => []
  end.

Definition trim (s : string) : string :=
  String.string_of_list_ascii
    (rev (dropBlanks (rev (dropBlanks (String.list_ascii_of_string s))))).

Definition matchCommand (cmdline : string) : option (string * string) :=
  match cmdline with
  | String c rest =>
      if decide (c = "/"%char)
      then
        let command := takeUntil " "%char rest in
        Some (command,
              String.string_of_list_ascii
                (dropBlanks (drop (String.length command)
                                  (String.list_ascii_of_string rest))))
      else None
  | EmptyString => None
  end.

Definition terminal : Terminal := {|
  strings_TrimSpace := trim;
  commandRegex_FindStringSubmatch := matchCommand;
  handle := λ _ _, None;
  Session_SendCommand := λ _, None
|}.

End Demo.

(** * The builder at work on a small site *)

Module Examples.
Import Demo.

Definition script (lines : list string) : string :=
  foldr (λ line rest, line +:+ nl +:+ rest) EmptyString lines.

Definition require (name : string) : string :=
  "require(" +:+ dquote +:+ name +:+ dquote +:+ ")".

(** Three devices: [kitchen] builds; [cellar] names a module that no root
    holds; the only file of the entry module of [porch] is in its own root. *)
Definition kitchen : FirmwareDef2 := {|
  DefInfo := {| Name := "kitchen"; ID := "k1" |};
  Libs := [{| LibName := "net"; IncludeLua := true; Include := ["*.cfg"] |}];
  Modules := [{| ModName := "app"; Autostart := true |}]
|}.

Definition cellar : FirmwareDef2 := {|
  DefInfo := {| Name := "cellar"; ID := "c1" |};
  Libs := [];
  Modules := [{| ModName := "missing.module"; Autostart := false |}]
|}.

Definition porch : FirmwareDef2 := {|
  DefInfo := {| Name := "porch"; ID := "p1" |};
  Libs := [{| LibName := "net"; IncludeLua := true; Include := [] |}];
  Modules := [{| ModName := "local"; Autostart := false |}]
|}.

Definition site : FS := list_to_map [
  ("firmware/app.lua", script [require "wifi"; "-- datafile: a.dat"; "-- datafile: b.dat"]);
  ("firmware/wifi.lua", script [require "app"]);
  ("site/lib/net/wifi.lua", script ["-- net"]);
  ("site/lib/net/net.cfg", "lib");
  ("site/devices/kitchen/firmware.json", "KITCHEN");
  ("site/devices/kitchen/net.cfg", "own");
  ("site/devices/cellar/firmware.json", "CELLAR");
  ("site/devices/porch/firmware.json", "PORCH");
  ("site/devices/porch/local.lua", script ["-- porch"])].

Definition collaborators : Extern :=
  extern [("KITCHEN", kitchen); ("CELLAR", cellar); ("PORCH", porch)].

Definition indexed : gmap string FirmwareRoot :=
  Eval vm_compute in
    match @indexRoots collaborators forward site with
    | Ok roots => roots
    | Err _ => ∅
    end.

Definition netRoot : FirmwareRoot :=
  Eval vm_compute in default zeroRoot (indexed !! "site/lib/net").
Definition coreRoot : FirmwareRoot :=
  Eval vm_compute in default zeroRoot (indexed !! "firmware").

(** The library's and the core's entry for module [wifi]. *)
Definition netWifi : FileEntry2 := {|
  Base := "site/lib/net"; Path := "wifi.lua";
  Hash := "2dd0cfd5fb54f200000000000000000000000000";
  Dependencies := []; Datafiles := []
|}.

(** A cycle: [a] requires [b] and [b] requires [a]. *)
Definition entryOf (name : string) (deps : list string) : FileEntry2 := {|
  Base := "firmware"; Path := name +:+ ".lua"; Hash := digest name;
  Dependencies := deps; Datafiles := []
|}.

Definition rootOf (entries : list FileEntry2) : FirmwareRoot := {|
  BasePath := "firmware";
  Files := list_to_map ((λ entry, (Path entry, entry)) <$> entries)
|}.

Definition cycle : FirmwareRoot := rootOf [entryOf "a" ["b"]; entryOf "b" ["a"]].

(** A diamond: [top] requires [left] and [right], both require [shared]. *)
Definition diamond : FirmwareRoot :=
  rootOf [entryOf "top" ["left"; "right"]; entryOf "left" ["shared"];
          entryOf "right" ["shared"]; entryOf "shared" []].

Definition entryModule (name : string) : ModuleDef :=
  {| ModName := name; Autostart := false |}.

(** The roots once [kitchen] is indexed, its manifest and its build. *)
Definition kitchenRoots : gmap string FirmwareRoot :=
  Eval vm_compute in @addDeviceRoot collaborators forward site indexed "kitchen".
Definition kitchenRoot : FirmwareRoot :=
  Eval vm_compute in default zeroRoot (kitchenRoots !! "site/devices/kitchen").
Definition kitchenManifest : FirmwareManifest2 :=
  Eval vm_compute in
    match @buildDeviceFirmwareManifest collaborators forward site kitchenRoots "kitchen" with
    | Some (Ok manifest) => manifest
    | _ => {| ManInfo := DefInfo kitchen; ManFiles := [] |}
    end.
Definition built : FS :=
  Eval vm_compute in
    match @Build2_device collaborators forward mergeSort site indexed "kitchen" with
    | Some (fs, _, _) => fs
    | None => ∅
    end.

Definition ownCfg : FileEntry2 := {|
  Base := "site/devices/kitchen"; Path := "net.cfg";
  Hash := digest "own"; Dependencies := []; Datafiles := []
|}.

(** Packing the manifest of [kitchen]. *)
Definition packed : FS :=
  Eval vm_compute in (@writeFirmwareImage collaborators mergeSort site kitchenManifest).1.1.
Definition sortedManifest : FirmwareManifest2 :=
  Eval vm_compute in (@writeFirmwareImage collaborators mergeSort site kitchenManifest).1.2.

(** The roots once [porch] is indexed. *)
Definition porchRoots : gmap string FirmwareRoot :=
  Eval vm_compute in @addDeviceRoot collaborators forward site indexed "porch".
Definition porchRoot : FirmwareRoot :=
  Eval vm_compute in default zeroRoot (porchRoots !! "site/devices/porch").
Definition porchLocal : FileEntry2 :=
  Eval vm_compute in
    default (entryOf "local" []) (Files porchRoot !! "local.lua").

(** One device whose script declares two datafile tokens. *)
Definition lamp : FirmwareDef2 := {|
  DefInfo := {| Name := "lamp"; ID := "l1" |};
  Libs := [];
  Modules := []
|}.

Definition lampSite : FS := list_to_map [
  ("site/devices/lamp/firmware.json", "LAMP");
  ("site/devices/lamp/init.lua", script ["-- datafile: a.dat"; "-- datafile: b.dat"])].

Definition lampCollaborators : Extern := extern [("LAMP", lamp)].

(** The roots once [cellar] is indexed. *)
Definition cellarRoots : gmap string FirmwareRoot :=
  Eval vm_compute in @addDeviceRoot collaborators forward site indexed "cellar".

(** Two scripts of a bundle. *)
Definition scriptA : FileEntry := {| fileName := "/net/a.lua"; hash := "0a0b" |}.
Definition scriptB : FileEntry := {| fileName := "/net/b.lua"; hash := "0c0d" |}.

(** The output of the two builds of [lampSite]. *)
Definition lampForward : FS :=
  Eval vm_compute in
    match @Build2 lampCollaborators forward mergeSort lampSite with
    | Some (fs, _) => fs
    | None => ∅
    end.
Definition lampBackward : FS :=
  Eval vm_compute in
    match @Build2 lampCollaborators backward mergeSort lampSite with
    | Some (fs, _) => fs
    | None => ∅
    end.


(** A device that names its own directory as a library to be searched. *)
Definition hut : FirmwareDef2 := {|
  DefInfo := {| Name := "hut"; ID := "h1" |};
  Libs := [{| LibName := "../devices/hut"; IncludeLua := true; Include := [] |}];
  Modules := [{| ModName := "local"; Autostart := false |}]
|}.

Definition hutSite : FS := list_to_map [
  ("site/devices/hut/firmware.json", "HUT");
  ("site/devices/hut/local.lua", script ["-- hut"])].

Definition hutCollaborators : Extern := extern [("HUT", hut)].

Definition hutIndexed : gmap string FirmwareRoot :=
  Eval vm_compute in
    match @indexRoots hutCollaborators forward hutSite with
    | Ok roots => roots
    | Err _ => ∅
    end.
Definition hutRoots : gmap string FirmwareRoot :=
  Eval vm_compute in @addDeviceRoot hutCollaborators forward hutSite hutIndexed "hut".
Definition hutRoot : FirmwareRoot :=
  Eval vm_compute in default zeroRoot (hutRoots !! "site/devices/hut").
Definition hutSearch : list FirmwareRoot :=
  Eval vm_compute in
    match @getDeviceFirmwareRoots hutCollaborators hutRoots (Libs hut) with
    | Ok search => search
    | Err _ => []
    end.
Definition hutLocal : FileEntry2 :=
  Eval vm_compute in default (entryOf "local" []) (Files hutRoot !! "local.lua").
Definition hutBuilt : FS :=
  Eval vm_compute in
    match @Build2_device hutCollaborators forward mergeSort hutSite hutIndexed "hut" with
    | Some (fs, _, _) => fs
    | None => ∅
    end.

(** The file map of the diamond, and two entry modules in both orders. *)
Definition topFirst : list ModuleDef := [entryModule "top"; entryModule "shared"].
Definition sharedFirst : list ModuleDef := [entryModule "shared"; entryModule "top"].

(** The index of the library [net] alone. *)
Definition netIndexed : gmap string FirmwareRoot :=
  Eval vm_compute in
    match @AddRoot collaborators forward site "site/lib/net" ∅ with
    | Ok roots => roots
    | Err _ => ∅
    end.

(** The assets of [kitchen]'s libraries, and its file set. *)
Definition kitchenAssets : gmap string FileEntry2 :=
  Eval vm_compute in (@AddOtherFiles collaborators forward indexed (Libs kitchen) ∅).1.
Definition kitchenFiles : gmap string FileEntry2 :=
  Eval vm_compute in
    match @deviceFileMap collaborators forward kitchenRoots "kitchen" kitchen with
    | Some (Ok fileMap) => fileMap
    | _ => ∅
    end.

(** The error of the build of [cellar]. *)
Definition cellarError : error :=
  Eval vm_compute in
    match @Build2_devices collaborators forward mergeSort site indexed ["cellar"] with
    | Some (_, Some err) => err
    | _ => EmptyString
    end.

(** Packed libraries of the flat pipeline: [net] imports [core], and [ui]
    imports [fonts], which is not packed. *)
Definition netLib : Lib := {|
  files := list_to_map [("/net/wifi.lua", "0a0b"); ("/net/mqtt.lua", "0c0d");
                        ("/net/net.cfg", "0e0f")];
  dependencies := ["core"]
|}.
Definition coreLib : Lib := {|
  files := list_to_map [("/core/init.lua", "0102"); ("/core/net.cfg", "0304")];
  dependencies := []
|}.
Definition uiLib : Lib := {|
  files := list_to_map [("/ui/menu.lua", "0506")];
  dependencies := ["fonts"]
|}.
Definition flatLibs : gmap string Lib :=
  list_to_map [("net", netLib); ("core", coreLib); ("ui", uiLib)].

Definition flatDevice : Lib := {|
  files := list_to_map [("/kitchen/init.lua", "0708"); ("/kitchen/firmware.json", "090a")];
  dependencies := []
|}.

Definition flatManifest : gmap string string :=
  Eval vm_compute in
    match @deviceManifestFiles collaborators forward flatLibs "kitchen" flatDevice
            ["net"] ∅ with
    | Ok fmFiles => fmFiles
    | Err _ => ∅
    end.

(** A session at the prompt: [ls] is entered twice, then another command. *)
Definition typed : list Event :=
  [Edit " ls "; KeyEnter; Edit "ls"; KeyEnter; Edit "cat init.lua"; KeyEnter].
Definition entered : Prompt :=
  Eval vm_compute in default newPrompt (@onEvents terminal newPrompt typed).
Definition editing : Prompt :=
  {| history := history entered; historyPos := historyPos entered;
     text := "reboot"; commands := commands entered |}.

Definition uploadOnly : gmap string Z := {[ "upload" := 1%Z ]}.

End Examples.

(** * Properties *)

(** ** The order of [strings.Compare] *)

Lemma less_false_le (a b : string) : less b a = false ↔ String.le a b.
Proof.
  unfold less, String.le, String.leb.
  rewrite (String.compare_antisym b a).
  destruct (String.compare a b); simpl; split; done.
Qed.

Lemma Sorted_weaken {A} (R1 R2 : relation A) (l : list A) :
  (∀ a b, R1 a b → R2 a b) → Sorted R1 l → Sorted R2 l.
Proof.
  intros Himpl. induction 1 as [|a l _ IH Hhd]; constructor; [done|].
  destruct Hhd; constructor; auto.
Qed.

(** ** Termination of the resolver *)

Lemma FindInRoots_Ok_rootPaths fileName roots entry :
  FindInRoots fileName roots = Ok entry → fileName ∈ rootPaths roots.
Proof.
  unfold rootPaths. induction roots as [|root roots IH]; simpl; [done|].
  destruct (Files root !! fileName) eqn:Hl.
  - intros _. apply elem_of_union_l, elem_of_dom. eauto.
  - intros H. apply elem_of_union_r, IH, H.
Qed.

Lemma pending_mono roots (fm fm' : gmap string FileEntry2) :
  dom fm ⊆ dom fm' → pending roots fm' ≤ pending roots fm.
Proof.
  intros Hsub. apply subseteq_size.
  intros path [Hroot Hnew]%elem_of_difference. apply elem_of_difference.
  split; [done|]. intros Hold. apply Hnew, Hsub, Hold.
Qed.

Lemma pending_insert roots (fm : gmap string FileEntry2) k e :
  k ∈ rootPaths roots → fm !! k = None →
  pending roots (<[k:=e]> fm) < pending roots fm.
Proof.
  intros Hk Hnone. apply subset_size.
  rewrite dom_insert_L. apply not_elem_of_dom in Hnone.
  split.
  - intros path [Hroot Hnew]%elem_of_difference. apply elem_of_difference.
    split; [done|]. intros Hold. apply Hnew, elem_of_union_r, Hold.
  - intros Hsub.
    assert (Hin : k ∈ rootPaths roots ∖ dom fm) by (by apply elem_of_difference).
    apply Hsub, elem_of_difference in Hin as [_ Hnew].
    by apply Hnew, elem_of_union_l, elem_of_singleton.
Qed.

Lemma AddFilesFromModule_fuel_enough fuel quote moduleName roots fileMap :
  pending roots fileMap < fuel →
  ∃ fileMap' err,
    AddFilesFromModule_fuel fuel quote moduleName roots fileMap = Some (fileMap', err)
    ∧ dom fileMap ⊆ dom fileMap'.
Proof.
  revert moduleName fileMap.
  induction fuel as [|fuel IH]; intros moduleName fileMap Hlt; [lia|].
  simpl. destruct (fileMap !! Mod2File moduleName) eqn:Hin; [by eauto|].
  destruct (FindInRoots (Mod2File moduleName) roots) as [entry|e] eqn:Hfind;
    [|by eauto].
  pose proof (pending_insert roots fileMap _ entry
                (FindInRoots_Ok_rootPaths _ _ _ Hfind) Hin) as Hdec.
  assert (Hsub : dom fileMap ⊆ dom (<[Mod2File moduleName:=entry]> fileMap))
    by (rewrite dom_insert_L; set_solver).
  revert Hdec Hsub.
  generalize (<[Mod2File moduleName:=entry]> fileMap) as fm.
  induction (Dependencies entry) as [|dep deps IHdeps]; intros fm Hdec Hsub;
    simpl; [by eauto|].
  destruct (IH dep fm) as (fm' & err & -> & Hsub'); [lia|].
  destruct err as [err|]; [eexists _, _; split; [done|set_solver]|].
  apply IHdeps; [|set_solver].
  pose proof (pending_mono roots fm fm' Hsub'). lia.
Qed.


Section ResolverInvariant.
Variable quote : string → string.
Variable roots : list FirmwareRoot.
Variable P : gmap string FileEntry2 → gmap string FileEntry2 → Prop.
Hypothesis P_refl : ∀ fm, P fm fm.
Hypothesis P_trans : ∀ fm1 fm2 fm3, P fm1 fm2 → P fm2 fm3 → P fm1 fm3.
Hypothesis P_record : ∀ fm path entry,
  fm !! path = None → FindInRoots path roots = Ok entry →
  P fm (<[path:=entry]> fm).

Lemma resolveDependencies_invariant self entry deps fm fm' err :
  (∀ dep fm1 fm2 err', self dep fm1 = Some (fm2, err') → P fm1 fm2) →
  resolveDependencies self quote entry deps fm = Some (fm', err) → P fm fm'.
Proof.
  intros Hself. revert fm.
  induction deps as [|dep deps IH]; intros fm; simpl.
  - intros [= <- _]. apply P_refl.
  - destruct (self dep fm) as [[fm1 [err1|]]|] eqn:Hcall; [| |done].
    + intros [= <- _]. eauto.
    + intros Hrest. eapply P_trans; eauto.
Qed.

Lemma AddFilesFromModule_fuel_invariant fuel moduleName fm fm' err :
  AddFilesFromModule_fuel fuel quote moduleName roots fm = Some (fm', err) →
  P fm fm'.
Proof.
  revert moduleName fm fm' err.
  induction fuel as [|fuel IH]; intros moduleName fm fm' err; simpl; [done|].
  destruct (fm !! Mod2File moduleName) eqn:Hin.
  { intros [= <- _]. apply P_refl. }
  destruct (FindInRoots (Mod2File moduleName) roots) as [entry|e] eqn:Hfind.
  - intros Hdeps. eapply P_trans; [by apply P_record|].
    eapply resolveDependencies_invariant; [|done]. eauto.
  - intros [= <- _]. apply P_refl.
Qed.
End ResolverInvariant.

Lemma recorded_refl roots fm : recorded roots fm fm.
Proof. split; [done|]. intros path entry Hnone Hsome. congruence. Qed.

Lemma recorded_trans roots fm1 fm2 fm3 :
  recorded roots fm1 fm2 → recorded roots fm2 fm3 → recorded roots fm1 fm3.
Proof.
  intros [Hkeep12 Hnew12] [Hkeep23 Hnew23]. split; [by auto|].
  intros path entry Hnone Hsome.
  destruct (fm2 !! path) as [entry2|] eqn:Hmid; [|by eauto].
  pose proof (Hkeep23 _ _ Hmid). simplify_eq. eauto.
Qed.

Lemma recorded_insert roots fm path entry :
  fm !! path = None → FindInRoots path roots = Ok entry →
  recorded roots fm (<[path:=entry]> fm).
Proof.
  intros Hnone Hfind. split.
  - intros path' entry' Hsome. rewrite lookup_insert_ne; [done|congruence].
  - intros path' entry' Hnone'. rewrite lookup_insert. case_decide; [|congruence].
    intros [= <-]. by subst.
Qed.

Lemma AddFilesFromModule_fuel_recorded fuel quote moduleName roots fm fm' err :
  AddFilesFromModule_fuel fuel quote moduleName roots fm = Some (fm', err) →
  recorded roots fm fm'.
Proof.
  apply AddFilesFromModule_fuel_invariant;
    eauto using recorded_refl, recorded_trans, recorded_insert.
Qed.

(** More fuel than needed does not change the result. *)
Lemma AddFilesFromModule_fuel_mono fuel fuel' quote moduleName roots fm r :
  fuel ≤ fuel' →
  AddFilesFromModule_fuel fuel quote moduleName roots fm = Some r →
  AddFilesFromModule_fuel fuel' quote moduleName roots fm = Some r.
Proof.
  revert fuel' moduleName fm r.
  induction fuel as [|fuel IH]; intros fuel' moduleName fm r Hle; simpl; [done|].
  destruct fuel' as [|fuel']; [lia|]. simpl.
  destruct (fm !! Mod2File moduleName); [done|].
  destruct (FindInRoots (Mod2File moduleName) roots) as [entry|e]; [|done].
  generalize (<[Mod2File moduleName:=entry]> fm) as fm0.
  induction (Dependencies entry) as [|dep deps IHdeps]; intros fm0; simpl; [done|].
  destruct (AddFilesFromModule_fuel fuel quote dep roots fm0)
    as [[fm1 err1]|] eqn:Hcall; [|done].
  rewrite (IH fuel' dep fm0 (fm1, err1)); [|lia|done].
  destruct err1; [done|]. apply IHdeps.
Qed.

Section Resolver.
Context {ext : Extern}.

Lemma AddFilesFromModule_returns moduleName roots fileMap :
  ∃ fileMap' err,
    AddFilesFromModule strconv_Quote moduleName roots fileMap = Some (fileMap', err)
    ∧ recorded roots fileMap fileMap'.
Proof.
  destruct (AddFilesFromModule_fuel_enough (S (pending roots fileMap))
              strconv_Quote moduleName roots fileMap) as (fm' & err & Hrun & _);
    [lia|].
  eauto using AddFilesFromModule_fuel_recorded.
Qed.

Lemma addModules_returns roots mods fileMap :
  ∃ fileMap' err,
    addModules roots mods fileMap = Some (fileMap', err)
    ∧ recorded roots fileMap fileMap'.
Proof.
  revert fileMap. induction mods as [|modDef mods IH]; intros fileMap; simpl.
  - eauto using recorded_refl.
  - destruct (AddFilesFromModule_returns (ModName modDef) roots fileMap)
      as (fm1 & err1 & -> & Hrec1).
    destruct err1 as [err1|]; [by eauto|].
    destruct (IH fm1) as (fm2 & err2 & -> & Hrec2).
    eauto using recorded_trans.
Qed.

End Resolver.

(** ** Search order *)

Lemma FindInRoots_first fileName earlier root later entry :
  Forall (λ r, Files r !! fileName = None) earlier →
  Files root !! fileName = Some entry →
  FindInRoots fileName (earlier ++ root :: later) = Ok entry.
Proof.
  intros Hearlier Hroot.
  induction Hearlier as [|r earlier Hr _ IH]; simpl; [by rewrite Hroot|].
  by rewrite Hr.
Qed.

Lemma FindInRoots_Ok_elem fileName roots entry :
  FindInRoots fileName roots = Ok entry →
  ∃ root, root ∈ roots ∧ Files root !! fileName = Some entry.
Proof.
  induction roots as [|root roots IH]; simpl; [done|].
  destruct (Files root !! fileName) as [entry'|] eqn:Hroot.
  - intros [= <-]. exists root. split; [left|done].
  - intros (root' & Hin & Hfile)%IH. exists root'. split; [by right|done].
Qed.

Lemma FindInRoots_Err fileName roots :
  Forall (λ r, Files r !! fileName = None) roots →
  FindInRoots fileName roots = Err ErrFileEntryNotFound.
Proof. induction 1 as [|r roots Hr _ IH]; simpl; [done|]. by rewrite Hr. Qed.

Section SearchOrder.
Context {ext : Extern}.

Lemma selectLibRoots_shape allRoots libs acc roots :
  selectLibRoots allRoots libs acc = Ok roots →
  ∃ libRoots,
    roots = acc ++ libRoots
    ∧ Forall2 (libRootOf allRoots) (filter (λ lib, IncludeLua lib = true) libs) libRoots.
Proof.
  revert acc. induction libs as [|lib libs IH]; intros acc; simpl.
  - intros [= <-]. exists []. by rewrite app_nil_r.
  - rewrite filter_cons. destruct (IncludeLua lib) eqn:Hflag.
    + destruct (allRoots !! filepath_Join "site/lib" (LibName lib))
        as [root|] eqn:Hroot; [|done].
      intros (libRoots & -> & Hall)%IH. exists (root :: libRoots).
      rewrite <- app_assoc. split; [done|].
      rewrite decide_True by done. by constructor.
    + intros (libRoots & -> & Hall)%IH. exists libRoots.
      split; [done|]. by rewrite decide_False by done.
Qed.

Lemma getDeviceFirmwareRoots_shape allRoots libs roots :
  getDeviceFirmwareRoots allRoots libs = Ok roots →
  ∃ libRoots,
    roots = libRoots ++ [default zeroRoot (allRoots !! "firmware")]
    ∧ Forall2 (libRootOf allRoots) (filter (λ lib, IncludeLua lib = true) libs) libRoots.
Proof.
  unfold getDeviceFirmwareRoots.
  destruct (selectLibRoots allRoots libs []) as [libRoots|e] eqn:Hsel; [|done].
  simpl. intros [= <-].
  apply selectLibRoots_shape in Hsel as (libRoots' & -> & Hall). eauto.
Qed.

Lemma AddFilesFromModule_selects moduleName roots fileMap entry :
  FindInRoots (Mod2File moduleName) roots = Ok entry →
  fileMap !! Mod2File moduleName = None →
  ∃ fileMap' err,
    AddFilesFromModule strconv_Quote moduleName roots fileMap = Some (fileMap', err)
    ∧ fileMap' !! Mod2File moduleName = Some entry.
Proof.
  intros Hfind Hnone.
  destruct (AddFilesFromModule_returns moduleName roots fileMap)
    as (fm' & err & Hrun & _).
  exists fm', err. split; [done|].
  unfold AddFilesFromModule in Hrun. simpl in Hrun.
  rewrite Hnone, Hfind in Hrun.
  eapply (resolveDependencies_invariant strconv_Quote (recorded roots)) in Hrun;
    eauto using recorded_refl, recorded_trans, AddFilesFromModule_fuel_recorded.
  destruct Hrun as [Hkeep _]. apply Hkeep, lookup_insert_eq.
Qed.

(** C2. The roots searched for a device are the roots of its libraries
    flagged for dependency search, in declared order, followed by the core
    root. A module whose file is indexed by several of them resolves to the
    entry of the earliest such root; so a module indexed by the (searched)
    first-declared library resolves to that library's entry, whatever the
    core root holds. *)
Theorem search_order_precedence allRoots libs roots moduleName :
  getDeviceFirmwareRoots allRoots libs = Ok roots →
  (∃ libRoots,
     roots = libRoots ++ [default zeroRoot (allRoots !! "firmware")]
     ∧ Forall2 (libRootOf allRoots)
               (filter (λ lib, IncludeLua lib = true) libs) libRoots)
  ∧ (∀ earlier root later entry,
       roots = earlier ++ root :: later →
       Forall (λ r, Files r !! Mod2File moduleName = None) earlier →
       Files root !! Mod2File moduleName = Some entry →
       FindInRoots (Mod2File moduleName) roots = Ok entry
       ∧ ∀ fileMap, fileMap !! Mod2File moduleName = None →
           ∃ fileMap' err,
             AddFilesFromModule strconv_Quote moduleName roots fileMap
               = Some (fileMap', err)
             ∧ fileMap' !! Mod2File moduleName = Some entry)
  ∧ (∀ lib libs' root entry,
       libs = lib :: libs' → IncludeLua lib = true →
       libRootOf allRoots lib root →
       Files root !! Mod2File moduleName = Some entry →
       FindInRoots (Mod2File moduleName) roots = Ok entry
       ∧ ∀ fileMap, fileMap !! Mod2File moduleName = None →
           ∃ fileMap' err,
             AddFilesFromModule strconv_Quote moduleName roots fileMap
               = Some (fileMap', err)
             ∧ fileMap' !! Mod2File moduleName = Some entry).
Proof.
  intros Hroots.
  assert (Hsearch : ∀ earlier root later entry,
    roots = earlier ++ root :: later →
    Forall (λ r, Files r !! Mod2File moduleName = None) earlier →
    Files root !! Mod2File moduleName = Some entry →
    FindInRoots (Mod2File moduleName) roots = Ok entry
    ∧ ∀ fileMap, fileMap !! Mod2File moduleName = None →
        ∃ fileMap' err,
          AddFilesFromModule strconv_Quote moduleName roots fileMap
            = Some (fileMap', err)
          ∧ fileMap' !! Mod2File moduleName = Some entry).
  { intros earlier root later entry -> Hearlier Hroot.
    pose proof (FindInRoots_first _ _ _ later _ Hearlier Hroot) as Hfind.
    split; [done|]. intros fileMap Hnone.
    by apply AddFilesFromModule_selects. }
  pose proof (getDeviceFirmwareRoots_shape _ _ _ Hroots) as (libRoots & Heq & Hall).
  split_and!; [by eauto|done|].
  intros lib libs' root entry -> Hflag Hlib Hfile.
  rewrite filter_cons, decide_True in Hall by done.
  apply Forall2_cons_inv_l in Hall as (root' & libRoots' & Hlib' & _ & ->).
  unfold libRootOf in *. simplify_eq.
  by apply (Hsearch [] root' (libRoots' ++ [default zeroRoot (allRoots !! "firmware")])).
Qed.

End SearchOrder.

(** ** Entries are stored under their own path *)

Lemma foldl_invariant {A B} (P : A → Prop) (f : A → B → A) (l : list B) (a : A) :
  P a → (∀ a x, x ∈ l → P a → P (f a x)) → P (foldl f a l).
Proof.
  revert a. induction l as [|x l IH]; intros a Ha Hstep; simpl; [done|].
  apply IH; [apply Hstep; [left|done]|].
  intros a' x' Hin. apply Hstep. by right.
Qed.

Lemma keyed_insert m entry : keyed m → keyed (<[Path entry := entry]> m).
Proof. intros Hm. by apply map_Forall_insert_2. Qed.

Lemma keyed_recorded roots fm fm' :
  Forall (λ root, keyed (Files root)) roots →
  keyed fm → recorded roots fm fm' → keyed fm'.
Proof.
  intros Hroots Hfm [Hkeep Hnew] path entry Hbound.
  destruct (fm !! path) as [entry0|] eqn:Hold.
  - pose proof (Hkeep _ _ Hold). simplify_eq. by apply (Hfm path).
  - apply Hnew, FindInRoots_Ok_elem in Hbound as (root & Hin & Hfile); [|done].
    rewrite Forall_forall in Hroots. by apply (Hroots root Hin path).
Qed.

Section Range.
Context {ord : MapOrder}.

Lemma elem_of_range {V} (m : gmap string V) k v :
  (k, v) ∈ range m ↔ m !! k = Some v.
Proof. by rewrite range_perm, elem_of_map_to_list. Qed.

Lemma NoDup_range_keys {V} (m : gmap string V) : NoDup (range m).*1.
Proof. rewrite range_perm. apply NoDup_fst_map_to_list. Qed.

Lemma elem_of_range_values {V} (m : gmap string V) v :
  v ∈ (range m).*2 ↔ ∃ k, m !! k = Some v.
Proof.
  rewrite list_elem_of_fmap. split.
  - intros ([k v'] & -> & Hin). exists k. by apply elem_of_range.
  - intros [k Hk]. exists (k, v). split; [done|]. by apply elem_of_range.
Qed.

End Range.

Lemma AddRoot_indexFiles_keyed {ext : Extern} {ord : MapOrder} fs path list entries entries' :
  keyed entries → indexFiles fs path list entries = Ok entries' → keyed entries'.
Proof.
  revert entries. induction list as [|f list IH]; intros entries Hkeyed; simpl.
  - by intros [= <-].
  - destruct (indexFile fs path f) as [entry|e]; [|done]. simpl.
    apply IH. by apply keyed_insert.
Qed.

Lemma AddRoot_rootsKeyed {ext : Extern} {ord : MapOrder} fs path roots roots' :
  rootsKeyed roots → AddRoot fs path roots = Ok roots' → rootsKeyed roots'.
Proof.
  intros Hroots. unfold AddRoot.
  destruct (EnumerateDir fs path) as [list|e]; [|done]. simpl.
  destruct (indexFiles fs path list ∅) as [entries|e] eqn:Hindex; [|done]. simpl.
  intros [= <-]. apply map_Forall_insert_2; [|done]. simpl.
  eapply AddRoot_indexFiles_keyed; [|done]. apply map_Forall_empty.
Qed.

Section Overlay.
Context {ext : Extern} {ord : MapOrder}.

Lemma getDeviceFirmwareRoots_keyed allRoots libs roots :
  rootsKeyed allRoots →
  getDeviceFirmwareRoots allRoots libs = Ok roots →
  Forall (λ root, keyed (Files root)) roots.
Proof.
  intros Hall (libRoots & -> & Hlibs)%getDeviceFirmwareRoots_shape.
  apply Forall_app. split.
  - clear -Hall Hlibs. induction Hlibs as [|lib root libs' roots' Hlib _ IH];
      constructor; [|done].
    by apply (Hall _ _ Hlib).
  - constructor; [|done].
    destruct (allRoots !! "firmware") as [core|] eqn:Hcore; simpl.
    + by apply (Hall _ _ Hcore).
    + apply map_Forall_empty.
Qed.

Lemma addMatching_keyed g libRoot fileMap :
  keyed (Files libRoot) → keyed fileMap → keyed (addMatching g libRoot fileMap).
Proof.
  intros Hroot Hfm. unfold addMatching.
  apply (foldl_invariant keyed); [done|].
  intros fm [path entry] Hin%elem_of_range Hkeyed.
  destruct (g path); [|done].
  rewrite <- (Hroot path entry Hin) at 1. by apply keyed_insert.
Qed.

Lemma addPatterns_keyed allRoots lib patterns fileMap fileMap' err :
  rootsKeyed allRoots → keyed fileMap →
  addPatterns allRoots lib patterns fileMap = (fileMap', err) → keyed fileMap'.
Proof.
  intros Hall. revert fileMap.
  induction patterns as [|pattern patterns IH]; intros fileMap Hfm; simpl.
  - by intros [= <- _].
  - destruct (glob_Compile pattern) as [g|e]; [|by intros [= <- _]].
    destruct (allRoots !! filepath_Join "site/lib" (LibName lib))
      as [libRoot|] eqn:Hroot; [|by intros [= <- _]].
    apply IH, addMatching_keyed; [|done]. by apply (Hall _ _ Hroot).
Qed.

Lemma AddOtherFiles_keyed allRoots libs fileMap fileMap' err :
  rootsKeyed allRoots → keyed fileMap →
  AddOtherFiles allRoots libs fileMap = (fileMap', err) → keyed fileMap'.
Proof.
  intros Hall. revert fileMap.
  induction libs as [|lib libs IH]; intros fileMap Hfm; simpl.
  - by intros [= <- _].
  - destruct (addPatterns allRoots lib (Include lib) fileMap)
      as [fm1 [err1|]] eqn:Hpat.
    + intros [= <- _]. by eapply addPatterns_keyed.
    + apply IH. by eapply addPatterns_keyed.
Qed.

Lemma AddDeviceSpecificFiles_keyed deviceRoot fileMap :
  keyed fileMap → keyed (AddDeviceSpecificFiles deviceRoot fileMap).
Proof.
  intros Hfm. unfold AddDeviceSpecificFiles.
  apply (foldl_invariant keyed); [done|].
  intros fm [path entry] _ Hkeyed. by apply keyed_insert.
Qed.

(** The overlay binds every path of a keyed device root to the root's entry,
    whatever the map held before. *)
Lemma AddDeviceSpecificFiles_lookup deviceRoot fileMap path entry :
  keyed (Files deviceRoot) →
  Files deviceRoot !! path = Some entry →
  AddDeviceSpecificFiles deviceRoot fileMap !! path = Some entry.
Proof.
  intros Hroot Hfile. unfold AddDeviceSpecificFiles.
  assert (Hin : (path, entry) ∈ range (Files deviceRoot)) by by apply elem_of_range.
  assert (Huniq : ∀ k fe, (k, fe) ∈ range (Files deviceRoot) →
                          Path fe = path → fe = entry).
  { intros k fe Hk%elem_of_range Hpath.
    rewrite (Hroot _ _ Hk) in Hpath. simplify_eq. done. }
  revert Hin Huniq. generalize (range (Files deviceRoot)) as l.
  intros l Hin Huniq.
  assert (Hgoal : ∀ fm : gmap string FileEntry2,
            fm !! path = Some entry ∨ (path, entry) ∈ l →
            foldl (λ (fm : gmap string FileEntry2) '(_, fe), <[Path fe := fe]> fm)
                  fm l !! path = Some entry);
    [|by eauto].
  clear Hin. induction l as [|[k fe] l IH]; intros fm Hor; simpl.
  - destruct Hor as [|Hin]; [done|]. by apply elem_of_nil in Hin.
  - apply IH; [intros k' fe' Hin'; apply (Huniq k' fe'); by right|].
    destruct (decide (Path fe = path)) as [Hpath|Hpath].
    + left. assert (fe = entry) as -> by (apply (Huniq k); [left|done]).
      rewrite Hpath. apply lookup_insert_eq.
    + destruct Hor as [Hfm|Hin].
      * left. by rewrite lookup_insert_ne.
      * apply elem_of_cons in Hin as [[= <- <-]|Hin]; [|by right].
        by pose proof (Hroot path entry Hfile).
Qed.

(** C3. When the manifest of a device is built, every path of the device's
    own root is bound, in the final file set, to the entry of the device
    root, whatever the module closure and the library assets bound it to;
    the manifest lists that entry, and no other entry with that path. *)
Theorem device_files_override fs allRoots deviceName manifest deviceRoot :
  rootsKeyed allRoots →
  allRoots !! filepath_Join "site/devices" deviceName = Some deviceRoot →
  buildDeviceFirmwareManifest fs allRoots deviceName = Some (Ok manifest) →
  ∃ fwDef fileMap,
    deviceFileMap allRoots deviceName fwDef = Some (Ok fileMap)
    ∧ ManFiles manifest = (range fileMap).*2
    ∧ ∀ path entry,
        Files deviceRoot !! path = Some entry →
        fileMap !! path = Some entry
        ∧ entry ∈ ManFiles manifest
        ∧ ∀ fe, fe ∈ ManFiles manifest → Path fe = path →
                fe = entry ∧ Hash fe = Hash entry.
Proof.
  intros Hall Hdev. unfold buildDeviceFirmwareManifest.
  destruct (ReadJSON fs _) as [fwDef|e]; [|done].
  destruct (deviceFileMap allRoots deviceName fwDef)
    as [[fileMap|e]|] eqn:Hmap; [|done..].
  intros [= <-]. exists fwDef, fileMap. split_and!; [done..|].
  unfold deviceFileMap in Hmap.
  destruct (getDeviceFirmwareRoots allRoots (Libs fwDef))
    as [roots|e] eqn:Hroots; [|done].
  destruct (addModules_returns roots (Modules fwDef) ∅)
    as (fm1 & err1 & Hmods & Hrec1).
  rewrite Hmods in Hmap. destruct err1; [done|].
  destruct (AddOtherFiles allRoots (Libs fwDef) fm1) as [fm2 [err2|]] eqn:Hother;
    [done|].
  rewrite Hdev in Hmap. injection Hmap as <-.
  assert (Hkeyed : keyed (AddDeviceSpecificFiles deviceRoot fm2)).
  { apply AddDeviceSpecificFiles_keyed.
    eapply AddOtherFiles_keyed; [done| |done].
    eapply keyed_recorded; [|apply map_Forall_empty|done].
    by eapply getDeviceFirmwareRoots_keyed. }
  intros path entry Hfile.
  assert (Hbound : AddDeviceSpecificFiles deviceRoot fm2 !! path = Some entry).
  { apply AddDeviceSpecificFiles_lookup; [|done]. by apply (Hall _ _ Hdev). }
  simpl. split_and!; [done|apply elem_of_range_values; by eauto|].
  intros fe [k Hk]%elem_of_range_values Hpath.
  rewrite <- (Hkeyed _ _ Hk), Hpath in Hk. by simplify_eq.
Qed.

End Overlay.

(** ** The layout of an image *)

Lemma append_assoc (s1 s2 s3 : string) : (s1 +:+ s2) +:+ s3 = s1 +:+ s2 +:+ s3.
Proof.
  induction s1 as [|c s1 IH]; [done|].
  change (String c ((s1 +:+ s2) +:+ s3) = String c (s1 +:+ s2 +:+ s3)).
  by rewrite IH.
Qed.

Lemma append_nil_r (s : string) : s +:+ EmptyString = s.
Proof.
  induction s as [|c s IH]; [done|].
  change (String c (s +:+ EmptyString) = String c s). by rewrite IH.
Qed.

Lemma length_append (s1 s2 : string) :
  String.length (s1 +:+ s2) = String.length s1 + String.length s2.
Proof.
  induction s1 as [|c s1 IH]; [done|].
  change (S (String.length (s1 +:+ s2)) = S (String.length s1 + String.length s2)).
  by rewrite IH.
Qed.

Section ImageLayout.
Context {ext : Extern} {srt : SliceSort}.

Lemma sort_Slice_byPath (files : list FileEntry2) :
  Sorted byPath (sort_Slice Path files).
Proof.
  eapply Sorted_weaken; [|apply sort_Slice_sorted].
  intros a b Hab. by apply less_false_le.
Qed.

Lemma no_datafiles (files : list FileEntry2) :
  Forall (λ fe, Datafiles fe = []) files → mjoin (Datafiles <$> files) = [].
Proof.
  induction 1 as [|fe files Hfe _ IH]; [done|].
  change (Datafiles fe ++ mjoin (Datafiles <$> files) = []). by rewrite Hfe, IH.
Qed.

Lemma imageRecords_cons path content files :
  imageRecords ((path, content) :: files)
  = imageRecord path content +:+ imageRecords files.
Proof. done. Qed.

Lemma packFiles_layout fs files imgBuf tokens imgBuf' datafiles :
  packFiles fs files imgBuf (Slice tokens) = Ok (imgBuf', datafiles) →
  ∃ contents,
    Forall2 (sourceOf fs) files contents
    ∧ imgBuf' = imgBuf +:+ imageRecords (zip (Path <$> files) contents)
    ∧ datafiles = Slice (tokens ++ mjoin (Datafiles <$> files)).
Proof.
  revert imgBuf tokens.
  induction files as [|fe files IH]; intros imgBuf tokens; simpl.
  - intros [= <- <-]. exists []. by rewrite append_nil_r, app_nil_r.
  - destruct (fs !! filepath_Join (Base fe) (Path fe)) as [content|] eqn:Hsrc;
      [|done].
    destruct (Stat_error fs _); [done|]. destruct (read_error fs _); [done|].
    intros (contents & Hall & -> & ->)%IH. exists (content :: contents).
    split_and!; [by constructor| |by rewrite <- app_assoc].
    rewrite imageRecords_cons.
    unfold writeFileToImage, imageRecord. by rewrite !append_assoc.
Qed.

Lemma packFiles_readable fs files imgBuf datafiles :
  Forall (readable fs) files →
  is_Ok (packFiles fs files imgBuf datafiles) = true.
Proof.
  intros Hall. revert imgBuf datafiles.
  induction Hall as [|fe files ([content Hsrc] & Hstat & Hread) _ IH];
    intros imgBuf datafiles; simpl; [done|].
  rewrite Hsrc, Hstat, Hread. apply IH.
Qed.

Lemma packFiles_Ok_readable fs files imgBuf datafiles r :
  packFiles fs files imgBuf datafiles = Ok r → Forall (readable fs) files.
Proof.
  revert imgBuf datafiles.
  induction files as [|fe files IH]; intros imgBuf datafiles; simpl; [done|].
  destruct (fs !! filepath_Join (Base fe) (Path fe)) as [content|] eqn:Hsrc;
    [|done].
  destruct (Stat_error fs _) eqn:Hstat; [done|].
  destruct (read_error fs _) eqn:Hread; [done|].
  intros Hrest%IH. constructor; [|done]. unfold readable. by rewrite Hsrc.
Qed.

(** The bytes that go to the image file once the records are in the
    buffer: the layout of the image. *)
Lemma image_bytes fs manifest imgBuf datafiles :
  packFiles fs (sort_Slice Path (ManFiles manifest)) (imageHeader manifest) (Slice [])
    = Ok (imgBuf, datafiles) →
  ∃ contents,
    Forall2 (sourceOf fs) (sort_Slice Path (ManFiles manifest)) contents
    ∧ "Checksum: "
        +:+ sha1_hex (writeFileToImage imgBuf "datafiles.json"
                        (String.length (json_Marshal datafiles))
                        (json_Marshal datafiles))
        +:+ nl
        +:+ writeFileToImage imgBuf "datafiles.json"
              (String.length (json_Marshal datafiles)) (json_Marshal datafiles)
      = imageLayout (ManInfo manifest)
          (zip (Path <$> sort_Slice Path (ManFiles manifest)) contents)
          (mjoin (Datafiles <$> sort_Slice Path (ManFiles manifest))).
Proof.
  intros (contents & Hsrc & -> & ->)%packFiles_layout.
  exists contents. split; [done|].
  assert (Hlen : length (zip (Path <$> sort_Slice Path (ManFiles manifest)) contents)
                 = length (ManFiles manifest)).
  { rewrite length_zip_with, length_fmap, <- (Forall2_length _ _ _ Hsrc).
    rewrite (Permutation_length (sort_Slice_perm _ Path (ManFiles manifest))). lia. }
  unfold imageLayout, imagePayload, writeFileToImage, imageRecord, imageHeader.
  rewrite Hlen. simpl. by rewrite !append_assoc.
Qed.

(** The file system that a successful packing leaves: the image holds the
    records of the sorted entries and the tokens of their scripts. *)
Lemma writeFirmwareImage_packed fs manifest fs' manifest' :
  writeFirmwareImage fs manifest = (fs', manifest', None) →
  ∃ contents,
    Forall2 (sourceOf (<[imagePath manifest := EmptyString]> fs))
            (sort_Slice Path (ManFiles manifest)) contents
    ∧ fs' = <[imagePath manifest :=
                imageLayout (ManInfo manifest)
                  (zip (Path <$> sort_Slice Path (ManFiles manifest)) contents)
                  (mjoin (Datafiles <$> sort_Slice Path (ManFiles manifest)))]> fs.
Proof.
  unfold writeFirmwareImage.
  destruct (os_Create_error fs (imagePath manifest)); [done|]. simpl.
  destruct (packFiles _ _ _ _) as [[imgBuf datafiles]|e] eqn:Hpack; [|done].
  destruct (write_error _ _ _) as [[e written]|]; [done|].
  intros [= <- _].
  apply image_bytes in Hpack as (contents & Hsrc & ->).
  exists contents. split; [done|]. by rewrite insert_insert_eq.
Qed.

(** C6. The image of a successfully packed device is the checksum line,
    holding the digest of all that follows, then the header (version tag,
    device id, device name, record count = file count + 1), then one record
    per manifest file (path line, byte-length line, raw content) in
    lexicographic path order, then the record [datafiles.json] holding the
    JSON array of the datafile tokens of these files, which is the literal
    [[]], not [null], when there is none. *)
Theorem image_layout fs manifest fs' manifest' :
  writeFirmwareImage fs manifest = (fs', manifest', None) →
  ∃ files contents,
    files ≡ₚ ManFiles manifest
    ∧ Sorted byPath files
    ∧ Forall2 (sourceOf (<[imagePath manifest := EmptyString]> fs)) files contents
    ∧ length (zip (Path <$> files) contents) = length (ManFiles manifest)
    ∧ fs' = <[imagePath manifest :=
                imageLayout (ManInfo manifest) (zip (Path <$> files) contents)
                            (mjoin (Datafiles <$> files))]> fs
    ∧ json_Marshal (Slice (mjoin (Datafiles <$> files)))
        = "[" +:+ String.concat "," (json_string <$> mjoin (Datafiles <$> files)) +:+ "]"
    ∧ json_Marshal (Slice (mjoin (Datafiles <$> files))) ≠ "null"
    ∧ (Forall (λ fe, Datafiles fe = []) (ManFiles manifest) →
       imagePayload (ManInfo manifest) (zip (Path <$> files) contents)
                    (mjoin (Datafiles <$> files))
       = imagePayload (ManInfo manifest) (zip (Path <$> files) contents) []
       ∧ json_Marshal (Slice (mjoin (Datafiles <$> files))) = "[]").
Proof.
  intros (contents & Hsrc & ->)%writeFirmwareImage_packed.
  exists (sort_Slice Path (ManFiles manifest)), contents.
  assert (Hnone : Forall (λ fe, Datafiles fe = []) (ManFiles manifest) →
                  mjoin (Datafiles <$> sort_Slice Path (ManFiles manifest)) = []).
  { intros Hempty. apply no_datafiles. by rewrite sort_Slice_perm. }
  split_and!; [apply sort_Slice_perm|apply sort_Slice_byPath|done| |done|done|done|].
  - rewrite length_zip_with, length_fmap, <- (Forall2_length _ _ _ Hsrc).
    rewrite (Permutation_length (sort_Slice_perm _ Path (ManFiles manifest))). lia.
  - intros Hempty. by rewrite (Hnone Hempty).
Qed.

(** Packing succeeds when the image file can be created, every source can
    be read and the bytes of the image can be written. *)
Lemma writeFirmwareImage_succeeds fs manifest :
  os_Create_error fs (imagePath manifest) = None →
  Forall (readable (<[imagePath manifest := EmptyString]> fs)) (ManFiles manifest) →
  (∀ bytes, write_error (<[imagePath manifest := EmptyString]> fs)
                        (imagePath manifest) bytes = None) →
  (writeFirmwareImage fs manifest).2 = None.
Proof.
  intros Hcreate Hall Hwrite. unfold writeFirmwareImage. rewrite Hcreate. simpl.
  pose proof (packFiles_readable (<[imagePath manifest := EmptyString]> fs)
                (sort_Slice Path (ManFiles manifest)) (imageHeader manifest)
                (Slice [])) as Hok.
  destruct (packFiles _ _ _ _) as [[imgBuf datafiles]|e].
  - by rewrite Hwrite.
  - rewrite <- (sort_Slice_perm _ Path (ManFiles manifest)) in Hall.
    by specialize (Hok Hall).
Qed.

(** With one entry per path, the sorted list of records is the same for any
    sort and any order of the manifest's list: the order of the files does
    not reach the image. *)
Lemma sorted_by_path_unique (sorted1 sorted2 : list FileEntry2) :
  NoDup (Path <$> sorted1) →
  Sorted byPath sorted1 → Sorted byPath sorted2 → sorted1 ≡ₚ sorted2 →
  sorted1 = sorted2.
Proof.
  intros Hnodup Hs1 Hs2 Hperm.
  assert (Htrans : Transitive byPath).
  { intros a b c. unfold byPath. apply transitivity. }
  apply (Sorted_unique_strong byPath); [|done..].
  intros a b Ha Hb Hab Hba. rewrite <- Hperm in Hb.
  assert (Hpath : Path a = Path b) by (by apply (anti_symm String.le)).
  apply list_elem_of_lookup in Ha as [i Hi], Hb as [j Hj].
  assert (i = j) as ->; [|congruence].
  apply (NoDup_lookup _ _ _ (Path a) Hnodup); rewrite list_lookup_fmap.
  - by rewrite Hi.
  - by rewrite Hj, Hpath.
Qed.

End ImageLayout.

Lemma writeFirmwareImage_order_independent {ext : Extern} (S1 S2 : SliceSort)
    fs (manifest1 manifest2 : FirmwareManifest2) :
  ManInfo manifest1 = ManInfo manifest2 →
  ManFiles manifest1 ≡ₚ ManFiles manifest2 →
  NoDup (Path <$> ManFiles manifest1) →
  (@writeFirmwareImage ext S1 fs manifest1).1.1
  = (@writeFirmwareImage ext S2 fs manifest2).1.1
  ∧ (@writeFirmwareImage ext S1 fs manifest1).2
    = (@writeFirmwareImage ext S2 fs manifest2).2.
Proof.
  intros Hinfo Hperm Hnodup.
  assert (Hsame : @sort_Slice S1 _ Path (ManFiles manifest1)
                  = @sort_Slice S2 _ Path (ManFiles manifest2)).
  { apply sorted_by_path_unique.
    - by rewrite (@sort_Slice_perm S1).
    - apply (@sort_Slice_byPath S1).
    - apply (@sort_Slice_byPath S2).
    - by rewrite (@sort_Slice_perm S1), (@sort_Slice_perm S2). }
  unfold writeFirmwareImage, imageHeader, imagePath.
  rewrite Hsame, Hinfo, (Permutation_length Hperm).
  destruct (os_Create_error fs _); [done|]. simpl.
  destruct (packFiles _ _ _ _) as [[imgBuf datafiles]|e]; [|done].
  by destruct (write_error _ _ _) as [[e written]|].
Qed.

(** ** What a device build leaves in the output directory *)

Section DeviceBuild.
Context {ext : Extern} {ord : MapOrder} {srt : SliceSort}.

Lemma buildDeviceFirmwareManifest_returns fs allRoots deviceName :
  is_Some (buildDeviceFirmwareManifest fs allRoots deviceName).
Proof.
  unfold buildDeviceFirmwareManifest, deviceFileMap.
  destruct (ReadJSON fs _) as [fwDef|e]; [|done].
  destruct (getDeviceFirmwareRoots allRoots (Libs fwDef)) as [roots|e]; [|done].
  destruct (addModules_returns roots (Modules fwDef) ∅) as (fm & err & -> & _).
  destruct err; [done|].
  destruct (AddOtherFiles allRoots (Libs fwDef) fm) as [fm2 [err2|]]; [done|].
  by destruct (allRoots !! _).
Qed.

Lemma packFiles_failure fs files imgBuf datafiles err :
  packFiles fs files imgBuf datafiles = Err err →
  ∃ fe, fe ∈ files ∧ sourceError fs fe err.
Proof.
  revert imgBuf datafiles.
  induction files as [|fe files IH]; intros imgBuf datafiles; simpl; [done|].
  destruct (fs !! filepath_Join (Base fe) (Path fe)) as [content|] eqn:Hsrc.
  - destruct (Stat_error fs _) as [e|] eqn:Hstat.
    { intros [= <-]. exists fe. split; [left|]. right. left. by rewrite Hsrc. }
    destruct (read_error fs _) as [e|] eqn:Hread.
    { intros [= <-]. exists fe. split; [left|]. right. right. by rewrite Hsrc. }
    intros (fe' & Hin & Hrest)%IH. exists fe'. split; [by right|done].
  - intros [= <-]. exists fe. split; [left|]. by left.
Qed.

(** A failed packing: the image file could not be created, and nothing has
    happened; or the source of an entry failed, and the image file that
    [os.Create] made is left empty; or the write of the image failed, and
    the file holds a first part of the image. *)
Lemma writeFirmwareImage_failure fs manifest fs' manifest' err :
  writeFirmwareImage fs manifest = (fs', manifest', Some err) →
  (os_Create_error fs (imagePath manifest) = Some err ∧ fs' = fs)
  ∨ (os_Create_error fs (imagePath manifest) = None
     ∧ fs' = <[imagePath manifest := EmptyString]> fs
     ∧ ∃ fe, fe ∈ ManFiles manifest
             ∧ sourceError (<[imagePath manifest := EmptyString]> fs) fe err)
  ∨ (os_Create_error fs (imagePath manifest) = None
     ∧ ∃ contents written rest,
         Forall2 (sourceOf (<[imagePath manifest := EmptyString]> fs))
                 (sort_Slice Path (ManFiles manifest)) contents
         ∧ write_error (<[imagePath manifest := EmptyString]> fs)
             (imagePath manifest)
             (imageLayout (ManInfo manifest)
                (zip (Path <$> sort_Slice Path (ManFiles manifest)) contents)
                (mjoin (Datafiles <$> sort_Slice Path (ManFiles manifest))))
           = Some (err, written)
         ∧ imageLayout (ManInfo manifest)
             (zip (Path <$> sort_Slice Path (ManFiles manifest)) contents)
             (mjoin (Datafiles <$> sort_Slice Path (ManFiles manifest)))
           = written +:+ rest
         ∧ fs' = <[imagePath manifest := written]> fs).
Proof.
  unfold writeFirmwareImage.
  destruct (os_Create_error fs (imagePath manifest)) as [e|] eqn:Hcreate.
  { intros [= <- _ <-]. by left. }
  simpl.
  destruct (packFiles _ _ _ _) as [[imgBuf datafiles]|e] eqn:Hpack.
  - destruct (write_error _ _ _) as [[e written]|] eqn:Hwrite; [|done].
    intros [= <- _ <-]. right. right. split; [done|].
    apply image_bytes in Hpack as (contents & Hsrc & Hbytes).
    rewrite Hbytes in Hwrite.
    destruct (write_error_partial _ _ _ _ _ Hwrite) as [rest Hrest].
    exists contents, written, rest.
    split_and!; [done|done|done|by rewrite insert_insert_eq].
  - intros [= <- _ <-]. right. left. split_and!; [done..|].
    apply packFiles_failure in Hpack as (fe & Hin & Herr).
    exists fe. split; [|done].
    by rewrite <- (sort_Slice_perm _ Path (ManFiles manifest)).
Qed.


(** C5, as the code has it. The manifest document of a device lists the
    entries of the final file set in the order in which [range] visits the
    file map, each path once; it is written before the image is packed. The
    packer then sorts the entries by path, so it is the records of the image
    that are in lexicographic path order. *)
Theorem manifest_document_order fs roots name fs' roots' :
  rootsKeyed roots →
  Build2_device fs roots name = Some (fs', roots', None) →
  ∃ manifest fwDef fileMap files contents,
    buildDeviceFirmwareManifest fs roots' name = Some (Ok manifest)
    ∧ deviceFileMap roots' name fwDef = Some (Ok fileMap)
    ∧ ManFiles manifest = (range fileMap).*2
    ∧ ManFiles manifest ≡ₚ (map_to_list fileMap).*2
    ∧ NoDup (Path <$> ManFiles manifest)
    ∧ files ≡ₚ ManFiles manifest
    ∧ Sorted byPath files
    ∧ fs' = <[imagePath manifest :=
                imageLayout (ManInfo manifest) (zip (Path <$> files) contents)
                            (mjoin (Datafiles <$> files))]>
              (<[manifestPath manifest := encodeManifest manifest]> fs).
Proof.
  intros Hkeyed. unfold Build2_device.
  assert (Hkeyed' : rootsKeyed (addDeviceRoot fs roots name)).
  { unfold addDeviceRoot.
    destruct (AddRoot fs _ roots) as [roots1|e] eqn:Hadd; [|done].
    by eapply AddRoot_rootsKeyed. }
  revert Hkeyed'. generalize (addDeviceRoot fs roots name) as roots1.
  intros roots1 Hkeyed1.
  destruct (buildDeviceFirmwareManifest fs roots1 name) as [[manifest|e]|] eqn:Hman;
    [|done..].
  simpl.
  destruct (writeFirmwareImage _ manifest) as [[fs1 manifest1] [e|]] eqn:Himg;
    [done|].
  intros [= <- <-].
  apply writeFirmwareImage_packed in Himg as (contents & _ & ->).
  pose proof (sort_Slice_perm _ Path (ManFiles manifest)) as Hperm.
  pose proof (sort_Slice_byPath (ManFiles manifest)) as Hsorted.
  revert Hperm Hsorted. generalize (sort_Slice Path (ManFiles manifest)) as files.
  intros files Hperm Hsorted.
  pose proof Hman as Hbuilt. unfold buildDeviceFirmwareManifest in Hman.
  destruct (ReadJSON fs _) as [fwDef|e]; [|done].
  destruct (deviceFileMap roots1 name fwDef) as [[fileMap|e]|] eqn:Hmap; [|done..].
  injection Hman as <-. simpl in *.
  exists {| ManInfo := DefInfo fwDef; ManFiles := (range fileMap).*2 |},
         fwDef, fileMap, files, contents.
  split_and!;
    [done|done|done|simpl; apply fmap_Permutation, range_perm| |done|done|done].
  simpl.
  assert (Hfm : keyed fileMap).
  { unfold deviceFileMap in Hmap.
    destruct (getDeviceFirmwareRoots roots1 (Libs fwDef)) as [search|e] eqn:Hsearch;
      [|done].
    destruct (addModules_returns search (Modules fwDef) ∅)
      as (fm1 & err1 & Hmods & Hrec1).
    rewrite Hmods in Hmap. destruct err1; [done|].
    destruct (AddOtherFiles roots1 (Libs fwDef) fm1) as [fm2 [err2|]] eqn:Hother;
      [done|].
    destruct (roots1 !! _) as [deviceRoot|]; [|done]. injection Hmap as <-.
    apply AddDeviceSpecificFiles_keyed.
    eapply AddOtherFiles_keyed; [done| |done].
    eapply keyed_recorded; [|apply map_Forall_empty|done].
    by eapply getDeviceFirmwareRoots_keyed. }
  assert (Hpaths : Path <$> (range fileMap).*2 = (range fileMap).*1).
  { rewrite <- list_fmap_compose. apply list_fmap_ext.
    intros i [k fe] Hi. simpl. apply (Hfm k fe).
    apply elem_of_range. eapply list_elem_of_lookup_2. done. }
  rewrite Hpaths. apply NoDup_range_keys.
Qed.

End DeviceBuild.

(** ** A module that no searched root holds *)

Lemma notFoundError_wrap context err :
  notFoundError err → notFoundError (context +:+ err).
Proof.
  intros [context' ->]. exists (context +:+ context'). by rewrite append_assoc.
Qed.

Lemma FindInRoots_Err_text fileName roots err :
  FindInRoots fileName roots = Err err → err = ErrFileEntryNotFound.
Proof.
  induction roots as [|root roots IH]; simpl; [by intros [= <-]|].
  by destruct (Files root !! fileName).
Qed.

Lemma AddFilesFromModule_fuel_error fuel quote moduleName roots fm fm' err :
  AddFilesFromModule_fuel fuel quote moduleName roots fm = Some (fm', Some err) →
  notFoundError err.
Proof.
  revert moduleName fm fm' err.
  induction fuel as [|fuel IH]; intros moduleName fm fm' err; simpl; [done|].
  destruct (fm !! Mod2File moduleName); [done|].
  destruct (FindInRoots (Mod2File moduleName) roots) as [entry|e] eqn:Hfind.
  - generalize (<[Mod2File moduleName:=entry]> fm) as fm0.
    induction (Dependencies entry) as [|dep deps IHdeps]; intros fm0; simpl; [done|].
    destruct (AddFilesFromModule_fuel fuel quote dep roots fm0)
      as [[fm1 [err1|]]|] eqn:Hcall; [| |done].
    + intros [= <- <-]. rewrite <- !append_assoc.
      apply notFoundError_wrap. by eapply IH.
    + apply IHdeps.
  - intros [= <- <-]. apply FindInRoots_Err_text in Hfind as ->.
    rewrite <- !append_assoc. by exists (("Error finding " +:+ Mod2File moduleName) +:+ ": ").
Qed.

Lemma resolvedFrom_recorded roots fm fm' :
  resolvedFrom roots fm → recorded roots fm fm' → resolvedFrom roots fm'.
Proof.
  intros Hfm [Hkeep Hnew] path entry Hbound.
  destruct (fm !! path) as [entry0|] eqn:Hold; [|by eauto].
  pose proof (Hkeep _ _ Hold). simplify_eq. eauto.
Qed.

Section MissingModule.
Context {ext : Extern}.

Lemma AddFilesFromModule_missing moduleName roots fm :
  resolvedFrom roots fm →
  Forall (λ r, Files r !! Mod2File moduleName = None) roots →
  AddFilesFromModule strconv_Quote moduleName roots fm
  = Some (fm, Some ("Error finding " +:+ Mod2File moduleName +:+ ": "
                      +:+ ErrFileEntryNotFound)).
Proof.
  intros Hfm Hmissing%FindInRoots_Err.
  unfold AddFilesFromModule. simpl.
  destruct (fm !! Mod2File moduleName) as [entry|] eqn:Hbound.
  - apply Hfm in Hbound. congruence.
  - by rewrite Hmissing.
Qed.

Lemma addModules_error roots mods fm fm' err :
  addModules roots mods fm = Some (fm', Some err) → notFoundError err.
Proof.
  revert fm. induction mods as [|modDef mods IH]; intros fm; simpl; [done|].
  destruct (AddFilesFromModule _ _ _ _) as [[fm1 [err1|]]|] eqn:Hcall; [| |done].
  - intros [= <- <-]. rewrite <- !append_assoc. apply notFoundError_wrap.
    by eapply AddFilesFromModule_fuel_error.
  - apply IH.
Qed.

(** Modules before the missing one resolve; then the missing one fails. *)
Lemma addModules_first_missing roots earlier modDef later fm :
  addModules roots earlier ∅ = Some (fm, None) →
  Forall (λ r, Files r !! Mod2File (ModName modDef) = None) roots →
  addModules roots (earlier ++ modDef :: later) ∅
  = Some (fm, Some (missingModuleError (ModName modDef))).
Proof.
  intros Hearlier Hmissing.
  assert (Hfrom : resolvedFrom roots (∅ : gmap string FileEntry2)) by done.
  revert Hearlier Hfrom. generalize (∅ : gmap string FileEntry2) as fm0.
  induction earlier as [|modDef0 earlier IH]; intros fm0; simpl.
  - intros [= <-] Hfrom. by rewrite AddFilesFromModule_missing.
  - destruct (AddFilesFromModule_returns (ModName modDef0) roots fm0)
      as (fm1 & err1 & -> & Hrec).
    destruct err1; [done|]. intros Hrest Hfrom.
    apply IH; [done|]. by eapply resolvedFrom_recorded.
Qed.

(** A missing module anywhere in the list makes the loop fail. *)
Lemma addModules_missing roots mods modDef fm :
  resolvedFrom roots fm →
  modDef ∈ mods →
  Forall (λ r, Files r !! Mod2File (ModName modDef) = None) roots →
  ∃ fm' err, addModules roots mods fm = Some (fm', Some err).
Proof.
  intros Hfrom Hin Hmissing. revert fm Hfrom.
  induction mods as [|modDef0 mods IH]; intros fm Hfrom; simpl.
  { by apply elem_of_nil in Hin. }
  destruct (AddFilesFromModule_returns (ModName modDef0) roots fm)
    as (fm1 & err1 & Hcall & Hrec).
  rewrite Hcall. destruct err1 as [err1|]; [by eauto|].
  apply elem_of_cons in Hin as [->|Hin].
  - rewrite AddFilesFromModule_missing in Hcall by done. done.
  - apply IH; [done|]. by eapply resolvedFrom_recorded.
Qed.

Context {ord : MapOrder} {srt : SliceSort}.

(** C7, as the code has it. When an entry module of a device has no file in
    any searched root, the device build fails with an error that wraps
    [ErrFileEntryNotFound], and writes neither manifest nor image. When the
    entry modules before it resolve, the error is [missingModuleError]: it
    names the module and its file; the device does not occur in it. *)
Theorem missing_entry_module_fails fs roots name fwDef search modDef :
  ReadJSON fs (filepath_Join (filepath_Join "site/devices" name) "firmware.json")
    = Ok fwDef →
  getDeviceFirmwareRoots (addDeviceRoot fs roots name) (Libs fwDef) = Ok search →
  modDef ∈ Modules fwDef →
  Forall (λ r, Files r !! Mod2File (ModName modDef) = None) search →
  ∃ err,
    Build2_device fs roots name = Some (fs, addDeviceRoot fs roots name, Some err)
    ∧ notFoundError err
    ∧ ∀ earlier later fm,
        Modules fwDef = earlier ++ modDef :: later →
        addModules search earlier ∅ = Some (fm, None) →
        err = missingModuleError (ModName modDef).
Proof.
  intros Hdef Hsearch Hin Hmissing.
  destruct (addModules_missing search (Modules fwDef) modDef ∅)
    as (fm' & err & Hmods); [done..|].
  exists err. split_and!.
  - unfold Build2_device, buildDeviceFirmwareManifest, deviceFileMap.
    by rewrite Hdef, Hsearch, Hmods.
  - by eapply addModules_error.
  - intros earlier later fm Heq Hearlier.
    rewrite Heq, (addModules_first_missing _ _ _ later fm) in Hmods by done.
    by simplify_eq.
Qed.

(** The error returns of [buildDeviceFirmwareManifest]: four of the five
    name the device; the one of the module loop names the module only. *)
Lemma buildDeviceFirmwareManifest_errors fs allRoots deviceName err :
  buildDeviceFirmwareManifest fs allRoots deviceName = Some (Err err) →
  (∃ e, err = "Cannot read firmware file for " +:+ deviceName +:+ ": " +:+ e)
  ∨ (∃ e, err = "Cannot build firmware roots for " +:+ deviceName +:+ ": " +:+ e)
  ∨ (∃ e, err = "Error adding other files in device " +:+ deviceName +:+ ": " +:+ e)
  ∨ err = "Cannot find device root for " +:+ deviceName
  ∨ (∃ moduleName e,
       err = "Cannot add files from module " +:+ moduleName +:+ ": " +:+ e).
Proof.
  assert (Hmods : ∀ roots mods fm fm' e,
    addModules roots mods fm = Some (fm', Some e) →
    ∃ moduleName e',
      e = "Cannot add files from module " +:+ moduleName +:+ ": " +:+ e').
  { intros roots mods. induction mods as [|modDef mods IH]; intros fm fm' e; simpl;
      [done|].
    destruct (AddFilesFromModule _ _ _ _) as [[fm1 [err1|]]|]; [| |done].
    - intros [= _ <-]. by exists (ModName modDef), err1.
    - apply IH. }
  unfold buildDeviceFirmwareManifest, deviceFileMap.
  destruct (ReadJSON fs _) as [fwDef|e].
  2:{ intros [= <-]. left. by exists e. }
  destruct (getDeviceFirmwareRoots allRoots (Libs fwDef)) as [roots|e].
  2:{ intros [= <-]. right. left. by exists e. }
  destruct (addModules roots (Modules fwDef) ∅) as [[fm [e|]]|] eqn:Hrun; [| |done].
  { intros [= <-]. do 4 right. by eapply Hmods. }
  destruct (AddOtherFiles allRoots (Libs fwDef) fm) as [fm2 [e|]].
  { intros [= <-]. right. right. left. by exists e. }
  destruct (allRoots !! _); [done|].
  intros [= <-]. right. right. right. by left.
Qed.

End MissingModule.

(** ** The device's own root is not searched *)

Section DeviceRootNotSearched.
Context {ext : Extern} {ord : MapOrder}.

Lemma selectLibRoots_insert allRoots libs acc key root :
  Forall (λ lib, IncludeLua lib = true →
                 filepath_Join "site/lib" (LibName lib) ≠ key) libs →
  selectLibRoots (<[key := root]> allRoots) libs acc
  = selectLibRoots allRoots libs acc.
Proof.
  intros Hlibs. revert acc.
  induction Hlibs as [|lib libs Hlib _ IH]; intros acc; simpl; [done|].
  destruct (IncludeLua lib); [|done].
  rewrite lookup_insert_ne by (symmetry; by apply Hlib).
  destruct (allRoots !! _); [|done]. apply IH.
Qed.

Lemma searched_roots_elsewhere allRoots libs search key fileName :
  key ≠ "firmware" →
  Forall (λ lib, IncludeLua lib = true →
                 filepath_Join "site/lib" (LibName lib) ≠ key) libs →
  (∀ key' root, allRoots !! key' = Some root → key' ≠ key →
                Files root !! fileName = None) →
  getDeviceFirmwareRoots allRoots libs = Ok search →
  Forall (λ r, Files r !! fileName = None) search.
Proof.
  intros Hcore Hlibs Helse (libRoots & -> & Hall)%getDeviceFirmwareRoots_shape.
  apply Forall_app. split.
  - revert libRoots Hall.
    induction Hlibs as [|lib libs Hlib _ IH]; intros libRoots.
    { intros ->%Forall2_nil_inv_l. done. }
    rewrite filter_cons.
    destruct (decide (IncludeLua lib = true)) as [Hflag|]; [|apply IH].
    intros (root & libRoots' & Hroot & Hrest & ->)%Forall2_cons_inv_l.
    constructor; [|by apply IH].
    apply (Helse _ _ Hroot). by apply Hlib.
  - constructor; [|done].
    destruct (allRoots !! "firmware") as [core|] eqn:Hcoreroot; simpl; [|done].
    by apply (Helse _ _ Hcoreroot).
Qed.

(** C10, as the code has it. The roots searched for a device's modules are
    taken from its libraries flagged for dependency search and from the core
    root. As long as none of these libraries names the device's own
    directory (the path of a library is [filepath.Join("site/lib", name)],
    which a name with [..] in it can lead out of [site/lib]) and the
    device's directory is not the core root, they stay the same whatever is
    stored as the device's own root. Then an entry module, at any place of
    the list, whose file only the device's own root holds makes the
    resolution fail with the file-not-found error, which names that module
    when the entry modules before it resolve, although the overlay of the
    device's files would bind that very file. *)
Theorem device_root_not_searched allRoots deviceName fwDef :
  filepath_Join "site/devices" deviceName ≠ "firmware" →
  Forall (λ lib, IncludeLua lib = true →
                 filepath_Join "site/lib" (LibName lib)
                 ≠ filepath_Join "site/devices" deviceName) (Libs fwDef) →
  (∀ anyRoot,
     getDeviceFirmwareRoots
       (<[filepath_Join "site/devices" deviceName := anyRoot]> allRoots) (Libs fwDef)
     = getDeviceFirmwareRoots allRoots (Libs fwDef))
  ∧ ∀ search deviceRoot modDef entry,
      getDeviceFirmwareRoots allRoots (Libs fwDef) = Ok search →
      allRoots !! filepath_Join "site/devices" deviceName = Some deviceRoot →
      keyed (Files deviceRoot) →
      modDef ∈ Modules fwDef →
      Files deviceRoot !! Mod2File (ModName modDef) = Some entry →
      (∀ key root, allRoots !! key = Some root →
                   key ≠ filepath_Join "site/devices" deviceName →
                   Files root !! Mod2File (ModName modDef) = None) →
      FindInRoots (Mod2File (ModName modDef)) search = Err ErrFileEntryNotFound
      ∧ (∃ err, deviceFileMap allRoots deviceName fwDef = Some (Err err)
                ∧ notFoundError err)
      ∧ (∀ earlier later fm,
           Modules fwDef = earlier ++ modDef :: later →
           addModules search earlier ∅ = Some (fm, None) →
           deviceFileMap allRoots deviceName fwDef
           = Some (Err (missingModuleError (ModName modDef))))
      ∧ ∀ fileMap,
          AddDeviceSpecificFiles deviceRoot fileMap !! Mod2File (ModName modDef)
          = Some entry.
Proof.
  intros Hcore Hlibs. split.
  - intros anyRoot. unfold getDeviceFirmwareRoots.
    rewrite selectLibRoots_insert by done.
    by rewrite lookup_insert_ne.
  - intros search deviceRoot modDef entry Hsearch Hdev Hkeyed Hin Hfile Helse.
    pose proof (searched_roots_elsewhere _ _ _ _ _ Hcore Hlibs Helse Hsearch)
      as Hmissing.
    split_and!.
    + by apply FindInRoots_Err.
    + destruct (addModules_missing search (Modules fwDef) modDef ∅)
        as (fm' & err & Hmods); [done..|].
      exists err. split; [|by eapply addModules_error].
      unfold deviceFileMap. by rewrite Hsearch, Hmods.
    + intros earlier later fm Hmods Hearlier.
      unfold deviceFileMap. rewrite Hsearch, Hmods.
      by rewrite (addModules_first_missing search earlier modDef later fm).
    + intros fileMap. by apply AddDeviceSpecificFiles_lookup.
Qed.

End DeviceRootNotSearched.

(** ** The cache key of the bytecode bundle *)

Global Instance byName_trans : Transitive byName.
Proof. intros a b c. unfold byName. apply transitivity. Qed.

Section CacheKey.
Context {ext : Extern}.

Lemma hasher_writes (entries : list FileEntry) (written : string) :
  foldl (λ written entry, written +:+ hex_DecodeString (hash entry)) written entries
  = written +:+ hashedBytes entries.
Proof.
  revert written. induction entries as [|entry entries IH]; intros written; simpl.
  - by rewrite append_nil_r.
  - by rewrite IH, append_assoc.
Qed.

Lemma sorted_by_name_unique (sorted1 sorted2 : list FileEntry) :
  (∀ e e', e ∈ sorted1 → e' ∈ sorted1 → fileName e = fileName e' → hash e = hash e') →
  Sorted byName sorted1 → Sorted byName sorted2 → sorted1 ≡ₚ sorted2 →
  sorted1 = sorted2.
Proof.
  intros Hfun Hs1 Hs2 Hperm.
  apply (Sorted_unique_strong byName); [|done..].
  intros [name1 hash1] [name2 hash2] Hin1 Hin2 Hle Hge.
  rewrite <- Hperm in Hin2.
  assert (name1 = name2) as -> by (by apply (anti_symm String.le)).
  f_equal. by apply (Hfun _ _ Hin1 Hin2).
Qed.

Lemma sort_Slice_byName {srt : SliceSort} (entries : list FileEntry) :
  Sorted byName (sort_Slice fileName entries).
Proof.
  eapply Sorted_weaken; [|apply sort_Slice_sorted].
  intros a b Hab. by apply less_false_le.
Qed.

(** C9. The cache key is the digest of the decoded content hashes of the
    bundled scripts, concatenated in the order of their sorted paths. Two
    builds that bundle the same scripts, each path with one hash, compute
    the same key, in whatever order they came across the scripts and
    however their sorts arrange equal elements. *)
Theorem cache_key_order_independent (S1 S2 : SliceSort)
    (entries1 entries2 : list FileEntry) :
  entries1 ≡ₚ entries2 →
  (∀ e e', e ∈ entries1 → e' ∈ entries1 →
           fileName e = fileName e' → hash e = hash e') →
  @contentHash _ S1 entries1 = @contentHash _ S2 entries2
  ∧ ∃ sorted,
      sorted ≡ₚ entries1 ∧ Sorted byName sorted
      ∧ @contentHash _ S1 entries1 = sha1_hex (hashedBytes sorted).
Proof.
  intros Hperm Hfun.
  assert (Hsame : @sort_Slice S1 _ fileName entries1 = @sort_Slice S2 _ fileName entries2).
  { apply sorted_by_name_unique; [|apply sort_Slice_byName..|].
    - intros e e'. rewrite !(@sort_Slice_perm S1). apply Hfun.
    - by rewrite (@sort_Slice_perm S1), (@sort_Slice_perm S2). }
  unfold contentHash. rewrite Hsame. split; [done|].
  exists (@sort_Slice S2 _ fileName entries2). split_and!.
  - by rewrite (@sort_Slice_perm S2).
  - apply sort_Slice_byName.
  - by rewrite hasher_writes.
Qed.

(** The scripts a build comes across are the same, up to order, in whatever
    order [range] visits the file tables of the libraries. *)
Lemma splitLibFiles_order (O1 O2 : MapOrder) lib acc1 acc2 :
  acc1.1 ≡ₚ acc2.1 →
  (@splitLibFiles _ O1 lib acc1).1 ≡ₚ (@splitLibFiles _ O2 lib acc2).1.
Proof.
  intros Hacc. unfold splitLibFiles.
  assert (Hscripts : ∀ (l : list (string * string)) acc,
    (foldl splitLibFile acc l).1
    ≡ₚ acc.1 ++ ((λ b, {| fileName := b.1; hash := b.2 |})
                   <$> filter (λ b, Ext b.1 = ".lua") l)).
  { induction l as [|[name h] l IH]; intros [entries files]; simpl.
    - by rewrite app_nil_r.
    - rewrite filter_cons. simpl.
      destruct (decide (Ext name = ".lua")); rewrite IH; simpl; [|done].
      by rewrite <- app_assoc. }
  rewrite !Hscripts, Hacc.
  apply Permutation_app; [done|]. apply fmap_Permutation.
  assert (Hrange : @range O1 _ (files lib) ≡ₚ @range O2 _ (files lib))
    by by rewrite !range_perm.
  by rewrite Hrange.
Qed.

Lemma collectLFS_order (O1 O2 : MapOrder) libs device LFS acc1 acc2 r1 r2 :
  acc1.1 ≡ₚ acc2.1 →
  @collectLFS _ O1 libs device LFS acc1 = Ok r1 →
  @collectLFS _ O2 libs device LFS acc2 = Ok r2 →
  r1.1 ≡ₚ r2.1.
Proof.
  revert acc1 acc2. induction LFS as [|libName LFS IH]; intros acc1 acc2 Hacc; simpl.
  - by intros [= <-] [= <-].
  - destruct (libs !! libName) as [lib|]; [|done].
    apply IH. by apply splitLibFiles_order.
Qed.

End CacheKey.

(** * Further properties *)

(** ** The resolved set is the closure of the entry modules *)

(** The paths a run binds are files of modules that the resolved module
    needs, whether the run succeeds or not. *)
Lemma AddFilesFromModule_fuel_sound fuel quote moduleName roots fm fm' err :
  AddFilesFromModule_fuel fuel quote moduleName roots fm = Some (fm', err) →
  ∀ path, fm !! path = None → is_Some (fm' !! path) →
          ∃ d, needs roots moduleName d ∧ path = Mod2File d.
Proof.
  revert moduleName fm fm' err.
  induction fuel as [|fuel IH]; intros moduleName fm fm' err; simpl; [done|].
  destruct (fm !! Mod2File moduleName) eqn:Hin.
  { intros [= <- _] path Hnone [e He]. congruence. }
  destruct (FindInRoots (Mod2File moduleName) roots) as [entry|e] eqn:Hfind.
  2:{ intros [= <- _] path Hnone [e' He]. congruence. }
  intros Hrun path Hnone Hbound.
  destruct (decide (path = Mod2File moduleName)) as [->|Hne].
  { exists moduleName. split; [constructor|done]. }
  assert (Hloop : ∀ deps fm0,
    (∀ dep, dep ∈ deps → dep ∈ Dependencies entry) →
    resolveDependencies
      (λ dep fm, AddFilesFromModule_fuel fuel quote dep roots fm)
      quote entry deps fm0 = Some (fm', err) →
    fm0 !! path = None →
    ∃ d, needs roots moduleName d ∧ path = Mod2File d).
  { clear Hrun. induction deps as [|dep deps IHdeps]; intros fm0 Hdeps; simpl.
    - intros [= <- _] Hnone0. destruct Hbound. congruence.
    - destruct (AddFilesFromModule_fuel fuel quote dep roots fm0)
        as [[fm1 [err1|]]|] eqn:Hcall; [| |done].
      + intros [= <- _] Hnone0.
        destruct (IH _ _ _ _ Hcall path Hnone0 Hbound) as (d & Hd & ->).
        exists d. split; [|done].
        eapply needs_dep; [done| |done]. apply Hdeps. left.
      + intros Hrest Hnone0.
        destruct (fm1 !! path) as [e1|] eqn:Hmid.
        * destruct (IH _ _ _ _ Hcall path Hnone0) as (d & Hd & ->); [by eauto|].
          exists d. split; [|done].
          eapply needs_dep; [done| |done]. apply Hdeps. left.
        * apply (IHdeps fm1); [|done|done].
          intros dep' Hdep'. apply Hdeps. by right. }
  apply (Hloop _ _ (λ _ Hdep, Hdep) Hrun). by rewrite lookup_insert_ne.
Qed.

(** After a successful run the module's file is bound, and every entry the
    run has added has the files of all its dependencies bound. *)
Lemma AddFilesFromModule_fuel_complete fuel quote moduleName roots fm fm' :
  AddFilesFromModule_fuel fuel quote moduleName roots fm = Some (fm', None) →
  is_Some (fm' !! Mod2File moduleName)
  ∧ ∀ path entry, fm !! path = None → fm' !! path = Some entry →
      ∀ dep, dep ∈ Dependencies entry → is_Some (fm' !! Mod2File dep).
Proof.
  revert moduleName fm fm'.
  induction fuel as [|fuel IH]; intros moduleName fm fm'; simpl; [done|].
  destruct (fm !! Mod2File moduleName) eqn:Hin.
  { intros [= <-]. split; [by eauto|]. intros path entry Hnone Hsome. congruence. }
  destruct (FindInRoots (Mod2File moduleName) roots) as [entry|e] eqn:Hfind; [|done].
  intros Hrun.
  assert (Hloop : ∀ deps fm0,
    resolveDependencies
      (λ dep fm, AddFilesFromModule_fuel fuel quote dep roots fm)
      quote entry deps fm0 = Some (fm', None) →
    recorded roots fm0 fm'
    ∧ (∀ dep, dep ∈ deps → is_Some (fm' !! Mod2File dep))
    ∧ ∀ path entry', fm0 !! path = None → fm' !! path = Some entry' →
        ∀ dep, dep ∈ Dependencies entry' → is_Some (fm' !! Mod2File dep)).
  { clear Hrun. induction deps as [|dep deps IHdeps]; intros fm0; simpl.
    - intros [= <-]. split_and!; [apply recorded_refl| |].
      + intros dep Hdep. by apply elem_of_nil in Hdep.
      + intros path entry' Hnone Hsome. congruence.
    - destruct (AddFilesFromModule_fuel fuel quote dep roots fm0)
        as [[fm1 [err1|]]|] eqn:Hcall; [done| |done].
      intros (Hrec & Hdeps & Hnew)%IHdeps.
      pose proof (AddFilesFromModule_fuel_recorded _ _ _ _ _ _ _ Hcall) as Hrec1.
      destruct (IH _ _ _ Hcall) as [[e1 Hdep1] Hnew1].
      split_and!; [by eapply recorded_trans| |].
      + intros dep' [->|Hdep']%elem_of_cons; [|by apply Hdeps].
        exists e1. by apply Hrec.
      + intros path entry' Hnone Hsome dep' Hdep'.
        destruct (fm1 !! path) as [e'|] eqn:Hmid; [|by eapply Hnew].
        pose proof (proj1 Hrec _ _ Hmid) as Hkeep. simplify_eq.
        destruct (Hnew1 _ _ Hnone Hmid dep' Hdep') as [e'' He''].
        exists e''. by apply Hrec. }
  destruct (Hloop _ _ Hrun) as (Hrec & Hdeps & Hnew).
  assert (Hself : fm' !! Mod2File moduleName = Some entry)
    by (apply Hrec, lookup_insert_eq).
  split; [by eauto|].
  intros path entry' Hnone Hsome.
  destruct (decide (path = Mod2File moduleName)) as [->|Hne].
  - simplify_eq. done.
  - apply (Hnew path); [|done]. by rewrite lookup_insert_ne.
Qed.

(** A failed run has met a needed module without a file. *)
Lemma AddFilesFromModule_fuel_failure fuel quote moduleName roots fm fm' err :
  AddFilesFromModule_fuel fuel quote moduleName roots fm = Some (fm', Some err) →
  ∃ d, needs roots moduleName d
       ∧ FindInRoots (Mod2File d) roots = Err ErrFileEntryNotFound.
Proof.
  revert moduleName fm fm' err.
  induction fuel as [|fuel IH]; intros moduleName fm fm' err; simpl; [done|].
  destruct (fm !! Mod2File moduleName); [done|].
  destruct (FindInRoots (Mod2File moduleName) roots) as [entry|e] eqn:Hfind.
  - assert (Hloop : ∀ deps fm0,
      (∀ dep, dep ∈ deps → dep ∈ Dependencies entry) →
      resolveDependencies
        (λ dep fm, AddFilesFromModule_fuel fuel quote dep roots fm)
        quote entry deps fm0 = Some (fm', Some err) →
      ∃ d, needs roots moduleName d
           ∧ FindInRoots (Mod2File d) roots = Err ErrFileEntryNotFound).
    { induction deps as [|dep deps IHdeps]; intros fm0 Hdeps; simpl; [done|].
      destruct (AddFilesFromModule_fuel fuel quote dep roots fm0)
        as [[fm1 [err1|]]|] eqn:Hcall; [| |done].
      + intros _. destruct (IH _ _ _ _ Hcall) as (d & Hd & Hmissing).
        exists d. split; [|done].
        eapply needs_dep; [done| |done]. apply Hdeps. left.
      + apply IHdeps. intros dep' Hdep'. apply Hdeps. by right. }
    apply Hloop. done.
  - intros _. exists moduleName. split; [constructor|].
    by rewrite Hfind, (FindInRoots_Err_text _ _ _ Hfind).
Qed.

Section Closure.
Context {ext : Extern}.

(** What the loop over the entry modules leaves, started from a map whose
    entries have the files of their dependencies bound. *)
Lemma addModules_closure roots mods fm fm' :
  resolvedFrom roots fm →
  (∀ path entry, fm !! path = Some entry →
     ∀ dep, dep ∈ Dependencies entry → is_Some (fm !! Mod2File dep)) →
  addModules roots mods fm = Some (fm', None) →
  recorded roots fm fm'
  ∧ (∀ modDef, modDef ∈ mods → is_Some (fm' !! Mod2File (ModName modDef)))
  ∧ (∀ path entry, fm' !! path = Some entry →
       ∀ dep, dep ∈ Dependencies entry → is_Some (fm' !! Mod2File dep))
  ∧ (∀ path, fm !! path = None → is_Some (fm' !! path) →
       ∃ d, needed roots mods d ∧ path = Mod2File d).
Proof.
  revert fm. induction mods as [|modDef mods IH]; intros fm Hfrom Hclosed; simpl.
  - intros [= <-]. split_and!; [apply recorded_refl| |done|].
    + intros modDef Hin. by apply elem_of_nil in Hin.
    + intros path Hnone [e He]. congruence.
  - destruct (AddFilesFromModule _ _ _ _) as [[fm1 [err1|]]|] eqn:Hcall; [done| |done].
    intros Hrest.
    pose proof (AddFilesFromModule_fuel_recorded _ _ _ _ _ _ _ Hcall) as Hrec1.
    destruct (AddFilesFromModule_fuel_complete _ _ _ _ _ _ Hcall) as [[e1 Hself] Hnew1].
    assert (Hclosed1 : ∀ path entry, fm1 !! path = Some entry →
              ∀ dep, dep ∈ Dependencies entry → is_Some (fm1 !! Mod2File dep)).
    { intros path entry Hsome dep Hdep.
      destruct (fm !! path) as [e|] eqn:Hold; [|by eapply Hnew1].
      pose proof (proj1 Hrec1 _ _ Hold). simplify_eq.
      destruct (Hclosed _ _ Hold dep Hdep) as [e' He']. exists e'. by apply Hrec1. }
    destruct (IH fm1) as (Hrec & Hmods & Hclosed' & Hsound);
      [by eapply resolvedFrom_recorded|done|done|].
    split_and!; [by eapply recorded_trans| |done|].
    + intros modDef' [->|Hin]%elem_of_cons; [|by apply Hmods].
      exists e1. by apply Hrec.
    + intros path Hnone Hbound.
      destruct (fm1 !! path) as [e|] eqn:Hmid.
      * destruct (AddFilesFromModule_fuel_sound _ _ _ _ _ _ _ Hcall path Hnone)
          as (d & Hd & ->); [by eauto|].
        exists d. split; [|done]. exists modDef. split; [left|done].
      * destruct (Hsound path Hmid Hbound) as (d & (modDef' & Hin & Hd) & ->).
        exists d. split; [|done]. exists modDef'. split; [by right|done].
Qed.

(** A map that binds the files of the entry modules, and with every entry
    the files of its dependencies, binds the file of every needed module. *)
Lemma needs_bound roots (fm : gmap string FileEntry2) m d :
  resolvedFrom roots fm →
  (∀ path entry, fm !! path = Some entry →
     ∀ dep, dep ∈ Dependencies entry → is_Some (fm !! Mod2File dep)) →
  needs roots m d →
  is_Some (fm !! Mod2File m) → is_Some (fm !! Mod2File d).
Proof.
  intros Hfrom Hclosed. induction 1 as [m|m entry dep d Hfind Hdep _ IH]; [done|].
  intros [e He]. apply IH.
  pose proof (Hfrom _ _ He) as Hfound.
  assert (e = entry) as -> by congruence. by eapply Hclosed.
Qed.

(** What a successful resolution from the empty map leaves. *)
Lemma addModules_success roots mods fm :
  addModules roots mods ∅ = Some (fm, None) →
  resolvedFrom roots fm
  ∧ (∀ d, needed roots mods d → is_Some (fm !! Mod2File d))
  ∧ (∀ path, is_Some (fm !! path) → ∃ d, needed roots mods d ∧ path = Mod2File d).
Proof.
  intros Hrun.
  destruct (addModules_closure roots mods ∅ fm) as (Hrec & Hmods & Hclosed & Hsound);
    [done|done|done|].
  assert (Hfrom : resolvedFrom roots fm).
  { intros path entry Hsome. by apply (proj2 Hrec path entry). }
  split_and!; [done| |intros path; by apply Hsound].
  intros d (modDef & Hin & Hneeds).
  eapply needs_bound; [done..|]. by apply Hmods.
Qed.

(** A failed resolution has met a needed module without a file. *)
Lemma addModules_failure roots mods fm0 fm err :
  addModules roots mods fm0 = Some (fm, Some err) →
  ∃ d, needed roots mods d
       ∧ FindInRoots (Mod2File d) roots = Err ErrFileEntryNotFound.
Proof.
  revert fm0. induction mods as [|modDef mods IH]; intros fm0; simpl; [done|].
  destruct (AddFilesFromModule _ _ _ _) as [[fm1 [err1|]]|] eqn:Hcall; [| |done].
  - intros _.
    destruct (AddFilesFromModule_fuel_failure _ _ _ _ _ _ _ Hcall)
      as (d & Hd & Hmissing).
    exists d. split; [|done]. exists modDef. split; [left|done].
  - intros (d & (modDef' & Hin & Hd) & Hmissing)%IH.
    exists d. split; [|done]. exists modDef'. split; [by right|done].
Qed.




(** X1. When the entry modules of a device resolve, the file map holds
    exactly the files of the modules they need, directly or through the
    declared dependencies of the entries found, each bound to the entry that
    the search of the roots yields for it. *)
Theorem resolved_set_is_closure roots mods fm :
  addModules roots mods ∅ = Some (fm, None) →
  (∀ path, is_Some (fm !! path) ↔ ∃ d, needed roots mods d ∧ path = Mod2File d)
  ∧ ∀ path entry, fm !! path = Some entry → FindInRoots path roots = Ok entry.
Proof.
  intros (Hfrom & Hbound & Hsound)%addModules_success.
  split; [|exact Hfrom]. intros path. split; [apply Hsound|].
  intros (d & Hneeded & ->). by apply Hbound.
Qed.

(** X2. Resolution of the entry modules fails exactly when one of them needs
    a module whose file no searched root holds; otherwise it succeeds. *)
Theorem resolution_fails_iff_missing roots mods :
  (∃ fm err, addModules roots mods ∅ = Some (fm, Some err))
  ↔ ∃ d, needed roots mods d
         ∧ FindInRoots (Mod2File d) roots = Err ErrFileEntryNotFound.
Proof.
  split.
  - intros (fm & err & Hrun). by eapply addModules_failure.
  - intros (d & Hneeded & Hmissing).
    destruct (addModules_returns roots mods ∅) as (fm & [err|] & Hrun & Hrec);
      [by eauto|].
    exfalso. apply addModules_success in Hrun as (Hfrom & Hbound & _).
    destruct (Hbound d Hneeded) as [e He].
    apply Hfrom in He. congruence.
Qed.

(** X3. The resolved file set does not depend on the order in which the
    entry modules are listed: when they resolve in one order, they resolve
    in any other, to the same file map. *)
Theorem resolution_order_independent roots mods mods' fm :
  mods ≡ₚ mods' →
  addModules roots mods ∅ = Some (fm, None) →
  addModules roots mods' ∅ = Some (fm, None).
Proof.
  intros Hperm (Hfrom & Hbound & Hsound)%addModules_success.
  assert (Hneeded : ∀ d, needed roots mods' d → needed roots mods d).
  { intros d (modDef & Hin & Hd). exists modDef. by rewrite Hperm. }
  assert (Hneeded' : ∀ d, needed roots mods d → needed roots mods' d).
  { intros d (modDef & Hin & Hd). exists modDef. by rewrite <- Hperm. }
  destruct (addModules_returns roots mods' ∅) as (fm' & [err|] & Hrun' & _).
  - exfalso. apply addModules_failure in Hrun' as (d & Hd & Hmissing).
    destruct (Hbound d (Hneeded d Hd)) as [e He].
    apply Hfrom in He. congruence.
  - rewrite Hrun'. do 2 f_equal. apply map_eq. intros path.
    apply addModules_success in Hrun' as (Hfrom' & Hbound' & Hsound').
    destruct (fm !! path) as [e|] eqn:He, (fm' !! path) as [e'|] eqn:He'; [| | |done].
    + apply Hfrom in He. apply Hfrom' in He'. congruence.
    + exfalso. destruct (Hsound path) as (d & Hd & ->); [by eauto|].
      destruct (Hbound' d (Hneeded' d Hd)) as [e' He'']. congruence.
    + exfalso. destruct (Hsound' path) as (d & Hd & ->); [by eauto|].
      destruct (Hbound d (Hneeded d Hd)) as [e He'']. congruence.
Qed.

End Closure.

(** ** Indexing *)

Lemma matchSet_lookup (matches : list string) name :
  is_Some (matchSet matches !! name) ↔ name ∈ matches.
Proof.
  unfold matchSet.
  assert (Hgen : ∀ (m : gmap string bool),
    is_Some (foldl (λ m name, <[name := true]> m) m matches !! name)
    ↔ is_Some (m !! name) ∨ name ∈ matches).
  { induction matches as [|match0 matches IH]; intros m; simpl.
    - split; [by left|]. intros [Hm|Hin]; [done|]. by apply elem_of_nil in Hin.
    - rewrite IH, elem_of_cons, lookup_insert_is_Some. split.
      + intros [[->|[_ Hm]]|Hin]; [right; by left|by left|right; by right].
      + intros [Hm|[->|Hin]]; [|left; by left|by right].
        destruct (decide (match0 = name)) as [->|Hne]; left; [by left|by right]. }
  rewrite Hgen, lookup_empty. split; [|by right].
  intros [[x Hx]|Hin]; [done|done].
Qed.

Section Indexing.
Context {ext : Extern} {ord : MapOrder}.

Lemma range_keys_of_matchSet (matches : list string) :
  NoDup (range (matchSet matches)).*1
  ∧ ∀ name, name ∈ (range (matchSet matches)).*1 ↔ name ∈ matches.
Proof.
  split; [apply NoDup_range_keys|]. intros name.
  rewrite <- (matchSet_lookup matches), list_elem_of_fmap. split.
  - intros ([k v] & -> & Hin%elem_of_range). by eauto.
  - intros [v Hv]. exists (name, v). split; [done|]. by apply elem_of_range.
Qed.

(** X4. The dependencies and the datafile tokens read from a script are the
    names matched in its text, each once, whatever the number of times a
    name is matched; reading fails only when the file cannot be read. *)
Theorem ReadDependenciesAndDatafiles_sets fs luaFile :
  match ReadDependenciesAndDatafiles fs luaFile with
  | Ok (deps, datafiles) =>
      ∃ code, fs !! luaFile = Some code
        ∧ NoDup deps ∧ (∀ dep, dep ∈ deps ↔ dep ∈ parseDepRegex2 code)
        ∧ NoDup datafiles ∧ (∀ df, df ∈ datafiles ↔ df ∈ parseDFRegex code)
  | Err err => fs !! luaFile = None ∧ err = ErrNotExist luaFile
  end.
Proof.
  unfold ReadDependenciesAndDatafiles, ReadFile.
  destruct (fs !! luaFile) as [code|]; simpl; [|done].
  exists code.
  destruct (range_keys_of_matchSet (parseDepRegex2 code)) as [Hnodup Hdeps].
  destruct (range_keys_of_matchSet (parseDFRegex code)) as [Hnodup' Hdfs].
  done.
Qed.

Lemma indexFile_fields fs path f entry :
  indexFile fs path f = Ok entry →
  Base entry = path ∧ Path entry = f
  ∧ (∃ content, fs !! filepath_Join path f = Some content
                ∧ Hash entry = hashBytes content)
  ∧ (Ext f ≠ ".lua" → Dependencies entry = [] ∧ Datafiles entry = []).
Proof.
  unfold indexFile, HashFile, ReadFile.
  destruct (fs !! filepath_Join path f) as [content|] eqn:Hsrc; simpl; [|done].
  destruct (decide (Ext f = ".lua")) as [Hlua|Hother].
  - unfold ReadDependenciesAndDatafiles, ReadFile. rewrite Hsrc. simpl.
    intros [= <-]. simpl. split_and!; [done|done|by exists content|done].
  - intros [= <-]. simpl. split_and!; [done|done|by exists content|done].
Qed.

Lemma indexFiles_entries fs path list entries entries' :
  indexFiles fs path list entries = Ok entries' →
  (∀ f, is_Some (entries' !! f) ↔ is_Some (entries !! f) ∨ f ∈ list)
  ∧ ∀ f entry, entries' !! f = Some entry →
      entries !! f = Some entry ∨ (f ∈ list ∧ indexFile fs path f = Ok entry).
Proof.
  revert entries. induction list as [|f0 list IH]; intros entries; simpl.
  - intros [= <-]. split; [|by eauto]. intros f. split; [by left|].
    intros [Hm|Hin]; [done|]. by apply elem_of_nil in Hin.
  - destruct (indexFile fs path f0) as [entry0|e] eqn:Hindex; [|done]. simpl.
    pose proof (indexFile_fields _ _ _ _ Hindex) as (_ & Hpath & _).
    rewrite Hpath. intros (Hdom & Hval)%IH. split.
    + intros f. rewrite Hdom, lookup_insert_is_Some, elem_of_cons. split.
      * intros [[->|[_ Hm]]|Hin]; [right; by left|by left|right; by right].
      * intros [Hm|[->|Hin]]; [|left; by left|by right].
        destruct (decide (f0 = f)) as [->|Hne]; left; [by left|by right].
    + intros f entry [Hold|[Hin Hok]]%Hval; [|right; split; [by right|done]].
      rewrite lookup_insert in Hold. case_decide as Heq.
      * simplify_eq. right. split; [left|done].
      * by left.
Qed.

(** X5. A root that [AddRoot] has indexed holds one entry for each name
    that the directory listing gave, and no other; the entry of a name
    records the root's path as its base, the name as its path and the hash
    of the file's bytes, and it has no dependencies and no datafile tokens
    unless the name ends in [.lua]. The other roots are left as they were. *)
Theorem AddRoot_index fs path roots roots' :
  AddRoot fs path roots = Ok roots' →
  ∃ list entries,
    EnumerateDir fs path = Ok list
    ∧ roots' = <[path := {| BasePath := path; Files := entries |}]> roots
    ∧ (∀ f, is_Some (entries !! f) ↔ f ∈ list)
    ∧ ∀ f entry, entries !! f = Some entry →
        Base entry = path ∧ Path entry = f
        ∧ (∃ content, fs !! filepath_Join path f = Some content
                      ∧ Hash entry = hashBytes content)
        ∧ (Ext f ≠ ".lua" → Dependencies entry = [] ∧ Datafiles entry = []).
Proof.
  unfold AddRoot.
  destruct (EnumerateDir fs path) as [list|e]; [|done]. simpl.
  destruct (indexFiles fs path list ∅) as [entries|e] eqn:Hindex; [|done]. simpl.
  intros [= <-]. exists list, entries.
  apply indexFiles_entries in Hindex as [Hdom Hval].
  split_and!; [done|done| |].
  - intros f. rewrite Hdom, lookup_empty. split; [|by right].
    intros [[x Hx]|Hin]; done.
  - intros f entry [Hold|[_ Hok]]%Hval; [by rewrite lookup_empty in Hold|].
    by apply indexFile_fields.
Qed.

Lemma addSiteLibs_keyed fs siteLibs roots roots' :
  rootsKeyed roots → addSiteLibs fs siteLibs roots = Ok roots' → rootsKeyed roots'.
Proof.
  revert roots. induction siteLibs as [|name siteLibs IH]; intros roots Hkeyed; simpl.
  - by intros [= <-].
  - destruct (AddRoot fs _ roots) as [roots1|e] eqn:Hadd; [|done]. simpl.
    apply IH. by eapply AddRoot_rootsKeyed.
Qed.

Lemma addDeviceRoot_keyed fs roots name :
  rootsKeyed roots → rootsKeyed (addDeviceRoot fs roots name).
Proof.
  intros Hkeyed. unfold addDeviceRoot.
  destruct (AddRoot fs _ roots) as [roots1|e] eqn:Hadd; [|done].
  by eapply AddRoot_rootsKeyed.
Qed.

(** X6. In every root that the driver hands to a device build, each entry
    is stored under its own path: this holds of the roots indexed at the
    start, and it is kept when the roots of the devices are added, one after
    the other, whatever the file system holds when each is indexed. *)
Theorem driver_roots_keyed fs roots (devices : list (FS * string)) :
  indexRoots fs = Ok roots →
  rootsKeyed roots
  ∧ rootsKeyed (foldl (λ roots '(fs', name), addDeviceRoot fs' roots name)
                      roots devices).
Proof.
  unfold indexRoots.
  destruct (AddRoot fs "firmware" ∅) as [roots0|e] eqn:Hcore; [|done]. simpl.
  destruct (ReadDir_dirs fs "site/lib") as [siteLibs|e]; [|done]. simpl.
  intros Hlibs.
  assert (Hkeyed : rootsKeyed roots).
  { eapply addSiteLibs_keyed; [|done].
    eapply AddRoot_rootsKeyed; [|done]. apply map_Forall_empty. }
  split; [done|].
  apply (foldl_invariant rootsKeyed); [done|].
  intros roots1 [fs' name] _ Hroots1. by apply addDeviceRoot_keyed.
Qed.

End Indexing.

(** ** Module names and file names *)

Lemma Ext_lua_suffix (stem : string) : Ext (stem +:+ ".lua") = ".lua".
Proof.
  induction stem as [|c stem IH]; [done|].
  change (Ext (String c (stem +:+ ".lua")) = ".lua").
  cbn [Ext].
  assert (Hdot : hasDotOrSeparator (stem +:+ ".lua") = true).
  { clear IH. induction stem as [|c' stem IH]; [done|].
    change (hasDotOrSeparator (String c' (stem +:+ ".lua")) = true).
    cbn [hasDotOrSeparator]. rewrite IH. by rewrite orb_true_r. }
  by rewrite Hdot.
Qed.

Lemma ReplaceAll_dot (s : string) :
  String.length (ReplaceAll s "." "/") = String.length s
  ∧ "."%char ∉ String.list_ascii_of_string (ReplaceAll s "." "/").
Proof.
  induction s as [|c s [IHlen IHdot]]; simpl.
  - split; [done|]. apply not_elem_of_nil.
  - split; [by rewrite IHlen|].
    intros [Heq|Hin]%elem_of_cons; [|done].
    destruct (decide (c = "."%char)) as [->|Hne]; [done|]. congruence.
Qed.

(** X7. The file of a module is always a script: its extension is [.lua],
    so [AddRoot] reads its dependencies. Its stem has the length of the
    module name and holds no dot: a file with a dot in the name of its
    directory or in its base name is the file of no module. *)
Theorem Mod2File_script (moduleName : string) :
  Ext (Mod2File moduleName) = ".lua"
  ∧ ∃ stem, Mod2File moduleName = stem +:+ ".lua"
            ∧ String.length stem = String.length moduleName
            ∧ "."%char ∉ String.list_ascii_of_string stem.
Proof.
  unfold Mod2File. split; [apply Ext_lua_suffix|].
  exists (ReplaceAll moduleName "." "/").
  destruct (ReplaceAll_dot moduleName) as [Hlen Hdot]. done.
Qed.

(** ** The roots searched *)

Section SearchRoots.
Context {ext : Extern}.

Lemma selectLibRoots_result allRoots libs acc :
  match selectLibRoots allRoots libs acc with
  | Ok roots =>
      Forall (λ lib, IncludeLua lib = true →
                     is_Some (allRoots !! filepath_Join "site/lib" (LibName lib))) libs
  | Err err =>
      ∃ earlier lib later,
        libs = earlier ++ lib :: later
        ∧ Forall (λ lib, IncludeLua lib = true →
                   is_Some (allRoots !! filepath_Join "site/lib" (LibName lib))) earlier
        ∧ IncludeLua lib = true
        ∧ allRoots !! filepath_Join "site/lib" (LibName lib) = None
        ∧ err = "Cannot find library with name '" +:+ LibName lib +:+ "'"
  end.
Proof.
  revert acc. induction libs as [|lib libs IH]; intros acc; simpl; [done|].
  destruct (IncludeLua lib) eqn:Hflag.
  - destruct (allRoots !! filepath_Join "site/lib" (LibName lib)) as [root|] eqn:Hroot.
    + specialize (IH (acc ++ [root])).
      destruct (selectLibRoots allRoots libs (acc ++ [root])) as [roots|err].
      * constructor; [by eauto|done].
      * destruct IH as (earlier & lib' & later & -> & Hearlier & Hrest).
        exists (lib :: earlier), lib', later. split; [done|].
        split; [|done]. constructor; [by eauto|done].
    + exists [], lib, libs. by split_and!.
  - specialize (IH acc).
    destruct (selectLibRoots allRoots libs acc) as [roots|err].
    + constructor; [by rewrite Hflag|done].
    + destruct IH as (earlier & lib' & later & -> & Hearlier & Hrest).
      exists (lib :: earlier), lib', later. split; [done|].
      split; [|done]. constructor; [by rewrite Hflag|done].
Qed.

(** X8. Selecting the roots of a device fails exactly when a library that
    is flagged for dependency search has not been indexed, and the error
    names the first such library. A core root that has not been indexed is
    no failure: the list then ends with an empty root. On success the list
    has one root per flagged library and the core root last. *)
Theorem getDeviceFirmwareRoots_result allRoots libs :
  match getDeviceFirmwareRoots allRoots libs with
  | Ok roots =>
      Forall (λ lib, IncludeLua lib = true →
                     is_Some (allRoots !! filepath_Join "site/lib" (LibName lib))) libs
      ∧ length roots = S (length (filter (λ lib, IncludeLua lib = true) libs))
      ∧ last roots = Some (default zeroRoot (allRoots !! "firmware"))
  | Err err =>
      ∃ earlier lib later,
        libs = earlier ++ lib :: later
        ∧ Forall (λ lib, IncludeLua lib = true →
                   is_Some (allRoots !! filepath_Join "site/lib" (LibName lib))) earlier
        ∧ IncludeLua lib = true
        ∧ allRoots !! filepath_Join "site/lib" (LibName lib) = None
        ∧ err = "Cannot find library with name '" +:+ LibName lib +:+ "'"
  end.
Proof.
  pose proof (selectLibRoots_result allRoots libs []) as Hsel.
  destruct (getDeviceFirmwareRoots allRoots libs) as [roots|err] eqn:Hroots.
  - pose proof (getDeviceFirmwareRoots_shape _ _ _ Hroots) as (libRoots & -> & Hall).
    unfold getDeviceFirmwareRoots in Hroots.
    destruct (selectLibRoots allRoots libs []) as [roots0|e]; [|done].
    split_and!; [done| |by rewrite last_snoc].
    rewrite length_app, <- (Forall2_length _ _ _ Hall). simpl. lia.
  - unfold getDeviceFirmwareRoots in Hroots.
    destruct (selectLibRoots allRoots libs []) as [roots0|e]; [done|].
    simpl in Hroots. by simplify_eq.
Qed.

End SearchRoots.

(** ** Library assets *)

Section Assets.
Context {ext : Extern} {ord : MapOrder}.

Lemma addMatching_lookup g libRoot fileMap path :
  addMatching g libRoot fileMap !! path
  = match Files libRoot !! path with
    | Some entry => if g path then Some entry else fileMap !! path
    | None => fileMap !! path
    end.
Proof.
  unfold addMatching.
  assert (Hgen : ∀ (l : list (string * FileEntry2)) (fm : gmap string FileEntry2),
    NoDup l.*1 →
    foldl (λ fm '(path, entry), if g path then <[path := entry]> fm else fm) fm l
      !! path
    = match list_find (λ b, b.1 = path) l with
      | Some (_, (_, entry)) => if g path then Some entry else fm !! path
      | None => fm !! path
      end).
  { induction l as [|[k e] l IH]; intros fm Hnodup; simpl; [done|].
    apply NoDup_cons in Hnodup as [Hk Hnodup]. rewrite IH by done.
    destruct (decide (k = path)) as [->|Hne]; simpl.
    - assert (Hnot : list_find (λ b, b.1 = path) l = None).
      { apply list_find_None, Forall_forall. intros [k' e'] Hin Heq. simpl in Heq.
        subst. apply Hk, list_elem_of_fmap. by exists (path, e'). }
      rewrite Hnot. destruct (g path); [by rewrite lookup_insert_eq|done].
    - destruct (list_find (λ b, b.1 = path) l) as [[i [k' e']]|] eqn:Hfind; simpl.
      + destruct (g path); [done|].
        destruct (g k); [by rewrite lookup_insert_ne|done].
      + destruct (g k); [by rewrite lookup_insert_ne|done]. }
  rewrite Hgen by apply NoDup_range_keys.
  destruct (Files libRoot !! path) as [entry|] eqn:Hfile.
  - apply elem_of_range, list_elem_of_lookup in Hfile as [i Hi].
    destruct (list_find (λ b, b.1 = path) (range (Files libRoot)))
      as [[j [k e]]|] eqn:Hfind.
    + apply list_find_Some in Hfind as (Hj & Hk & _). simpl in Hk. subst k.
      assert (i = j) as ->; [|by simplify_eq].
      apply (NoDup_lookup _ _ _ path (NoDup_range_keys (Files libRoot)));
        rewrite list_lookup_fmap; [by rewrite Hi|by rewrite Hj].
    + exfalso. apply list_find_None in Hfind.
      rewrite Forall_forall in Hfind.
      apply (Hfind (path, entry)); [|done]. by eapply list_elem_of_lookup_2.
  - destruct (list_find (λ b, b.1 = path) (range (Files libRoot)))
      as [[j [k e]]|] eqn:Hfind; [|done].
    apply list_find_Some in Hfind as (Hj & Hk & _). simpl in Hk. subst k.
    apply list_elem_of_lookup_2, elem_of_range in Hj. congruence.
Qed.

Lemma addPatterns_lookup allRoots lib patterns fileMap fileMap' err path :
  addPatterns allRoots lib patterns fileMap = (fileMap', err) →
  fileMap' !! path = fileMap !! path
  ∨ ∃ pattern g libRoot entry,
      pattern ∈ patterns ∧ glob_Compile pattern = Ok g
      ∧ libRootOf allRoots lib libRoot
      ∧ Files libRoot !! path = Some entry ∧ g path = true
      ∧ fileMap' !! path = Some entry.
Proof.
  revert fileMap. induction patterns as [|pattern patterns IH]; intros fileMap; simpl.
  { intros [= <- _]. by left. }
  destruct (glob_Compile pattern) as [g|e] eqn:Hglob; [|intros [= <- _]; by left].
  destruct (allRoots !! filepath_Join "site/lib" (LibName lib)) as [libRoot|] eqn:Hroot;
    [|intros [= <- _]; by left].
  intros [Hsame|(pattern' & g' & libRoot' & entry & Hin & Hrest)]%IH.
  - rewrite Hsame, addMatching_lookup.
    destruct (Files libRoot !! path) as [entry|] eqn:Hfile; [|by left].
    destruct (g path) eqn:Hmatch; [|by left].
    right. exists pattern, g, libRoot, entry.
    split_and!; [left|done..].
  - right. exists pattern', g', libRoot', entry. split; [by right|done].
Qed.

Lemma addPatterns_included allRoots lib patterns fileMap fileMap' path pattern g
    libRoot entry :
  addPatterns allRoots lib patterns fileMap = (fileMap', None) →
  pattern ∈ patterns → glob_Compile pattern = Ok g →
  libRootOf allRoots lib libRoot →
  Files libRoot !! path = Some entry → g path = true →
  fileMap' !! path = Some entry.
Proof.
  intros Hrun Hin Hglob Hroot Hfile Hmatch. revert fileMap Hrun.
  induction patterns as [|pattern0 patterns IH]; intros fileMap; simpl.
  { by apply elem_of_nil in Hin. }
  destruct (glob_Compile pattern0) as [g0|e] eqn:Hglob0; [|done].
  unfold libRootOf in Hroot. rewrite Hroot. intros Hrun.
  apply elem_of_cons in Hin as [->|Hin]; [|by eapply IH].
  rewrite Hglob in Hglob0. injection Hglob0 as <-.
  destruct (addPatterns_lookup _ _ _ _ _ _ path Hrun)
    as [->|(p' & g' & r' & e' & _ & _ & Hr' & Hf' & _ & ->)].
  - by rewrite addMatching_lookup, Hfile, Hmatch.
  - unfold libRootOf in Hr'. rewrite Hroot in Hr'. injection Hr' as <-. congruence.
Qed.

Lemma AddOtherFiles_lookup allRoots libs fileMap fileMap' err path :
  AddOtherFiles allRoots libs fileMap = (fileMap', err) →
  fileMap' !! path = fileMap !! path
  ∨ ∃ lib entry, lib ∈ libs ∧ includes allRoots lib path entry
                 ∧ fileMap' !! path = Some entry.
Proof.
  revert fileMap. induction libs as [|lib libs IH]; intros fileMap; simpl.
  { intros [= <- _]. by left. }
  destruct (addPatterns allRoots lib (Include lib) fileMap) as [fm1 [err1|]] eqn:Hpat.
  - intros [= <- _].
    destruct (addPatterns_lookup _ _ _ _ _ _ path Hpat)
      as [Hsame|(pattern & g & libRoot & entry & Hin & Hglob & Hroot & Hfile & Hm & Hb)];
      [by left|].
    right. exists lib, entry. split_and!; [left| |done].
    by exists pattern, g, libRoot.
  - intros [Hsame|(lib' & entry & Hin & Hinc & Hb)]%IH.
    + destruct (addPatterns_lookup _ _ _ _ _ _ path Hpat)
        as [Hsame1|(pattern & g & libRoot & entry & Hin & Hglob & Hroot & Hfile & Hm & Hb)].
      * left. congruence.
      * right. exists lib, entry. split_and!; [left| |congruence].
        by exists pattern, g, libRoot.
    + right. exists lib', entry. split_and!; [by right|done..].
Qed.

(** X9. Adding the library assets leaves a path as it was unless a pattern
    of one of the libraries matches it in the root of that library; then
    the path is bound to the entry of such a library. When the assets are
    added without error, the last library of the list that includes a path
    decides: the path is bound to that library's entry, whatever the module
    closure had bound it to and whether or not a module needs the file. *)
Theorem AddOtherFiles_selection allRoots libs fileMap fileMap' err :
  AddOtherFiles allRoots libs fileMap = (fileMap', err) →
  (∀ path,
     fileMap' !! path = fileMap !! path
     ∨ ∃ lib entry, lib ∈ libs ∧ includes allRoots lib path entry
                    ∧ fileMap' !! path = Some entry)
  ∧ (err = None →
     ∀ earlier lib later path entry,
       libs = earlier ++ lib :: later →
       includes allRoots lib path entry →
       (∀ lib' entry', lib' ∈ later → ¬ includes allRoots lib' path entry') →
       fileMap' !! path = Some entry).
Proof.
  intros Hrun. split; [intros path; by eapply AddOtherFiles_lookup|].
  intros -> earlier lib later path entry -> Hinc Hlater.
  revert fileMap Hrun. induction earlier as [|lib0 earlier IH]; intros fileMap; simpl.
  - destruct (addPatterns allRoots lib (Include lib) fileMap) as [fm1 [err1|]] eqn:Hpat;
      [done|].
    intros Hrest. destruct Hinc as (pattern & g & libRoot & Hin & Hglob & Hroot & Hfile & Hm).
    pose proof (addPatterns_included _ _ _ _ _ _ _ _ _ _ Hpat Hin Hglob Hroot Hfile Hm)
      as Hbound.
    destruct (AddOtherFiles_lookup _ _ _ _ _ path Hrest)
      as [->|(lib' & entry' & Hin' & Hinc' & _)]; [done|].
    by destruct (Hlater lib' entry' Hin').
  - destruct (addPatterns allRoots lib0 (Include lib0) fileMap) as [fm1 [err1|]];
      [done|]. apply IH.
Qed.

(** X10. Adding the library assets fails exactly at the first include
    pattern, in the order of the libraries and of their patterns, that does
    not compile or whose library has not been indexed. A library without
    include patterns is never looked up, indexed or not, and whether a
    library is flagged for dependency search plays no part. *)
Theorem AddOtherFiles_failure allRoots libs fileMap :
  match (AddOtherFiles allRoots libs fileMap).2 with
  | None =>
      Forall (λ lib, Forall (λ pattern,
          is_Ok (glob_Compile pattern) = true
          ∧ is_Some (allRoots !! filepath_Join "site/lib" (LibName lib)))
        (Include lib)) libs
  | Some err =>
      ∃ lib pattern, lib ∈ libs ∧ pattern ∈ Include lib
        ∧ ((∃ e, glob_Compile pattern = Err e
                 ∧ err = "Error in glob expression, library " +:+ LibName lib
                           +:+ ": " +:+ e)
           ∨ (is_Ok (glob_Compile pattern) = true
              ∧ allRoots !! filepath_Join "site/lib" (LibName lib) = None
              ∧ err = "Cannot find library " +:+ LibName lib +:+ ": %!s(<nil>)"))
  end.
Proof.
  assert (Hpat : ∀ lib patterns fm,
    match (addPatterns allRoots lib patterns fm).2 with
    | None => Forall (λ pattern,
          is_Ok (glob_Compile pattern) = true
          ∧ is_Some (allRoots !! filepath_Join "site/lib" (LibName lib))) patterns
    | Some err =>
        ∃ pattern, pattern ∈ patterns
          ∧ ((∃ e, glob_Compile pattern = Err e
                   ∧ err = "Error in glob expression, library " +:+ LibName lib
                             +:+ ": " +:+ e)
             ∨ (is_Ok (glob_Compile pattern) = true
                ∧ allRoots !! filepath_Join "site/lib" (LibName lib) = None
                ∧ err = "Cannot find library " +:+ LibName lib +:+ ": %!s(<nil>)"))
    end).
  { intros lib. induction patterns as [|pattern patterns IH]; intros fm; simpl; [done|].
    destruct (glob_Compile pattern) as [g|e] eqn:Hglob; simpl.
    - destruct (allRoots !! filepath_Join "site/lib" (LibName lib)) as [libRoot|] eqn:Hroot;
        simpl.
      + specialize (IH (addMatching g libRoot fm)).
        destruct (addPatterns allRoots lib patterns (addMatching g libRoot fm)).2
          as [err|].
        * destruct IH as (pattern' & Hin & Hcase). exists pattern'.
          split; [by right|done].
        * constructor; [|done]. rewrite Hglob. split; [done|by eauto].
      + exists pattern. split; [left|]. right. by rewrite Hglob.
    - exists pattern. split; [left|]. left. by exists e. }
  revert fileMap. induction libs as [|lib libs IH]; intros fileMap; simpl; [done|].
  specialize (Hpat lib (Include lib) fileMap).
  destruct (addPatterns allRoots lib (Include lib) fileMap) as [fm1 [err1|]]; simpl in *.
  - destruct Hpat as (pattern & Hin & Hcase). exists lib, pattern.
    split_and!; [left|done|done].
  - specialize (IH fm1). destruct (AddOtherFiles allRoots libs fm1).2 as [err|].
    + destruct IH as (lib' & pattern & Hin & Hrest). exists lib', pattern.
      split; [by right|done].
    + by constructor.
Qed.

(** ** The device's own files *)

Lemma AddDeviceSpecificFiles_other deviceRoot fileMap path :
  keyed (Files deviceRoot) →
  Files deviceRoot !! path = None →
  AddDeviceSpecificFiles deviceRoot fileMap !! path = fileMap !! path.
Proof.
  intros Hkeyed Hfile. unfold AddDeviceSpecificFiles.
  apply (foldl_invariant (λ fm : gmap string FileEntry2, fm !! path = fileMap !! path));
    [done|].
  intros fm [k fe] Hin%elem_of_range Hfm.
  rewrite lookup_insert_ne; [done|].
  rewrite (Hkeyed _ _ Hin). intros ->. congruence.
Qed.

Lemma AddOtherFiles_bound allRoots libs fileMap fileMap' lib path entry :
  AddOtherFiles allRoots libs fileMap = (fileMap', None) →
  lib ∈ libs → includes allRoots lib path entry →
  is_Some (fileMap' !! path).
Proof.
  intros Hrun Hin (pattern & g & libRoot & Hpat & Hglob & Hroot & Hfile & Hmatch).
  revert fileMap Hrun. induction libs as [|lib0 libs IH]; intros fileMap; simpl.
  { by apply elem_of_nil in Hin. }
  destruct (addPatterns allRoots lib0 (Include lib0) fileMap) as [fm1 [err1|]] eqn:Hrun0;
    [done|].
  intros Hrest. apply elem_of_cons in Hin as [->|Hin]; [|by eapply IH].
  pose proof (addPatterns_included _ _ _ _ _ _ _ _ _ _
                Hrun0 Hpat Hglob Hroot Hfile Hmatch) as Hbound.
  destruct (AddOtherFiles_lookup _ _ _ _ _ path Hrest)
    as [->|(lib' & entry' & _ & _ & ->)]; [by rewrite Hbound|done].
Qed.

(** X11. The overlay of the device's files binds, in a keyed device root,
    exactly the paths of the root and leaves every other path as it was: a
    path of an earlier stage that the device does not hold is kept. *)
Theorem AddDeviceSpecificFiles_result deviceRoot fileMap :
  keyed (Files deviceRoot) →
  ∀ path,
    AddDeviceSpecificFiles deviceRoot fileMap !! path
    = match Files deviceRoot !! path with
      | Some entry => Some entry
      | None => fileMap !! path
      end.
Proof.
  intros Hkeyed path.
  destruct (Files deviceRoot !! path) as [entry|] eqn:Hfile.
  - by apply AddDeviceSpecificFiles_lookup.
  - by apply AddDeviceSpecificFiles_other.
Qed.

(** X24. The file set of a device is made of three sources and of nothing
    else: a path is in the set exactly when the device's own root holds
    it, or a library of the device includes it, or it is the file of a
    module that the entry modules need. The entry bound to a path is the
    device's own, or that of a library that includes the path, or the one
    the search of the roots yields. *)
Theorem deviceFileMap_sources allRoots deviceName fwDef fileMap :
  rootsKeyed allRoots →
  deviceFileMap allRoots deviceName fwDef = Some (Ok fileMap) →
  ∃ search deviceRoot,
    getDeviceFirmwareRoots allRoots (Libs fwDef) = Ok search
    ∧ allRoots !! filepath_Join "site/devices" deviceName = Some deviceRoot
    ∧ (∀ path,
         is_Some (fileMap !! path)
         ↔ is_Some (Files deviceRoot !! path)
           ∨ (∃ lib entry, lib ∈ Libs fwDef ∧ includes allRoots lib path entry)
           ∨ (∃ d, needed search (Modules fwDef) d ∧ path = Mod2File d))
    ∧ (∀ path entry,
         fileMap !! path = Some entry →
         Files deviceRoot !! path = Some entry
         ∨ (Files deviceRoot !! path = None
            ∧ ∃ lib, lib ∈ Libs fwDef ∧ includes allRoots lib path entry)
         ∨ (Files deviceRoot !! path = None
            ∧ FindInRoots path search = Ok entry)).
Proof.
  intros Hall. unfold deviceFileMap.
  destruct (getDeviceFirmwareRoots allRoots (Libs fwDef)) as [search|e]; [|done].
  destruct (addModules search (Modules fwDef) ∅) as [[fm1 [e|]]|] eqn:Hmods;
    [done| |done].
  destruct (AddOtherFiles allRoots (Libs fwDef) fm1) as [fm2 [e|]] eqn:Hother;
    [done|].
  destruct (allRoots !! filepath_Join "site/devices" deviceName)
    as [deviceRoot|] eqn:Hdev; [|done].
  intros [= <-]. exists search, deviceRoot. split_and!; [done..| |].
  - destruct (addModules_success _ _ _ Hmods) as (_ & Hneeded & Hsound).
    assert (Hkeyed : keyed (Files deviceRoot)) by apply (Hall _ _ Hdev).
    intros path. split.
    + destruct (Files deviceRoot !! path) as [own|] eqn:Hown; [by left; eauto|].
      rewrite AddDeviceSpecificFiles_other by done. intros Hsome. right.
      destruct (AddOtherFiles_lookup _ _ _ _ _ path Hother)
        as [Hsame|(lib & entry & Hin & Hinc & _)].
      * right. apply Hsound. by rewrite <- Hsame.
      * left. by exists lib, entry.
    + intros [[own Hown]|[(lib & entry & Hin & Hinc)|(d & Hd & ->)]].
      * by rewrite (AddDeviceSpecificFiles_lookup _ _ _ own).
      * destruct (Files deviceRoot !! path) as [own|] eqn:Hown.
        { by rewrite (AddDeviceSpecificFiles_lookup _ _ _ own). }
        rewrite AddDeviceSpecificFiles_other by done.
        by eapply AddOtherFiles_bound.
      * destruct (Files deviceRoot !! Mod2File d) as [own|] eqn:Hown.
        { by rewrite (AddDeviceSpecificFiles_lookup _ _ _ own). }
        rewrite AddDeviceSpecificFiles_other by done.
        destruct (AddOtherFiles_lookup _ _ _ _ _ (Mod2File d) Hother)
          as [->|(lib & entry & _ & _ & ->)]; [by apply Hneeded|done].
  - destruct (addModules_success _ _ _ Hmods) as (Hfrom & _ & _).
    assert (Hkeyed : keyed (Files deviceRoot)) by apply (Hall _ _ Hdev).
    intros path entry.
    destruct (Files deviceRoot !! path) as [own|] eqn:Hown.
    { rewrite (AddDeviceSpecificFiles_lookup _ _ _ own) by done. by left. }
    rewrite AddDeviceSpecificFiles_other by done. intros Hbound. right.
    destruct (AddOtherFiles_lookup _ _ _ _ _ path Hother)
      as [Hsame|(lib & entry' & Hin & Hinc & Hentry)].
    + right. split; [done|]. apply Hfrom. by rewrite <- Hsame.
    + left. split; [done|]. exists lib. split; [done|]. congruence.
Qed.

End Assets.

(** ** Packing and the driver *)

Section Driver.
Context {ext : Extern} {ord : MapOrder} {srt : SliceSort}.

(** X12. Packing an image succeeds exactly when the image file can be
    created, the source of every file of the manifest can be opened,
    measured and read once the image file is there, and the bytes of the
    image can be written. Otherwise its error is that of the creation, or
    that of the source of a manifest file, or that of the write, in this
    order of precedence. *)
Theorem writeFirmwareImage_result fs manifest :
  match (writeFirmwareImage fs manifest).2 with
  | None =>
      os_Create_error fs (imagePath manifest) = None
      ∧ Forall (readable (<[imagePath manifest := EmptyString]> fs))
               (ManFiles manifest)
      ∧ ∃ files contents,
          files ≡ₚ ManFiles manifest
          ∧ Forall2 (sourceOf (<[imagePath manifest := EmptyString]> fs))
                    files contents
          ∧ write_error (<[imagePath manifest := EmptyString]> fs)
              (imagePath manifest)
              (imageLayout (ManInfo manifest) (zip (Path <$> files) contents)
                           (mjoin (Datafiles <$> files)))
            = None
  | Some err =>
      os_Create_error fs (imagePath manifest) = Some err
      ∨ (os_Create_error fs (imagePath manifest) = None
         ∧ ∃ fe, fe ∈ ManFiles manifest
                 ∧ sourceError (<[imagePath manifest := EmptyString]> fs) fe err)
      ∨ (os_Create_error fs (imagePath manifest) = None
         ∧ Forall (readable (<[imagePath manifest := EmptyString]> fs))
                  (ManFiles manifest)
         ∧ ∃ files contents written,
             files ≡ₚ ManFiles manifest
             ∧ Forall2 (sourceOf (<[imagePath manifest := EmptyString]> fs))
                       files contents
             ∧ write_error (<[imagePath manifest := EmptyString]> fs)
                 (imagePath manifest)
                 (imageLayout (ManInfo manifest) (zip (Path <$> files) contents)
                              (mjoin (Datafiles <$> files)))
               = Some (err, written))
  end.
Proof.
  unfold writeFirmwareImage.
  destruct (os_Create_error fs (imagePath manifest)) as [e|] eqn:Hcreate.
  { simpl. by left. }
  simpl.
  destruct (packFiles _ _ _ _) as [[imgBuf datafiles]|e] eqn:Hpack.
  - assert (Hall : Forall (readable (<[imagePath manifest := EmptyString]> fs))
                          (ManFiles manifest)).
    { rewrite <- (sort_Slice_perm _ Path (ManFiles manifest)).
      by eapply packFiles_Ok_readable. }
    apply image_bytes in Hpack as (contents & Hsrc & Hbytes). rewrite Hbytes.
    destruct (write_error _ _ _) as [[e written]|] eqn:Hwrite; simpl.
    + right. right. split_and!; [done..|].
      exists (sort_Slice Path (ManFiles manifest)), contents, written.
      split_and!; [apply sort_Slice_perm|done..].
    + split_and!; [done..|].
      exists (sort_Slice Path (ManFiles manifest)), contents.
      split_and!; [apply sort_Slice_perm|done..].
  - simpl. right. left. split; [done|].
    apply packFiles_failure in Hpack as (fe & Hin & Herr).
    exists fe. split; [|done].
    by rewrite <- (sort_Slice_perm _ Path (ManFiles manifest)).
Qed.

Lemma buildDeviceFirmwareManifest_definition fs allRoots name manifest :
  buildDeviceFirmwareManifest fs allRoots name = Some (Ok manifest) →
  ∃ fwDef, definitionOf fs name fwDef ∧ ManInfo manifest = DefInfo fwDef.
Proof.
  unfold buildDeviceFirmwareManifest, definitionOf.
  destruct (ReadJSON fs _) as [fwDef|e]; [|done].
  destruct (deviceFileMap allRoots name fwDef) as [[fileMap|e]|]; [|done..].
  intros [= <-]. by exists fwDef.
Qed.

(** What a device build may change in the file system. *)
Lemma Build2_device_writes fs roots name fs' roots' err :
  Build2_device fs roots name = Some (fs', roots', err) →
  dom fs ⊆ dom fs'
  ∧ ∀ path, fs' !! path ≠ fs !! path →
      ∃ fwDef, definitionOf fs name fwDef
               ∧ deviceDocument (ID (DefInfo fwDef)) path.
Proof.
  unfold Build2_device.
  destruct (buildDeviceFirmwareManifest fs _ name) as [[manifest|e]|] eqn:Hman;
    [| |done].
  - simpl.
    apply buildDeviceFirmwareManifest_definition in Hman as (fwDef & Hdef & Hinfo).
    assert (Hwritten : ∀ (fs1 : FS) path,
      (∀ p, p ≠ imagePath manifest → p ≠ manifestPath manifest →
            fs1 !! p = fs !! p) →
      fs1 !! path ≠ fs !! path →
      ∃ fwDef, definitionOf fs name fwDef
               ∧ deviceDocument (ID (DefInfo fwDef)) path).
    { intros fs1 path Hsame Hne. exists fwDef. split; [done|].
      unfold deviceDocument. rewrite <- Hinfo.
      destruct (decide (path = imagePath manifest)) as [->|Hi]; [by right|].
      destruct (decide (path = manifestPath manifest)) as [->|Hm]; [by left|].
      by destruct (Hne (Hsame path Hi Hm)). }
    destruct (writeFirmwareImage _ manifest) as [[fs1 manifest1] [e|]] eqn:Himg;
      intros [= <- <- <-].
    + apply writeFirmwareImage_failure in Himg
        as [[_ ->]|[(_ & -> & _)|(_ & contents & part & rest & _ & _ & _ & ->)]].
      * split; [rewrite dom_insert; set_solver|].
        intros path. apply Hwritten. intros p _ Hp. by rewrite lookup_insert_ne.
      * split; [rewrite !dom_insert; set_solver|].
        intros path. apply Hwritten. intros p Hi Hp. by rewrite !lookup_insert_ne.
      * split; [rewrite !dom_insert; set_solver|].
        intros path. apply Hwritten. intros p Hi Hp. by rewrite !lookup_insert_ne.
    + apply writeFirmwareImage_packed in Himg as (contents & _ & ->).
      split; [rewrite !dom_insert; set_solver|].
      intros path. apply Hwritten. intros p Hi Hp. by rewrite !lookup_insert_ne.
  - by intros [= <- <- <-].
Qed.

Lemma Build2_devices_writes fs roots devices fs' err :
  Build2_devices fs roots devices = Some (fs', err) →
  dom fs ⊆ dom fs'
  ∧ ∀ path, fs' !! path ≠ fs !! path →
      ∃ earlier name later fs1 fwDef,
        devices = earlier ++ name :: later
        ∧ Build2_devices fs roots earlier = Some (fs1, None)
        ∧ definitionOf fs1 name fwDef
        ∧ deviceDocument (ID (DefInfo fwDef)) path.
Proof.
  revert fs roots. induction devices as [|name devices IH]; intros fs roots; simpl.
  { by intros [= <- <-]. }
  destruct (Build2_device fs roots name) as [[[fs1 roots1] [err1|]]|] eqn:Hdev;
    [| |done].
  - intros [= <- <-].
    destruct (Build2_device_writes _ _ _ _ _ _ Hdev) as [Hdom Hpaths].
    split; [done|]. intros path Hne.
    destruct (Hpaths path Hne) as (fwDef & Hdef & Hdoc).
    by exists [], name, devices, fs, fwDef.
  - intros Hrest. destruct (IH _ _ Hrest) as [Hdom Hpaths].
    destruct (Build2_device_writes _ _ _ _ _ _ Hdev) as [Hdom1 Hpaths1].
    split; [by transitivity (dom fs1)|]. intros path Hne.
    destruct (decide (fs' !! path = fs1 !! path)) as [Heq|Hne1].
    + destruct (Hpaths1 path) as (fwDef & Hdef & Hdoc); [congruence|].
      by exists [], name, devices, fs, fwDef.
    + destruct (Hpaths path Hne1)
        as (earlier & name' & later & fs2 & fwDef & -> & Hearlier & Hdef & Hdoc).
      exists (name :: earlier), name', later, fs2, fwDef.
      split_and!; [done| |done..]. simpl. by rewrite Hdev.
Qed.

(** X13. Once the output directory has been emptied, a build removes no
    file, and a file that it creates or changes is one of the two documents
    of a device that it has got to: the paths [filepath.Join("dist", id +
    ".json")] and [filepath.Join("dist", id + ".img")] for the id that the
    definition of the device gave when it was read. The id is used as it
    is read: these two paths, not the output directory, bound what a build
    writes. *)
Theorem Build2_writes fs fs0 fs' err :
  RemoveDirContents fs "dist" = Ok fs0 →
  Build2 fs = Some (fs', err) →
  dom fs0 ⊆ dom fs'
  ∧ ∀ path, fs' !! path ≠ fs0 !! path →
      ∃ roots deviceLibs earlier name later fs1 fwDef,
        indexRoots fs0 = Ok roots
        ∧ ReadDir_dirs fs0 "site/devices" = Ok deviceLibs
        ∧ deviceLibs = earlier ++ name :: later
        ∧ Build2_devices fs0 roots earlier = Some (fs1, None)
        ∧ definitionOf fs1 name fwDef
        ∧ deviceDocument (ID (DefInfo fwDef)) path.
Proof.
  unfold Build2. intros ->.
  destruct (indexRoots fs0) as [roots|e]; [|by intros [= <- <-]].
  destruct (ReadDir_dirs fs0 "site/devices") as [deviceLibs|e];
    [|by intros [= <- <-]].
  intros Hrun. destruct (Build2_devices_writes _ _ _ _ _ Hrun) as [Hdom Hpaths].
  split; [done|]. intros path Hne.
  destruct (Hpaths path Hne)
    as (earlier & name & later & fs1 & fwDef & Hsplit & Hearlier & Hdef & Hdoc).
  by exists roots, deviceLibs, earlier, name, later, fs1, fwDef.
Qed.

(** X14. The loop over the devices stops at the first device whose build
    fails: the devices listed after it are not built, so neither their
    documents nor their errors show in the outcome. *)
Theorem Build2_devices_fail_fast fs roots devices fs' err :
  Build2_devices fs roots devices = Some (fs', Some err) →
  ∀ later, Build2_devices fs roots (devices ++ later) = Some (fs', Some err).
Proof.
  revert fs roots. induction devices as [|name devices IH]; intros fs roots; simpl;
    [done|].
  destruct (Build2_device fs roots name) as [[[fs1 roots1] [err1|]]|]; [done| |done].
  apply IH.
Qed.

End Driver.

(** ** The cache key in a build *)

Section CacheKeyInBuild.
Context {ext : Extern}.

Lemma splitLibFiles_from (O : MapOrder) lib acc entry :
  entry ∈ (@splitLibFiles ext O lib acc).1 →
  entry ∈ acc.1 ∨ files lib !! fileName entry = Some (hash entry).
Proof.
  unfold splitLibFiles.
  assert (Hgen : ∀ (l : list (string * string)) acc,
    entry ∈ (foldl splitLibFile acc l).1 →
    entry ∈ acc.1 ∨ (fileName entry, hash entry) ∈ l).
  { induction l as [|[name h] l IH]; intros [entries table]; simpl; [by left|].
    intros [Hacc|Hin]%IH; [|right; by right].
    destruct (decide (Ext name = ".lua")); simpl in Hacc; [|by left].
    apply elem_of_app in Hacc as [Hacc|Hnew]; [by left|].
    apply list_elem_of_singleton in Hnew as ->. right. left. }
  intros [Hacc|Hin%(@elem_of_range O)]%Hgen; [by left|by right].
Qed.

Lemma collectLFS_from (O : MapOrder) libs device LFS acc r entry :
  @collectLFS ext O libs device LFS acc = Ok r →
  entry ∈ r.1 →
  entry ∈ acc.1
  ∨ ∃ libName lib, libName ∈ LFS ∧ libs !! libName = Some lib
                   ∧ files lib !! fileName entry = Some (hash entry).
Proof.
  revert acc. induction LFS as [|libName LFS IH]; intros acc; simpl.
  - intros [= <-]. by left.
  - destruct (libs !! libName) as [lib|] eqn:Hlib; [|done].
    intros Hrun Hin.
    destruct (IH _ Hrun Hin) as [Hacc|(libName' & lib' & Hin' & Hrest)].
    + apply splitLibFiles_from in Hacc as [Hacc|Hfile]; [by left|].
      right. exists libName, lib. split; [left|done].
    + right. exists libName', lib'. split; [by right|done].
Qed.

(** X15. The cache key of a device's bytecode bundle does not depend on
    the order in which [range] visits the file tables of the libraries, nor
    on how the sort arranges equal names, as long as the libraries of the
    bundle that hold a file of the same name hold it with the same hash. *)
Theorem cache_key_in_build (O1 O2 : MapOrder) (S1 S2 : SliceSort)
    libs device LFS entries1 table1 entries2 table2 :
  (∀ libName1 libName2 lib1 lib2 name h1 h2,
     libName1 ∈ LFS → libName2 ∈ LFS →
     libs !! libName1 = Some lib1 → libs !! libName2 = Some lib2 →
     files lib1 !! name = Some h1 → files lib2 !! name = Some h2 → h1 = h2) →
  @collectLFS ext O1 libs device LFS ([], ∅) = Ok (entries1, table1) →
  @collectLFS ext O2 libs device LFS ([], ∅) = Ok (entries2, table2) →
  ∀ id, @cacheImgFile ext S1 id entries1 = @cacheImgFile ext S2 id entries2.
Proof.
  intros Hfun Hrun1 Hrun2 id.
  assert (Hperm : entries1 ≡ₚ entries2).
  { by apply (collectLFS_order O1 O2 libs device LFS ([], ∅) ([], ∅)
                (entries1, table1) (entries2, table2)). }
  assert (Hsame : ∀ e e', e ∈ entries1 → e' ∈ entries1 →
                          fileName e = fileName e' → hash e = hash e').
  { intros e e' He He' Hname.
    destruct (collectLFS_from O1 _ _ _ _ _ e Hrun1 He)
      as [Hnil|(n1 & l1 & Hin1 & Hl1 & Hf1)]; [by apply elem_of_nil in Hnil|].
    destruct (collectLFS_from O1 _ _ _ _ _ e' Hrun1 He')
      as [Hnil|(n2 & l2 & Hin2 & Hl2 & Hf2)]; [by apply elem_of_nil in Hnil|].
    rewrite Hname in Hf1. by eapply (Hfun n1 n2). }
  unfold cacheImgFile, contentHash.
  assert (Hsorted : @sort_Slice S1 _ fileName entries1
                    = @sort_Slice S2 _ fileName entries2).
  { apply sorted_by_name_unique; [|apply sort_Slice_byName..|].
    - intros e e'. rewrite !(@sort_Slice_perm S1). apply Hsame.
    - by rewrite (@sort_Slice_perm S1), (@sort_Slice_perm S2). }
  by rewrite Hsorted.
Qed.

End CacheKeyInBuild.

(** ** The libraries of a device in the flat pipeline *)

Lemma processed_insert m k n :
  processed (<[k := true]> m) n = true ↔ n = k ∨ processed m n = true.
Proof.
  unfold processed. destruct (decide (n = k)) as [->|Hne].
  - rewrite lookup_insert_eq. simpl. by split; [left|].
  - rewrite lookup_insert_ne by done. split; [by right|]. by intros [?|?].
Qed.

Lemma listed_append m all n :
  listed (m, all) → listed (<[n := true]> m, all ++ [n]).
Proof.
  intros Hinv k. simpl.
  rewrite processed_insert, elem_of_app, list_elem_of_singleton.
  specialize (Hinv k). simpl in Hinv. tauto.
Qed.

Lemma addDependency_fold deps acc m' all' :
  foldl addDependency acc deps = (m', all') → listed acc →
  listed (m', all')
  ∧ ∃ added, all' = acc.2 ++ added ∧ NoDup added
             ∧ ∀ n, n ∈ added ↔ n ∈ deps ∧ n ∉ acc.2.
Proof.
  revert acc. induction deps as [|dep deps IH]; intros [m all] Hfold Hinv; simpl in *.
  - injection Hfold as <- <-. split; [done|]. exists [].
    rewrite app_nil_r. split_and!; [done|constructor|].
    intros n. split; [by intros ?%elem_of_nil|]. by intros [?%elem_of_nil _].
  - destruct (processed m dep) eqn:Hp.
    + destruct (IH _ Hfold Hinv) as (Hinv' & added & -> & Hnd & Hadded).
      split; [done|]. exists added. split_and!; [done..|].
      intros n. rewrite Hadded, elem_of_cons. simpl.
      split; [by intros [? ?]; split; [right|]|].
      intros [[->|?] Hn]; [|done]. exfalso. apply Hn. by apply Hinv.
    + assert (Hdep : dep ∉ all).
      { intros Hin%Hinv. simpl in Hin. congruence. }
      destruct (IH _ Hfold (listed_append _ _ dep Hinv))
        as (Hinv' & added & -> & Hnd & Hadded).
      simpl in *. split; [done|]. exists (dep :: added). split_and!.
      * by rewrite <- app_assoc.
      * constructor; [|done]. intros [_ Hn]%Hadded. apply Hn.
        apply elem_of_app. right. by apply list_elem_of_singleton.
      * intros n. rewrite !elem_of_cons, Hadded, elem_of_app, list_elem_of_singleton.
        split.
        -- intros [->|[Hin Hn]]; [by split; [left|]|]. split; [by right|tauto].
        -- intros [[->|Hin] Hn]; [by left|].
           destruct (decide (n = dep)); [by left|right]. tauto.
Qed.

Lemma orderLibs_acc libs device names acc allLibs :
  orderLibs libs device names acc = Ok allLibs → listed acc →
  ∃ suffix, allLibs = acc.2 ++ suffix
    ∧ (∀ n, n ∈ names → n ∈ allLibs)
    ∧ (∀ n, n ∈ suffix →
         (n ∈ names ∧ is_Some (libs !! n))
         ∨ ∃ l lib, l ∈ names ∧ libs !! l = Some lib ∧ n ∈ dependencies lib)
    ∧ ((∀ n lib, n ∈ names → libs !! n = Some lib → n ∉ dependencies lib) →
       NoDup acc.2 → NoDup allLibs).
Proof.
  revert acc. induction names as [|name names IH]; intros [m all] Hrun Hinv;
    simpl in *.
  { injection Hrun as <-. exists []. rewrite app_nil_r. split_and!; [done| | |done].
    - by intros n ?%elem_of_nil.
    - by intros n ?%elem_of_nil. }
  destruct (processed m name) eqn:Hp.
  - destruct (IH _ Hrun Hinv) as (suffix & -> & Hall & Hfrom & Hnd).
    exists suffix. simpl in *. split_and!; [done| | |].
    + intros n [->|Hin]%elem_of_cons; [|by apply Hall].
      apply elem_of_app. left. by apply Hinv.
    + intros n [[Hin Hlib]|(l & lib & Hl & Hrest)]%Hfrom.
      * left. split; [by right|done].
      * right. exists l, lib. split; [by right|done].
    + intros Hself. apply Hnd. intros n lib Hin. apply Hself. by right.
  - destruct (libs !! name) as [lib|] eqn:Hlib; [|done].
    destruct (foldl addDependency (m, all) (dependencies lib)) as [m' all'] eqn:Hfold.
    destruct (addDependency_fold _ _ _ _ Hfold Hinv)
      as (Hinv' & added & -> & Hndadded & Hadded).
    simpl in *.
    destruct (IH _ Hrun (listed_append _ _ name Hinv'))
      as (suffix & -> & Hall & Hfrom & Hnd).
    simpl in *. exists (added ++ [name] ++ suffix). split_and!.
    + by rewrite <- !app_assoc.
    + intros n [->|Hin]%elem_of_cons; [|by apply Hall].
      rewrite !elem_of_app, list_elem_of_singleton. left. by right.
    + intros n. rewrite !elem_of_app, list_elem_of_singleton.
      intros [Hin|[->|Hin]].
      * right. exists name, lib. split_and!; [left|done|].
        by apply Hadded in Hin as [? _].
      * left. split; [left|by rewrite Hlib].
      * destruct (Hfrom n Hin) as [[Hn Hlibn]|(l & lib' & Hl & Hrest)].
        -- left. split; [by right|done].
        -- right. exists l, lib'. split; [by right|done].
    + intros Hself Hndall. apply Hnd.
      { intros n lib' Hin. apply Hself. by right. }
      assert (Hname : name ∉ all).
      { intros Hin%Hinv. simpl in Hin. congruence. }
      apply NoDup_app. split_and!.
      * apply NoDup_app. split_and!; [done| |done].
        intros n Hn [_ Hnot]%Hadded. done.
      * intros n [Hn|Hn]%elem_of_app ->%list_elem_of_singleton; [done|].
        apply Hadded in Hn as [Hdep _]. apply (Hself name lib); [left|done..].
      * apply NoDup_singleton.
Qed.

Lemma listed_initial : listed (∅, []).
Proof.
  intros n. unfold processed. simpl. rewrite lookup_empty. simpl.
  split; [done|by intros ?%elem_of_nil].
Qed.

(** X16. The library list of a device in the flat pipeline holds every
    library named by the device and, besides these, only libraries that a
    named library declares as its dependency: the dependencies of a
    dependency are not followed. Unless a named library declares itself as
    its dependency, no library is listed twice. *)
Theorem orderLibs_members libs device names allLibs :
  orderLibs libs device names (∅, []) = Ok allLibs →
  (∀ n, n ∈ names → n ∈ allLibs)
  ∧ (∀ n, n ∈ allLibs →
       n ∈ names
       ∨ ∃ l lib, l ∈ names ∧ libs !! l = Some lib ∧ n ∈ dependencies lib)
  ∧ ((∀ n lib, n ∈ names → libs !! n = Some lib → n ∉ dependencies lib) →
     NoDup allLibs).
Proof.
  intros Hrun.
  destruct (orderLibs_acc _ _ _ _ _ Hrun listed_initial)
    as (suffix & -> & Hall & Hfrom & Hnd).
  simpl in *. split_and!; [done| |].
  - intros n [[Hin _]|Hdep]%Hfrom; [by left|by right].
  - intros Hself. apply Hnd; [done|constructor].
Qed.

Lemma orderLibs_dependencies_acc libs device earlier n later acc lib allLibs :
  orderLibs libs device (earlier ++ n :: later) acc = Ok allLibs →
  listed acc → n ∉ acc.2 → n ∉ earlier →
  (∀ l lib', l ∈ earlier → libs !! l = Some lib' → n ∉ dependencies lib') →
  libs !! n = Some lib →
  ∃ before after,
    allLibs = before ++ n :: after ∧ ∀ dep, dep ∈ dependencies lib → dep ∈ before.
Proof.
  intros Hrun Hinv Hacc Hearlier Hdeps Hlib. revert acc Hrun Hinv Hacc.
  induction earlier as [|l earlier IH]; intros [m all] Hrun Hinv Hacc; simpl in *.
  - assert (Hp : processed m n = false).
    { destruct (processed m n) eqn:Hp; [|done]. by apply Hinv in Hp. }
    rewrite Hp, Hlib in Hrun.
    destruct (foldl addDependency (m, all) (dependencies lib)) as [m' all'] eqn:Hfold.
    destruct (addDependency_fold _ _ _ _ Hfold Hinv)
      as (Hinv' & added & -> & _ & Hadded).
    simpl in *.
    destruct (orderLibs_acc _ _ _ _ _ Hrun (listed_append _ _ n Hinv'))
      as (suffix & -> & _).
    simpl. exists (all ++ added), suffix. split; [by rewrite <- !app_assoc|].
    intros dep Hdep. apply elem_of_app.
    destruct (decide (dep ∈ all)); [by left|right]. by apply Hadded.
  - apply not_elem_of_cons in Hearlier as [Hne Hearlier].
    assert (Hdeps' : ∀ l' lib', l' ∈ earlier → libs !! l' = Some lib' →
                                n ∉ dependencies lib').
    { intros l' lib' Hin. apply Hdeps. by right. }
    destruct (processed m l) eqn:Hp; [by apply (IH Hearlier Hdeps' (m, all))|].
    destruct (libs !! l) as [lib'|] eqn:Hlibl; [|done].
    destruct (foldl addDependency (m, all) (dependencies lib')) as [m' all'] eqn:Hfold.
    destruct (addDependency_fold _ _ _ _ Hfold Hinv)
      as (Hinv' & added & -> & _ & Hadded).
    simpl in *.
    apply (IH Hearlier Hdeps' _ Hrun (listed_append _ _ l Hinv')).
    simpl. rewrite !elem_of_app, list_elem_of_singleton.
    intros [[Hin|Hin]|Heq]; [done| |done].
    apply Hadded in Hin as [Hin _]. apply (Hdeps l lib'); [left|done..].
Qed.

(** X17. In the library list of the flat pipeline, a named library that no
    library named before it declares as a dependency comes after all the
    dependencies it declares, so that its own files are gathered after
    theirs. *)
Theorem orderLibs_dependencies_first libs device earlier n later lib allLibs :
  orderLibs libs device (earlier ++ n :: later) (∅, []) = Ok allLibs →
  n ∉ earlier →
  (∀ l lib', l ∈ earlier → libs !! l = Some lib' → n ∉ dependencies lib') →
  libs !! n = Some lib →
  ∃ before after,
    allLibs = before ++ n :: after ∧ ∀ dep, dep ∈ dependencies lib → dep ∈ before.
Proof.
  intros Hrun Hearlier Hdeps Hlib.
  eapply orderLibs_dependencies_acc; [exact Hrun|apply listed_initial| |done..].
  by intros ?%elem_of_nil.
Qed.

Section FlatPipeline.
Context {ext : Extern} {ord : MapOrder}.

Lemma gatherLibs_result libs device allLibs table :
  match gatherLibs libs device allLibs table with
  | Ok _ => ∀ n, n ∈ allLibs → is_Some (libs !! n)
  | Err err =>
      ∃ n, n ∈ allLibs ∧ libs !! n = None
           ∧ err = "Cannot find lib " +:+ n +:+ " defined in " +:+ device
  end.
Proof.
  revert table. induction allLibs as [|name allLibs IH]; intros table; simpl.
  { by intros n ?%elem_of_nil. }
  destruct (libs !! name) as [lib|] eqn:Hlib.
  - specialize (IH (addLibFiles lib table)).
    destruct (gatherLibs libs device allLibs (addLibFiles lib table)) as [t|e].
    + intros n [->|Hin]%elem_of_cons; [by rewrite Hlib|by apply IH].
    + destruct IH as (n & Hin & Hrest). exists n. split; [by right|done].
  - exists name. split; [left|done].
Qed.

(** X18. Once the library list of a device has been put together, the
    gathering of the files in the flat pipeline fails exactly when the list
    holds a library that has not been packed. Such a library is never one
    that the device names itself: it is a dependency declared by a named
    library, and the error names that dependency and the device. *)
Theorem gatherLibs_missing_dependency libs device names allLibs table :
  orderLibs libs device names (∅, []) = Ok allLibs →
  match gatherLibs libs device allLibs table with
  | Ok _ => ∀ n, n ∈ allLibs → is_Some (libs !! n)
  | Err err =>
      ∃ l lib dep,
        l ∈ names ∧ libs !! l = Some lib ∧ dep ∈ dependencies lib
        ∧ dep ∈ allLibs ∧ libs !! dep = None
        ∧ err = "Cannot find lib " +:+ dep +:+ " defined in " +:+ device
  end.
Proof.
  intros Hrun.
  destruct (orderLibs_acc _ _ _ _ _ Hrun listed_initial)
    as (suffix & -> & _ & Hfrom & _).
  simpl in *. pose proof (gatherLibs_result libs device suffix table) as Hgather.
  destruct (gatherLibs libs device suffix table) as [t|e]; [done|].
  destruct Hgather as (n & Hin & Hnone & ->).
  destruct (Hfrom n Hin) as [[_ [lib Hlib]]|(l & lib & Hl & Hlib & Hdep)];
    [congruence|].
  by exists l, lib, n.
Qed.

End FlatPipeline.

(** ** The manifest of the flat pipeline *)

Section FlatManifest.
Context {ext : Extern} {ord : MapOrder}.

Lemma addLibFile_fold (l : list (string * string)) table b :
  (Forall (λ binding, filepath_Base binding.1 ≠ b) l →
   foldl addLibFile table l !! b = table !! b)
  ∧ (Exists (λ binding, filepath_Base binding.1 = b) l →
     ∃ f h, (f, h) ∈ l ∧ filepath_Base f = b
            ∧ foldl addLibFile table l !! b = Some {| fileName := f; hash := h |}).
Proof.
  revert table. induction l as [|[f h] l IH]; intros table.
  { split; [done|]. by intros ?%Exists_nil. }
  simpl. destruct (IH (<[filepath_Base f := {| fileName := f; hash := h |}]> table))
    as [IHnone IHsome].
  split.
  - intros [Hne Hrest]%Forall_cons. simpl in Hne.
    rewrite IHnone by done. by rewrite lookup_insert_ne.
  - intros Hex. destruct (decide (Exists (λ binding, filepath_Base binding.1 = b) l))
      as [Hl|Hl].
    + destruct (IHsome Hl) as (f' & h' & Hin & Hbase & Hbound).
      exists f', h'. split; [by right|done].
    + apply Exists_cons in Hex as [Hhere|Hrest]; [|done]. simpl in Hhere.
      exists f, h. split_and!; [left|done|].
      rewrite IHnone.
      * by rewrite <- Hhere, lookup_insert_eq.
      * apply Forall_forall. intros binding Hin Hbase. apply Hl.
        apply Exists_exists. by exists binding.
Qed.

Lemma addLibFiles_other lib table b :
  (∀ f h, files lib !! f = Some h → filepath_Base f ≠ b) →
  addLibFiles lib table !! b = table !! b.
Proof.
  intros Hnone. apply addLibFile_fold, Forall_forall.
  intros [f h] Hin%elem_of_range. by apply (Hnone f h).
Qed.

Lemma addLibFiles_own lib table b f h :
  files lib !! f = Some h → filepath_Base f = b →
  ∃ f' h', files lib !! f' = Some h' ∧ filepath_Base f' = b
           ∧ addLibFiles lib table !! b = Some {| fileName := f'; hash := h' |}.
Proof.
  intros Hfile Hbase.
  destruct (proj2 (addLibFile_fold (range (files lib)) table b))
    as (f' & h' & Hin & Hbase' & Hbound).
  { apply Exists_exists. exists (f, h). split; [by apply elem_of_range|done]. }
  exists f', h'. split; [by apply elem_of_range|done].
Qed.

Lemma addLibFiles_based lib table : based table → based (addLibFiles lib table).
Proof.
  intros Hbased. unfold addLibFiles.
  apply (foldl_invariant based); [done|].
  intros t [f h] _ Ht b entry. simpl.
  destruct (decide (b = filepath_Base f)) as [->|Hne].
  - rewrite lookup_insert_eq. by intros [= <-].
  - rewrite lookup_insert_ne by done. apply Ht.
Qed.

Lemma gatherLibs_based libs device allLibs table table' :
  based table → gatherLibs libs device allLibs table = Ok table' → based table'.
Proof.
  revert table. induction allLibs as [|name allLibs IH]; intros table Hbased; simpl.
  - by intros [= <-].
  - destruct (libs !! name) as [lib|]; [|done].
    apply IH. by apply addLibFiles_based.
Qed.

Lemma manifestFiles_lookup table f h :
  based table →
  manifestFiles table !! f = Some h
  ↔ table !! filepath_Base f = Some {| fileName := f; hash := h |}.
Proof.
  intros Hbased. unfold manifestFiles.
  assert (Hgen : ∀ l : list (string * FileEntry),
    NoDup l.*1 →
    Forall (λ binding, filepath_Base (fileName binding.2) = binding.1) l →
    foldl (λ fmFiles '(_, entry), <[fileName entry := hash entry]> fmFiles)
          (∅ : gmap string string) l !! f
      = Some h
    ↔ (filepath_Base f, {| fileName := f; hash := h |}) ∈ l).
  { induction l as [|[b entry] l IH] using rev_ind; intros Hnodup Hall.
    { simpl. rewrite lookup_empty. split; [done|by intros ?%elem_of_nil]. }
    rewrite fmap_app in Hnodup. apply NoDup_app in Hnodup as (Hnodup & Hfresh & _).
    apply Forall_app in Hall as [Hall Hlast].
    apply Forall_cons in Hlast as [Hlast _]. simpl in Hlast.
    rewrite foldl_app. simpl. rewrite elem_of_app, list_elem_of_singleton.
    destruct (decide (f = fileName entry)) as [->|Hne].
    - rewrite lookup_insert_eq. split.
      + intros [= <-]. right. rewrite Hlast. by destruct entry.
      + intros [Hin|[= _ Heq]]; [|by rewrite <- Heq].
        exfalso. apply (Hfresh b).
        * apply list_elem_of_fmap. eexists. split; [|exact Hin]. by rewrite Hlast.
        * simpl. left.
    - rewrite lookup_insert_ne by done. rewrite (IH Hnodup Hall).
      split; [by left|]. intros [Hin|[= _ Heq]]; [done|].
      exfalso. apply Hne. by rewrite <- Heq. }
  rewrite Hgen.
  - by rewrite elem_of_range.
  - apply NoDup_range_keys.
  - apply Forall_forall. intros [b entry] Hin%elem_of_range. by apply Hbased.
Qed.

(** X25. The manifest of a device in the flat pipeline never lists two
    files of the same base name: the files are gathered in a table keyed by
    base name, in which a later library replaces the file of an earlier
    one and the device's own files come last. So a listed file whose base
    name the device also uses is the device's own, and a file of the device
    whose base name no other file of the device has is always listed. *)
Theorem flat_manifest_by_base_name libs device deviceLib names table fmFiles :
  based table →
  deviceManifestFiles libs device deviceLib names table = Ok fmFiles →
  (∀ f h f' h', fmFiles !! f = Some h → fmFiles !! f' = Some h' →
                filepath_Base f = filepath_Base f' → f = f' ∧ h = h')
  ∧ (∀ f h f' h', fmFiles !! f = Some h → files deviceLib !! f' = Some h' →
                  filepath_Base f' = filepath_Base f → files deviceLib !! f = Some h)
  ∧ (∀ f h, files deviceLib !! f = Some h →
            (∀ f' h', files deviceLib !! f' = Some h' →
                      filepath_Base f' = filepath_Base f → f' = f) →
            fmFiles !! f = Some h).
Proof.
  intros Hbased. unfold deviceManifestFiles.
  destruct (orderLibs libs device names (∅, [])) as [allLibs|e]; [|done]. simpl.
  destruct (gatherLibs libs device allLibs table) as [gathered|e] eqn:Hgather;
    [|done].
  simpl. intros [= <-].
  assert (Hfinal : based (addLibFiles deviceLib gathered)).
  { by eapply addLibFiles_based, gatherLibs_based. }
  split_and!.
  - intros f h f' h' Hf Hf' Hbase.
    apply manifestFiles_lookup in Hf, Hf'; [|done..].
    rewrite Hbase in Hf. by simplify_eq.
  - intros f h f' h' Hf Hown Hbase.
    apply manifestFiles_lookup in Hf; [|done].
    destruct (addLibFiles_own deviceLib gathered _ f' h' Hown Hbase)
      as (f1 & h1 & Hfile & _ & Hbound).
    by simplify_eq.
  - intros f h Hown Huniq. apply manifestFiles_lookup; [done|].
    destruct (addLibFiles_own deviceLib gathered _ f h Hown eq_refl)
      as (f1 & h1 & Hfile & Hbase & ->).
    pose proof (Huniq f1 h1 Hfile Hbase) as ->. congruence.
Qed.

End FlatManifest.

(** ** The command line *)

Lemma collapse_cons_cons a b l :
  collapse (a :: b :: l)
  = if decide (a = b) then collapse (b :: l) else a :: collapse (b :: l).
Proof. done. Qed.

Lemma last_collapse l : last (collapse l) = last l.
Proof.
  induction l as [|a l IH]; [done|]. destruct l as [|b l]; [done|].
  rewrite collapse_cons_cons, last_cons_cons. destruct (decide (a = b)); [done|].
  rewrite last_cons, IH, (last_cons b l). by destruct (last l).
Qed.

Lemma collapse_snoc l c :
  collapse (l ++ [c])
  = if decide (last l = Some c) then collapse l else collapse l ++ [c].
Proof.
  induction l as [|a l IH]; [done|]. destruct l as [|b l].
  - change (collapse ([a] ++ [c])) with (collapse (a :: [c])).
    rewrite collapse_cons_cons. simpl.
    destruct (decide (a = c)) as [->|Hne].
    + by rewrite decide_True.
    + rewrite decide_False; [done|congruence].
  - change ((a :: b :: l) ++ [c]) with (a :: b :: (l ++ [c])).
    rewrite collapse_cons_cons, (collapse_cons_cons a b l), last_cons_cons.
    change (b :: l ++ [c]) with ((b :: l) ++ [c]). rewrite IH.
    destruct (decide (a = b)); [done|].
    by destruct (decide (last (b :: l) = Some c)).
Qed.

Lemma Split_cons s sep : ∃ field fields, Split s sep = field :: fields.
Proof.
  induction s as [|c s (field & fields & IH)]; simpl; [by eauto|].
  destruct (decide (c = sep)); [by eauto|]. rewrite IH. by eauto.
Qed.

Lemma Split_length s sep :
  length (Split s sep)
  = S (length (filter (λ c, c = sep) (String.list_ascii_of_string s))).
Proof.
  induction s as [|c s IH]; [done|]. simpl.
  destruct (Split_cons s sep) as (field & fields & Hsplit).
  destruct (decide (c = sep)) as [->|Hne].
  - rewrite filter_cons_True by done. simpl. by rewrite IH.
  - rewrite filter_cons_False by done. rewrite Hsplit in *. by rewrite <- IH.
Qed.

Lemma Split_concat s sep :
  String.concat (String sep EmptyString) (Split s sep) = s.
Proof.
  induction s as [|c s IH]; [done|]. simpl.
  destruct (Split_cons s sep) as (field & fields & Hsplit).
  destruct (decide (c = sep)) as [->|Hne]; rewrite Hsplit in *.
  - change (String.concat (String sep EmptyString) (EmptyString :: field :: fields))
      with (String sep (String.concat (String sep EmptyString) (field :: fields))).
    by rewrite IH.
  - rewrite <- IH. by destruct fields.
Qed.

Section Console.
Context {ext : Extern} {term : Terminal}.

(** X19. A command is handed to its handler exactly when its argument
    text holds at least [minParameters - 1] spaces: the parameters are the
    pieces between single spaces, so that they give the text back when
    joined, an empty text counts as one (empty) parameter and two spaces in
    a row as an empty parameter between them. The handler runs between a
    stop and a restart of the dumper; too few parameters only print. *)
Theorem parseCommandLine_parameter_count commandHandlers cmdline command rest
    minParameters :
  commandRegex_FindStringSubmatch cmdline = Some (command, rest) →
  commandHandlers !! command = Some minParameters →
  let parameters := Split rest " " in
  let spaces :=
    length (filter (λ c, c = " "%char) (String.list_ascii_of_string rest)) in
  String.concat " " parameters = rest
  ∧ length parameters = S spaces
  ∧ ((minParameters ≤ Z.of_nat (S spaces))%Z →
     parseCommandLine commandHandlers cmdline
     = ([DumperStop; Handler command parameters; DumperDump],
        handle command parameters))
  ∧ ((Z.of_nat (S spaces) < minParameters)%Z →
     parseCommandLine commandHandlers cmdline
     = ([Printf ("Expected at least " +:+ pretty minParameters
                   +:+ " parameters. Got " +:+ pretty (S spaces) +:+ nl)], None)).
Proof.
  intros Hmatch Hhandler parameters spaces.
  assert (Hlen : length parameters = S spaces) by apply Split_length.
  split_and!; [apply Split_concat|done| |].
  - intros Hmin. unfold parseCommandLine. rewrite Hmatch, Hhandler.
    fold parameters. rewrite Hlen. by rewrite decide_False by lia.
  - intros Hmin. unfold parseCommandLine. rewrite Hmatch, Hhandler.
    fold parameters. rewrite Hlen. by rewrite decide_True by lia.
Qed.

Lemma at_index_last (l : list string) :
  (Z.of_nat (length l) > 0)%Z → at_index l (Z.of_nat (length l) - 1) = last l.
Proof.
  intros Hlen. unfold at_index. rewrite decide_True by lia.
  rewrite last_lookup. f_equal. lia.
Qed.

Lemma at_index_is_Some (l : list string) i :
  (0 ≤ i < Z.of_nat (length l))%Z → ∃ x, at_index l i = Some x ∧ l !! Z.to_nat i = Some x.
Proof.
  intros Hi. unfold at_index. rewrite decide_True by lia.
  destruct (lookup_lt_is_Some_2 l (Z.to_nat i)) as [x Hx]; [lia|]. by exists x.
Qed.

(** [onEnter] without the index: the last entry of the history decides. *)
Lemma onEnter_eq p :
  onEnter p
  = Some (let cmd := strings_TrimSpace (text p) in
          if decide (String.length cmd = 0) then p
          else if decide (last (history p) = Some cmd)
               then {| history := history p; historyPos := historyPos p;
                       text := EmptyString; commands := commands p ++ [cmd] |}
               else {| history := history p ++ [cmd];
                       historyPos := Z.of_nat (length (history p)) + 1;
                       text := EmptyString; commands := commands p ++ [cmd] |}).
Proof.
  unfold onEnter. simpl.
  destruct (decide (String.length (strings_TrimSpace (text p)) = 0)); [done|].
  destruct (decide (Z.of_nat (length (history p)) = 0)%Z) as [Hz|Hnz].
  - assert (Hnil : history p = []) by (apply nil_length_inv; lia).
    simpl. by rewrite Hnil.
  - rewrite decide_True by lia. rewrite at_index_last by lia.
    destruct (last (history p)) as [latest|] eqn:Hlast; simpl.
    + destruct (decide (latest = strings_TrimSpace (text p))) as [->|Hne].
      * rewrite bool_decide_eq_false_2 by (by intros ?). by rewrite decide_True.
      * rewrite bool_decide_eq_true_2 by done.
        rewrite decide_False; [done|congruence].
    + apply last_None in Hlast. rewrite Hlast in Hnz. done.
Qed.

Lemma onEvent_inRange p event :
  inRange p → ∃ p', onEvent p event = Some p' ∧ inRange p'.
Proof.
  unfold inRange. intros Hp. destruct event; simpl.
  - by exists p.
  - rewrite onEnter_eq. eexists. split; [done|]. simpl.
    destruct (decide (String.length (strings_TrimSpace (text p)) = 0)); [done|].
    destruct (decide (last (history p) = Some (strings_TrimSpace (text p))));
      simpl; [done|].
    rewrite length_app. simpl. lia.
  - unfold onUp. destruct (decide (historyPos p > 0)%Z); [|by exists p].
    destruct (at_index_is_Some (history p) (historyPos p - 1)) as (x & -> & _);
      [lia|].
    simpl. eexists. split; [done|]. simpl. lia.
  - unfold onDown.
    destruct (decide (historyPos p < Z.of_nat (length (history p)) - 1)%Z).
    + destruct (at_index_is_Some (history p) (historyPos p + 1)) as (x & -> & _);
        [lia|].
      simpl. eexists. split; [done|]. simpl. lia.
    + eexists. split; [done|]. simpl. lia.
  - eexists. split; [done|]. simpl. lia.
Qed.

(** X20. Whatever keys and edits reach the input field, no callback reads
    the history out of range, and the position stays between 0 and the
    length of the history. *)
Theorem prompt_never_panics events :
  ∃ p, onEvents newPrompt events = Some p ∧ inRange p.
Proof.
  assert (Hgen : ∀ p, inRange p → ∃ p', onEvents p events = Some p' ∧ inRange p').
  { induction events as [|event events IH]; intros p Hp; simpl; [by exists p|].
    destruct (onEvent_inRange p event Hp) as (p1 & -> & Hp1). simpl.
    by apply IH. }
  apply Hgen. unfold inRange, newPrompt. simpl. lia.
Qed.

Lemma onEvent_history p event p' :
  onEvent p event = Some p' →
  history p = collapse (commands p) →
  Forall (λ c, String.length c ≠ 0) (commands p) →
  history p' = collapse (commands p')
  ∧ Forall (λ c, String.length c ≠ 0) (commands p').
Proof.
  intros Hstep Hhist Hcmds. destruct event; simpl in Hstep.
  - by injection Hstep as <-.
  - rewrite onEnter_eq in Hstep. injection Hstep as <-. simpl.
    destruct (decide (String.length (strings_TrimSpace (text p)) = 0)); [done|].
    assert (Hlast : last (commands p) = last (history p)).
    { by rewrite Hhist, last_collapse. }
    destruct (decide (last (history p) = Some (strings_TrimSpace (text p))));
      simpl; (split; [|apply Forall_app; split; [done|by constructor]]).
    + rewrite collapse_snoc, decide_True; [done|congruence].
    + rewrite collapse_snoc, decide_False; [by rewrite Hhist|congruence].
  - unfold onUp in Hstep. destruct (decide (historyPos p > 0)%Z).
    + destruct (at_index (history p) (historyPos p - 1)); [|done].
      by injection Hstep as <-.
    + by injection Hstep as <-.
  - unfold onDown in Hstep.
    destruct (decide (historyPos p < Z.of_nat (length (history p)) - 1)%Z).
    + destruct (at_index (history p) (historyPos p + 1)); [|done].
      by injection Hstep as <-.
    + by injection Hstep as <-.
  - by injection Hstep as <-.
Qed.

(** X21. The history is the sequence of the command lines that were sent
    for execution with every immediate repetition left out, and no blank
    line is ever sent or remembered: the keys that browse the history do
    not change it. *)
Theorem history_collapses_commands events p :
  onEvents newPrompt events = Some p →
  history p = collapse (commands p)
  ∧ Forall (λ c, String.length c ≠ 0) (commands p).
Proof.
  assert (Hgen : ∀ p0, onEvents p0 events = Some p →
    history p0 = collapse (commands p0) →
    Forall (λ c, String.length c ≠ 0) (commands p0) →
    history p = collapse (commands p)
    ∧ Forall (λ c, String.length c ≠ 0) (commands p)).
  { induction events as [|event events IH]; intros p0; simpl.
    - by intros [= <-].
    - destruct (onEvent p0 event) as [p1|] eqn:Hstep; [|done]. simpl.
      intros Hrun Hhist Hcmds.
      destruct (onEvent_history _ _ _ Hstep Hhist Hcmds) as [Hhist1 Hcmds1].
      by apply (IH p1). }
  intros Hrun. by apply (Hgen newPrompt).
Qed.

Lemma onUp_Some p :
  (0 < historyPos p ≤ Z.of_nat (length (history p)))%Z →
  ∃ recalled,
    history p !! Z.to_nat (historyPos p - 1) = Some recalled
    ∧ onUp p = Some {| history := history p; historyPos := historyPos p - 1;
                       text := recalled; commands := commands p |}.
Proof.
  intros Hp. unfold onUp. rewrite decide_True by lia.
  destruct (at_index_is_Some (history p) (historyPos p - 1)) as (x & -> & Hx);
    [lia|].
  by exists x.
Qed.

Lemma onUp_repeat j p :
  (Z.of_nat (S j) ≤ historyPos p ≤ Z.of_nat (length (history p)))%Z →
  ∃ p', onEvents p (replicate (S j) KeyUp) = Some p'
        ∧ history p' = history p ∧ commands p' = commands p
        ∧ historyPos p' = (historyPos p - Z.of_nat (S j))%Z
        ∧ history p !! Z.to_nat (historyPos p - Z.of_nat (S j)) = Some (text p').
Proof.
  revert p. induction j as [|j IH]; intros p Hp.
  - destruct (onUp_Some p) as (x & Hx & Hup); [lia|].
    simpl. rewrite Hup. simpl. eexists. by split_and!.
  - change (replicate (S (S j)) KeyUp) with (KeyUp :: replicate (S j) KeyUp).
    destruct (onUp_Some p) as (x & Hx & Hup); [lia|].
    destruct (IH {| history := history p; historyPos := historyPos p - 1;
                    text := x; commands := commands p |})
      as (p' & Hrun & Hhist & Hcmds & Hpos & Htext); [simpl; lia|].
    simpl in Hhist, Hcmds, Hpos, Htext.
    exists p'. split_and!; [|done..|lia|].
    + change (onEvents p (KeyUp :: replicate (S j) KeyUp))
        with (onUp p ≫= λ p1, onEvents p1 (replicate (S j) KeyUp)).
      rewrite Hup. exact Hrun.
    + rewrite <- Htext. f_equal. lia.
Qed.

(** X22. After a command that differs from the last remembered one has
    been entered, pressing the up key [k + 1] times puts the [k]-th most
    recent command into the input field, the command just entered being
    the most recent one. *)
Theorem recall_after_enter p cmd k recalled :
  strings_TrimSpace (text p) = cmd →
  String.length cmd ≠ 0 →
  last (history p) ≠ Some cmd →
  reverse (history p ++ [cmd]) !! k = Some recalled →
  ∃ p', onEvents p (KeyEnter :: replicate (S k) KeyUp) = Some p'
        ∧ text p' = recalled
        ∧ history p' = history p ++ [cmd]
        ∧ commands p' = commands p ++ [cmd].
Proof.
  intros Hcmd Hlen Hlast Hk.
  apply reverse_lookup_Some in Hk as [Hk Hlt].
  rewrite length_app in Hk, Hlt. simpl in Hk, Hlt.
  destruct (onUp_repeat k
              {| history := history p ++ [cmd];
                 historyPos := Z.of_nat (length (history p)) + 1;
                 text := EmptyString; commands := commands p ++ [cmd] |})
    as (p' & Hrun & Hhist & Hcmds & Hpos & Htext).
  { simpl. rewrite length_app. simpl. lia. }
  simpl in Hhist, Hcmds, Hpos, Htext.
  exists p'. split_and!; [| |done..].
  - change (onEvents p (KeyEnter :: replicate (S k) KeyUp))
      with (onEnter p ≫= λ p1, onEvents p1 (replicate (S k) KeyUp)).
    rewrite onEnter_eq. simpl. rewrite Hcmd.
    rewrite decide_False by done. rewrite decide_False by done.
    exact Hrun.
  - replace (Z.to_nat (Z.of_nat (length (history p)) + 1 - Z.of_nat (S k)))
      with (length (history p) + 1 - S k) in Htext by lia.
    congruence.
Qed.

(** X23. The down key at the end of the history clears the input field
    but leaves the position where it is: after the most recent command has
    been recalled with the up key and dismissed with the down key, the up
    key does not bring it back but recalls the command before it. *)
Theorem down_at_end_keeps_position p older previous latest :
  history p = older ++ [previous; latest] →
  historyPos p = Z.of_nat (length (history p)) →
  ∃ p', onEvents p [KeyUp; KeyDown; KeyUp] = Some p'
        ∧ text p' = previous
        ∧ historyPos p' = (Z.of_nat (length (history p)) - 2)%Z.
Proof.
  intros Hhist Hpos.
  assert (Hlen : length (history p) = length older + 2).
  { rewrite Hhist, length_app. simpl. lia. }
  destruct (onUp_Some p) as (x & Hx & Hup); [lia|].
  set (p1 := {| history := history p; historyPos := historyPos p - 1;
                text := x; commands := commands p |}) in *.
  set (p2 := {| history := history p; historyPos := historyPos p - 1;
                text := EmptyString; commands := commands p |}).
  assert (Hdown : onDown p1 = Some p2).
  { unfold onDown, p1, p2. simpl. by rewrite decide_False by lia. }
  destruct (onUp_Some p2) as (y & Hy & Hup2); [simpl; lia|].
  simpl in Hy, Hup2.
  eexists. split_and!.
  - change (onEvents p [KeyUp; KeyDown; KeyUp])
      with (onUp p ≫= λ p1, onDown p1 ≫= λ p2, onUp p2 ≫= λ p3, Some p3).
    rewrite Hup. simpl. rewrite Hdown. simpl. rewrite Hup2. done.
  - simpl. rewrite Hhist in Hy.
    replace (Z.to_nat (historyPos p - 1 - 1)) with (length older + 0) in Hy by lia.
    rewrite lookup_app_r in Hy by lia.
    replace (length older + 0 - length older) with 0 in Hy by lia.
    simpl in Hy. congruence.
  - simpl. lia.
Qed.

End Console.

(** * The properties on the example site *)

Import Demo.
Import Examples.

(** A decidable statement about concrete values, settled by evaluation. *)
Ltac by_computation := apply (bool_decide_unpack _); vm_compute; exact I.

Example cycle_resolves :
  @addModules collaborators [cycle] [entryModule "a"] ∅
  = Some (Files cycle, None).
Proof. by_computation. Qed.

Example diamond_resolves :
  @addModules collaborators [diamond] [entryModule "top"] ∅
  = Some (Files diamond, None)
  ∧ size (Files diamond) = 4.
Proof. split; by_computation. Qed.

Example dependency_missing :
  @addModules collaborators [rootOf [entryOf "a" ["b"]]] [entryModule "a"] ∅
  = Some (Files (rootOf [entryOf "a" ["b"]]),
          Some ("Cannot add files from module a: Cannot resolve dependency "
                  +:+ dquote +:+ "b" +:+ dquote
                  +:+ " of a.lua: Error finding b.lua: Cannot find file in firmware roots")).
Proof. by_computation. Qed.

Lemma search_order_precedence_witness :
  @getDeviceFirmwareRoots collaborators indexed (Libs kitchen) = Ok [netRoot; coreRoot]
  ∧ is_Some (Files coreRoot !! Mod2File "wifi")
  ∧ FindInRoots (Mod2File "wifi") [netRoot; coreRoot] = Ok netWifi.
Proof.
  assert (Hroots : @getDeviceFirmwareRoots collaborators indexed (Libs kitchen)
                   = Ok [netRoot; coreRoot]) by by_computation.
  split_and!; [exact Hroots|by_computation|].
  destruct (@search_order_precedence collaborators indexed (Libs kitchen)
              [netRoot; coreRoot] "wifi" Hroots) as (_ & _ & Hfirst).
  destruct (Hfirst {| LibName := "net"; IncludeLua := true; Include := ["*.cfg"] |}
              [] netRoot netWifi) as [Hfind _]; [by_computation..|].
  exact Hfind.
Defined.

Lemma device_files_override_witness :
  rootsKeyed kitchenRoots
  ∧ kitchenRoots !! @filepath_Join collaborators "site/devices" "kitchen" = Some kitchenRoot
  ∧ @buildDeviceFirmwareManifest collaborators forward site kitchenRoots "kitchen"
    = Some (Ok kitchenManifest)
  ∧ is_Some (Files netRoot !! "net.cfg")
  ∧ Files kitchenRoot !! "net.cfg" = Some ownCfg
  ∧ ownCfg ∈ ManFiles kitchenManifest
  ∧ ∀ fe, fe ∈ ManFiles kitchenManifest → Path fe = "net.cfg" → Hash fe = Hash ownCfg.
Proof.
  assert (Hkeyed : rootsKeyed kitchenRoots) by by_computation.
  assert (Hroot : kitchenRoots !! @filepath_Join collaborators "site/devices" "kitchen"
                  = Some kitchenRoot) by by_computation.
  assert (Hbuilt : @buildDeviceFirmwareManifest collaborators forward site
                     kitchenRoots "kitchen" = Some (Ok kitchenManifest))
    by by_computation.
  assert (Hown : Files kitchenRoot !! "net.cfg" = Some ownCfg) by by_computation.
  destruct (@device_files_override collaborators forward site kitchenRoots
              "kitchen" kitchenManifest kitchenRoot Hkeyed Hroot Hbuilt)
    as (fwDef & fileMap & _ & _ & Hover).
  destruct (Hover "net.cfg" ownCfg Hown) as (_ & Hin & Honly).
  split_and!;
    [exact Hkeyed|exact Hroot|exact Hbuilt|by_computation|exact Hown|exact Hin|].
  intros fe Hfe Hpath. exact (proj2 (Honly fe Hfe Hpath)).
Defined.

Lemma manifest_document_order_witness :
  rootsKeyed indexed
  ∧ @Build2_device collaborators forward mergeSort site indexed "kitchen"
    = Some (built, kitchenRoots, None)
  ∧ ∃ manifest files,
      @buildDeviceFirmwareManifest collaborators forward site kitchenRoots "kitchen"
      = Some (Ok manifest)
      ∧ NoDup (Path <$> ManFiles manifest)
      ∧ files ≡ₚ ManFiles manifest ∧ Sorted byPath files.
Proof.
  assert (Hkeyed : rootsKeyed indexed) by by_computation.
  assert (Hbuild : @Build2_device collaborators forward mergeSort site indexed "kitchen"
                   = Some (built, kitchenRoots, None)) by by_computation.
  split_and!; [exact Hkeyed|exact Hbuild|].
  destruct (@manifest_document_order collaborators forward mergeSort site indexed
              "kitchen" built kitchenRoots Hkeyed Hbuild)
    as (manifest & fwDef & fileMap & files & contents & Hman & _ & _ & _
        & Hnodup & Hperm & Hsorted & _).
  exists manifest, files. split_and!; assumption.
Defined.

(** The manifest document of [kitchen] as it is written: its files are not
    in the order of their paths. *)
Lemma manifest_document_not_sorted :
  @Build2_device collaborators forward mergeSort site indexed "kitchen"
  = Some (built, kitchenRoots, None)
  ∧ @buildDeviceFirmwareManifest collaborators forward site kitchenRoots "kitchen"
    = Some (Ok kitchenManifest)
  ∧ built !! "dist/k1.json" = Some (@encodeManifest collaborators kitchenManifest)
  ∧ Path <$> ManFiles kitchenManifest = ["wifi.lua"; "app.lua"; "net.cfg"; "firmware.json"]
  ∧ ¬ Sorted byPath (ManFiles kitchenManifest).
Proof. split_and!; by_computation. Defined.

Lemma image_layout_witness :
  @writeFirmwareImage collaborators mergeSort site kitchenManifest
  = (packed, sortedManifest, None)
  ∧ ∃ files contents,
      files ≡ₚ ManFiles kitchenManifest
      ∧ Sorted byPath files
      ∧ packed = <[@imagePath collaborators kitchenManifest :=
                     @imageLayout collaborators (ManInfo kitchenManifest)
                       (zip (Path <$> files) contents)
                       (mjoin (Datafiles <$> files))]> site.
Proof.
  assert (Hpacked : @writeFirmwareImage collaborators mergeSort site kitchenManifest
                    = (packed, sortedManifest, None)) by by_computation.
  split; [exact Hpacked|].
  destruct (@image_layout collaborators mergeSort site kitchenManifest packed
              sortedManifest Hpacked)
    as (files & contents & Hperm & Hsorted & _ & _ & Hfs & _).
  exists files, contents. split_and!; assumption.
Defined.

Lemma missing_entry_module_fails_witness :
  @ReadJSON collaborators site
     (@filepath_Join collaborators (@filepath_Join collaborators "site/devices" "cellar")
        "firmware.json") = Ok cellar
  ∧ @getDeviceFirmwareRoots collaborators
      (@addDeviceRoot collaborators forward site indexed "cellar") (Libs cellar)
    = Ok [coreRoot]
  ∧ entryModule "missing.module" ∈ Modules cellar
  ∧ Forall (λ r, Files r !! Mod2File (ModName (entryModule "missing.module")) = None)
           [coreRoot]
  ∧ @Build2_device collaborators forward mergeSort site indexed "cellar"
    = Some (site, @addDeviceRoot collaborators forward site indexed "cellar",
            Some (missingModuleError "missing.module")).
Proof.
  assert (Hdef : @ReadJSON collaborators site
     (@filepath_Join collaborators (@filepath_Join collaborators "site/devices" "cellar")
        "firmware.json") = Ok cellar) by by_computation.
  assert (Hsearch : @getDeviceFirmwareRoots collaborators
      (@addDeviceRoot collaborators forward site indexed "cellar") (Libs cellar)
    = Ok [coreRoot]) by by_computation.
  assert (Hin : entryModule "missing.module" ∈ Modules cellar) by by_computation.
  assert (Hmissing :
    Forall (λ r, Files r !! Mod2File (ModName (entryModule "missing.module")) = None)
           [coreRoot]) by by_computation.
  split_and!; [exact Hdef|exact Hsearch|exact Hin|exact Hmissing|].
  destruct (@missing_entry_module_fails collaborators forward mergeSort site indexed
              "cellar" cellar [coreRoot] (entryModule "missing.module")
              Hdef Hsearch Hin Hmissing) as (err & Hfail & _ & Hfirst).
  rewrite Hfail. do 3 f_equal.
  apply (Hfirst [] [] ∅); reflexivity.
Defined.

(** The error of the failed build of [cellar] names the module and its
    file; neither the directory, the name nor the id of the device occur. *)
Lemma missing_module_error_omits_device :
  @Build2_device collaborators forward mergeSort site indexed "cellar"
  = Some (site, cellarRoots, Some (missingModuleError "missing.module"))
  ∧ contains (missingModuleError "missing.module") "missing.module" = true
  ∧ contains (missingModuleError "missing.module") "cellar" = false
  ∧ contains (missingModuleError "missing.module") "c1" = false.
Proof. split_and!; by_computation. Defined.



Lemma cache_key_order_independent_witness :
  [scriptA; scriptB] ≡ₚ [scriptB; scriptA]
  ∧ (∀ e e', e ∈ [scriptA; scriptB] → e' ∈ [scriptA; scriptB] →
             fileName e = fileName e' → hash e = hash e')
  ∧ @contentHash collaborators mergeSort [scriptA; scriptB]
    = @contentHash collaborators mergeSort [scriptB; scriptA].
Proof.
  assert (Hperm : [scriptA; scriptB] ≡ₚ [scriptB; scriptA]) by apply Permutation_swap.
  assert (Hfun : ∀ e e', e ∈ [scriptA; scriptB] → e' ∈ [scriptA; scriptB] →
                         fileName e = fileName e' → hash e = hash e').
  { intros e e' He%list_elem_of_In He'%list_elem_of_In. simpl in He, He'.
    destruct He as [<-|[<-|[]]], He' as [<-|[<-|[]]]; intros Hname;
      (reflexivity || discriminate Hname). }
  split_and!; [exact Hperm|exact Hfun|].
  exact (proj1 (@cache_key_order_independent collaborators mergeSort mergeSort
                  _ _ Hperm Hfun)).
Defined.

Lemma device_root_not_searched_witness :
  @filepath_Join collaborators "site/devices" "porch" ≠ "firmware"
  ∧ Forall (λ lib, IncludeLua lib = true →
                   @filepath_Join collaborators "site/lib" (LibName lib)
                   ≠ @filepath_Join collaborators "site/devices" "porch") (Libs porch)
  ∧ Files porchRoot !! Mod2File "local" = Some porchLocal
  ∧ @deviceFileMap collaborators forward porchRoots "porch" porch
    = Some (Err (missingModuleError "local"))
  ∧ @AddDeviceSpecificFiles forward porchRoot ∅ !! Mod2File "local" = Some porchLocal.
Proof.
  assert (Hcore : @filepath_Join collaborators "site/devices" "porch" ≠ "firmware")
    by by_computation.
  assert (Hlibs : Forall (λ lib, IncludeLua lib = true →
                   @filepath_Join collaborators "site/lib" (LibName lib)
                   ≠ @filepath_Join collaborators "site/devices" "porch") (Libs porch))
    by by_computation.
  assert (Hfile : Files porchRoot !! Mod2File "local" = Some porchLocal)
    by by_computation.
  assert (Helse : map_Forall (λ key root,
             key ≠ @filepath_Join collaborators "site/devices" "porch" →
             Files root !! Mod2File (ModName (entryModule "local")) = None) porchRoots)
    by by_computation.
  destruct (@device_root_not_searched collaborators forward porchRoots "porch" porch
              Hcore Hlibs) as [_ Honly].
  destruct (Honly [netRoot; coreRoot] porchRoot (entryModule "local") porchLocal)
    as (_ & _ & Hfail & Hoverlay); [by_computation..|exact Hfile| |].
  { intros key root Hroot Hkey. exact (Helse key root Hroot Hkey). }
  split_and!; [exact Hcore|exact Hlibs|exact Hfile| |exact (Hoverlay ∅)].
  apply (Hfail [] [] ∅); reflexivity.
Defined.

(** C10 does not hold of every device. The definition of [hut] names the
    device's own directory as a library flagged for dependency search;
    [filepath.Join] leads the name to the root of the device, which is then
    the first root searched: the entry module whose file only the device's
    own root holds resolves, and the device builds. *)
Lemma device_root_searched_as_library :
  LibName <$> filter (λ lib, IncludeLua lib = true) (Libs hut) = ["../devices/hut"]
  ∧ @filepath_Join hutCollaborators "site/lib" "../devices/hut"
    = @filepath_Join hutCollaborators "site/devices" "hut"
  ∧ hutRoots !! @filepath_Join hutCollaborators "site/devices" "hut" = Some hutRoot
  ∧ @getDeviceFirmwareRoots hutCollaborators hutRoots (Libs hut) = Ok hutSearch
  ∧ head hutSearch = Some hutRoot
  ∧ map_Forall (λ key root,
       key ≠ @filepath_Join hutCollaborators "site/devices" "hut" →
       Files root !! Mod2File "local" = None) hutRoots
  ∧ FindInRoots (Mod2File "local") hutSearch = Ok hutLocal
  ∧ @deviceFileMap hutCollaborators forward hutRoots "hut" hut
    = Some (Ok (Files hutRoot))
  ∧ @Build2_device hutCollaborators forward mergeSort hutSite hutIndexed "hut"
    = Some (hutBuilt, hutRoots, None).
Proof. split_and!; by_computation. Defined.

(** C4. Two builds of the same tree that differ only in the order in which
    [range] visits the map of datafile tokens write different images: the
    tokens of a script reach the datafiles record in that order. *)
Theorem datafile_order_reaches_image :
  @Build2 lampCollaborators forward mergeSort lampSite = Some (lampForward, None)
  ∧ @Build2 lampCollaborators backward mergeSort lampSite = Some (lampBackward, None)
  ∧ (∃ image1 image2,
       lampForward !! "dist/l1.img" = Some image1
       ∧ lampBackward !! "dist/l1.img" = Some image2
       ∧ contains image1 ("[" +:+ dquote +:+ "a.dat" +:+ dquote +:+ ","
                            +:+ dquote +:+ "b.dat" +:+ dquote +:+ "]") = true
       ∧ contains image2 ("[" +:+ dquote +:+ "b.dat" +:+ dquote +:+ ","
                            +:+ dquote +:+ "a.dat" +:+ dquote +:+ "]") = true)
  ∧ lampForward !! "dist/l1.img" ≠ lampBackward !! "dist/l1.img".
Proof.
  split_and!; [by_computation|by_computation| |by_computation].
  destruct (lampForward !! "dist/l1.img") as [image1|] eqn:H1;
    [|exfalso; revert H1; by_computation].
  destruct (lampBackward !! "dist/l1.img") as [image2|] eqn:H2;
    [|exfalso; revert H2; by_computation].
  exists image1, image2. split_and!; [done|done|..].
  - assert (Hc : from_option (λ image, contains image
               ("[" +:+ dquote +:+ "a.dat" +:+ dquote +:+ ","
                  +:+ dquote +:+ "b.dat" +:+ dquote +:+ "]")) false
               (lampForward !! "dist/l1.img") = true) by by_computation.
    by rewrite H1 in Hc.
  - assert (Hc : from_option (λ image, contains image
               ("[" +:+ dquote +:+ "b.dat" +:+ dquote +:+ ","
                  +:+ dquote +:+ "a.dat" +:+ dquote +:+ "]")) false
               (lampBackward !! "dist/l1.img") = true) by by_computation.
    by rewrite H2 in Hc.
Qed.

(** ** The further properties on the examples *)

Lemma resolved_set_is_closure_witness :
  @addModules collaborators [diamond] [entryModule "top"] ∅
  = Some (Files diamond, None)
  ∧ (∃ d, needed [diamond] [entryModule "top"] d ∧ "shared.lua" = Mod2File d)
  ∧ ∀ path entry, Files diamond !! path = Some entry →
                  FindInRoots path [diamond] = Ok entry.
Proof.
  assert (Hrun : @addModules collaborators [diamond] [entryModule "top"] ∅
                 = Some (Files diamond, None)) by by_computation.
  destruct (@resolved_set_is_closure collaborators [diamond] [entryModule "top"]
              (Files diamond) Hrun) as [Hpaths Hfound].
  split_and!; [exact Hrun| |exact Hfound].
  apply Hpaths. by_computation.
Defined.

Lemma resolution_order_independent_witness :
  topFirst ≡ₚ sharedFirst
  ∧ @addModules collaborators [diamond] topFirst ∅ = Some (Files diamond, None)
  ∧ @addModules collaborators [diamond] sharedFirst ∅ = Some (Files diamond, None).
Proof.
  assert (Hperm : topFirst ≡ₚ sharedFirst) by apply perm_swap.
  assert (Hrun : @addModules collaborators [diamond] topFirst ∅
                 = Some (Files diamond, None)) by by_computation.
  split_and!; [exact Hperm|exact Hrun|].
  exact (@resolution_order_independent collaborators [diamond] topFirst sharedFirst
           (Files diamond) Hperm Hrun).
Defined.

Lemma AddRoot_index_witness :
  @AddRoot collaborators forward site "site/lib/net" ∅ = Ok netIndexed
  ∧ ∃ list entries,
      @EnumerateDir collaborators site "site/lib/net" = Ok list
      ∧ netIndexed = {[ "site/lib/net" := {| BasePath := "site/lib/net";
                                               Files := entries |} ]}
      ∧ ∀ f, is_Some (entries !! f) ↔ f ∈ list.
Proof.
  assert (Hrun : @AddRoot collaborators forward site "site/lib/net" ∅ = Ok netIndexed)
    by by_computation.
  split; [exact Hrun|].
  destruct (@AddRoot_index collaborators forward site "site/lib/net" ∅ netIndexed Hrun)
    as (list & entries & Hlist & Hroots & Hdom & _).
  exists list, entries. split_and!; [exact Hlist| |exact Hdom].
  rewrite Hroots. apply insert_empty.
Defined.

Lemma driver_roots_keyed_witness :
  @indexRoots collaborators forward site = Ok indexed
  ∧ rootsKeyed indexed
  ∧ rootsKeyed (foldl (λ roots '(fs', name),
                         @addDeviceRoot collaborators forward fs' roots name)
                      indexed [(site, "kitchen"); (site, "porch")]).
Proof.
  assert (Hrun : @indexRoots collaborators forward site = Ok indexed) by by_computation.
  split; [exact Hrun|].
  exact (@driver_roots_keyed collaborators forward site indexed
           [(site, "kitchen"); (site, "porch")] Hrun).
Defined.

Lemma AddOtherFiles_selection_witness :
  @AddOtherFiles collaborators forward indexed (Libs kitchen) ∅ = (kitchenAssets, None)
  ∧ ∀ path,
      kitchenAssets !! path = (∅ : gmap string FileEntry2) !! path
      ∨ ∃ lib entry,
          lib ∈ Libs kitchen
          ∧ @includes collaborators indexed lib path entry
          ∧ kitchenAssets !! path = Some entry.
Proof.
  assert (Hrun : @AddOtherFiles collaborators forward indexed (Libs kitchen) ∅
                 = (kitchenAssets, None)) by by_computation.
  split; [exact Hrun|].
  exact (proj1 (@AddOtherFiles_selection collaborators forward indexed (Libs kitchen)
                  ∅ kitchenAssets None Hrun)).
Defined.

Lemma AddDeviceSpecificFiles_result_witness :
  keyed (Files kitchenRoot)
  ∧ @AddDeviceSpecificFiles forward kitchenRoot kitchenAssets !! "net.cfg" = Some ownCfg
  ∧ @AddDeviceSpecificFiles forward kitchenRoot kitchenAssets !! "wifi.lua"
    = kitchenAssets !! "wifi.lua".
Proof.
  assert (Hkeyed : keyed (Files kitchenRoot)) by by_computation.
  split_and!; [exact Hkeyed| |].
  - rewrite (@AddDeviceSpecificFiles_result forward kitchenRoot kitchenAssets Hkeyed).
    by_computation.
  - rewrite (@AddDeviceSpecificFiles_result forward kitchenRoot kitchenAssets Hkeyed).
    by_computation.
Defined.

Lemma deviceFileMap_sources_witness :
  rootsKeyed kitchenRoots
  ∧ @deviceFileMap collaborators forward kitchenRoots "kitchen" kitchen
    = Some (Ok kitchenFiles)
  ∧ ∃ search deviceRoot,
      @getDeviceFirmwareRoots collaborators kitchenRoots (Libs kitchen) = Ok search
      ∧ ∀ path,
          is_Some (kitchenFiles !! path)
          ↔ is_Some (Files deviceRoot !! path)
            ∨ (∃ lib entry, lib ∈ Libs kitchen
                            ∧ @includes collaborators kitchenRoots lib path entry)
            ∨ (∃ d, needed search (Modules kitchen) d ∧ path = Mod2File d).
Proof.
  assert (Hkeyed : rootsKeyed kitchenRoots) by by_computation.
  assert (Hrun : @deviceFileMap collaborators forward kitchenRoots "kitchen" kitchen
                 = Some (Ok kitchenFiles)) by by_computation.
  split_and!; [exact Hkeyed|exact Hrun|].
  destruct (@deviceFileMap_sources collaborators forward kitchenRoots "kitchen" kitchen
              kitchenFiles Hkeyed Hrun)
    as (search & deviceRoot & Hsearch & _ & Hpaths & _).
  exists search, deviceRoot. split; [exact Hsearch|exact Hpaths].
Defined.

Lemma Build2_writes_witness :
  @RemoveDirContents lampCollaborators lampSite "dist" = Ok lampSite
  ∧ @Build2 lampCollaborators forward mergeSort lampSite = Some (lampForward, None)
  ∧ dom lampSite ⊆ dom lampForward
  ∧ ∃ name fs1 fwDef,
      @definitionOf lampCollaborators fs1 name fwDef
      ∧ @deviceDocument lampCollaborators (ID (DefInfo fwDef)) "dist/l1.img".
Proof.
  assert (Hclean : @RemoveDirContents lampCollaborators lampSite "dist" = Ok lampSite)
    by by_computation.
  assert (Hrun : @Build2 lampCollaborators forward mergeSort lampSite
                 = Some (lampForward, None)) by by_computation.
  assert (Hne : lampForward !! "dist/l1.img" ≠ lampSite !! "dist/l1.img")
    by by_computation.
  destruct (@Build2_writes lampCollaborators forward mergeSort lampSite lampSite
              lampForward None Hclean Hrun) as [Hdom Hpaths].
  split_and!; [exact Hclean|exact Hrun|exact Hdom|].
  destruct (Hpaths "dist/l1.img" Hne)
    as (roots & deviceLibs & earlier & name & later & fs1 & fwDef & _ & _ & _ & _
        & Hdef & Hdoc).
  exists name, fs1, fwDef. split; [exact Hdef|exact Hdoc].
Defined.

Lemma Build2_devices_fail_fast_witness :
  @Build2_devices collaborators forward mergeSort site indexed ["cellar"]
  = Some (site, Some cellarError)
  ∧ @Build2_devices collaborators forward mergeSort site indexed
      (["cellar"] ++ ["kitchen"; "porch"])
    = Some (site, Some cellarError).
Proof.
  assert (Hrun : @Build2_devices collaborators forward mergeSort site indexed ["cellar"]
                 = Some (site, Some cellarError)) by by_computation.
  split; [exact Hrun|].
  exact (@Build2_devices_fail_fast collaborators forward mergeSort site indexed
           ["cellar"] site cellarError Hrun ["kitchen"; "porch"]).
Defined.

Lemma cache_key_in_build_witness :
  (∃ table, @collectLFS collaborators forward flatLibs "kitchen" ["net"] ([], ∅)
            = Ok ([{| fileName := "/net/wifi.lua"; hash := "0a0b" |};
                   {| fileName := "/net/mqtt.lua"; hash := "0c0d" |}], table))
  ∧ (∃ table, @collectLFS collaborators backward flatLibs "kitchen" ["net"] ([], ∅)
              = Ok ([{| fileName := "/net/mqtt.lua"; hash := "0c0d" |};
                     {| fileName := "/net/wifi.lua"; hash := "0a0b" |}], table))
  ∧ ∀ id,
      @cacheImgFile collaborators mergeSort id
        [{| fileName := "/net/wifi.lua"; hash := "0a0b" |};
         {| fileName := "/net/mqtt.lua"; hash := "0c0d" |}]
      = @cacheImgFile collaborators mergeSort id
          [{| fileName := "/net/mqtt.lua"; hash := "0c0d" |};
           {| fileName := "/net/wifi.lua"; hash := "0a0b" |}].
Proof.
  pose (table1 := (default ([], ∅)
          (match @collectLFS collaborators forward flatLibs "kitchen" ["net"] ([], ∅)
           with Ok r => Some r | Err _ => None end)).2).
  pose (table2 := (default ([], ∅)
          (match @collectLFS collaborators backward flatLibs "kitchen" ["net"] ([], ∅)
           with Ok r => Some r | Err _ => None end)).2).
  assert (Hrun1 : @collectLFS collaborators forward flatLibs "kitchen" ["net"] ([], ∅)
            = Ok ([{| fileName := "/net/wifi.lua"; hash := "0a0b" |};
                   {| fileName := "/net/mqtt.lua"; hash := "0c0d" |}], table1))
    by by_computation.
  assert (Hrun2 : @collectLFS collaborators backward flatLibs "kitchen" ["net"] ([], ∅)
            = Ok ([{| fileName := "/net/mqtt.lua"; hash := "0c0d" |};
                   {| fileName := "/net/wifi.lua"; hash := "0a0b" |}], table2))
    by by_computation.
  split_and!; [by exists table1|by exists table2|].
  apply (@cache_key_in_build collaborators forward backward mergeSort mergeSort
           flatLibs "kitchen" ["net"] _ table1 _ table2); [|exact Hrun1|exact Hrun2].
  intros libName1 libName2 lib1 lib2 name h1 h2
    ->%list_elem_of_singleton ->%list_elem_of_singleton Hlib1 Hlib2 Hfile1 Hfile2.
  congruence.
Defined.

Lemma orderLibs_members_witness :
  orderLibs flatLibs "kitchen" ["ui"; "net"] (∅, []) = Ok ["fonts"; "ui"; "core"; "net"]
  ∧ ∀ n, n ∈ ["fonts"; "ui"; "core"; "net"] →
         n ∈ ["ui"; "net"]
         ∨ ∃ l lib, l ∈ ["ui"; "net"] ∧ flatLibs !! l = Some lib
                    ∧ n ∈ dependencies lib.
Proof.
  assert (Hrun : orderLibs flatLibs "kitchen" ["ui"; "net"] (∅, [])
                 = Ok ["fonts"; "ui"; "core"; "net"]) by by_computation.
  split; [exact Hrun|].
  exact (proj1 (proj2 (orderLibs_members flatLibs "kitchen" ["ui"; "net"]
                         ["fonts"; "ui"; "core"; "net"] Hrun))).
Defined.

Lemma orderLibs_dependencies_first_witness :
  orderLibs flatLibs "kitchen" (["ui"] ++ "net" :: []) (∅, [])
  = Ok ["fonts"; "ui"; "core"; "net"]
  ∧ ("net" ∉ ["ui"])
  ∧ ∃ before after,
      ["fonts"; "ui"; "core"; "net"] = before ++ "net" :: after ∧ "core" ∈ before.
Proof.
  assert (Hrun : orderLibs flatLibs "kitchen" (["ui"] ++ "net" :: []) (∅, [])
                 = Ok ["fonts"; "ui"; "core"; "net"]) by by_computation.
  assert (Hearlier : "net" ∉ ["ui"]) by by_computation.
  assert (Hlib : flatLibs !! "net" = Some netLib) by by_computation.
  split_and!; [exact Hrun|exact Hearlier|].
  destruct (orderLibs_dependencies_first flatLibs "kitchen" ["ui"] "net" []
              netLib ["fonts"; "ui"; "core"; "net"] Hrun Hearlier)
    as (before & after & Hsplit & Hdeps); [|exact Hlib|].
  - intros l lib' ->%list_elem_of_singleton Hui.
    assert (Hknown : flatLibs !! "ui" = Some uiLib) by by_computation.
    rewrite Hknown in Hui. injection Hui as <-. by_computation.
  - exists before, after. split; [exact Hsplit|]. apply Hdeps. by_computation.
Defined.

Lemma gatherLibs_missing_dependency_witness :
  orderLibs flatLibs "kitchen" ["ui"] (∅, []) = Ok ["fonts"; "ui"]
  ∧ @gatherLibs collaborators forward flatLibs "kitchen" ["fonts"; "ui"] ∅
    = Err "Cannot find lib fonts defined in kitchen"
  ∧ ∃ l lib dep,
      l ∈ ["ui"] ∧ flatLibs !! l = Some lib ∧ dep ∈ dependencies lib
      ∧ flatLibs !! dep = None.
Proof.
  assert (Hrun : orderLibs flatLibs "kitchen" ["ui"] (∅, []) = Ok ["fonts"; "ui"])
    by by_computation.
  assert (Hgather : @gatherLibs collaborators forward flatLibs "kitchen"
                      ["fonts"; "ui"] ∅
                    = Err "Cannot find lib fonts defined in kitchen") by by_computation.
  split_and!; [exact Hrun|exact Hgather|].
  pose proof (@gatherLibs_missing_dependency collaborators forward flatLibs "kitchen"
                ["ui"] ["fonts"; "ui"] ∅ Hrun) as Hfail.
  rewrite Hgather in Hfail.
  destruct Hfail as (l & lib & dep & Hl & Hlib & Hdep & _ & Hnone & _).
  by exists l, lib, dep.
Defined.

Lemma flat_manifest_by_base_name_witness :
  @based collaborators (∅ : gmap string FileEntry)
  ∧ @deviceManifestFiles collaborators forward flatLibs "kitchen" flatDevice ["net"] ∅
    = Ok flatManifest
  ∧ flatManifest !! "/net/net.cfg" = Some "0e0f"
  ∧ flatManifest !! "/core/net.cfg" = None
  ∧ ∀ f h f' h', flatManifest !! f = Some h → flatManifest !! f' = Some h' →
                 @filepath_Base collaborators f = @filepath_Base collaborators f' →
                 f = f' ∧ h = h'.
Proof.
  assert (Hbased : @based collaborators (∅ : gmap string FileEntry)) by by_computation.
  assert (Hrun : @deviceManifestFiles collaborators forward flatLibs "kitchen"
                   flatDevice ["net"] ∅ = Ok flatManifest) by by_computation.
  split_and!; [exact Hbased|exact Hrun|by_computation|by_computation|].
  exact (proj1 (@flat_manifest_by_base_name collaborators forward flatLibs "kitchen"
                  flatDevice ["net"] ∅ flatManifest Hbased Hrun)).
Defined.

Lemma parseCommandLine_parameter_count_witness :
  @commandRegex_FindStringSubmatch terminal "/upload" = Some ("upload", EmptyString)
  ∧ uploadOnly !! "upload" = Some 1%Z
  ∧ @parseCommandLine collaborators terminal uploadOnly "/upload"
    = ([DumperStop; Handler "upload" [EmptyString]; DumperDump], None).
Proof.
  assert (Hmatch : @commandRegex_FindStringSubmatch terminal "/upload"
                   = Some ("upload", EmptyString)) by by_computation.
  assert (Hhandler : uploadOnly !! "upload" = Some 1%Z) by by_computation.
  split_and!; [exact Hmatch|exact Hhandler|].
  pose proof (@parseCommandLine_parameter_count collaborators terminal uploadOnly
                "/upload" "upload" EmptyString 1%Z Hmatch Hhandler) as Hcount.
  cbv zeta in Hcount. destruct Hcount as (_ & _ & Hruns & _).
  rewrite Hruns; [reflexivity|]. by_computation.
Defined.

Lemma history_collapses_commands_witness :
  @onEvents terminal newPrompt typed = Some entered
  ∧ commands entered = ["ls"; "ls"; "cat init.lua"]
  ∧ history entered = collapse (commands entered)
  ∧ Forall (λ c, String.length c ≠ 0) (commands entered).
Proof.
  assert (Hrun : @onEvents terminal newPrompt typed = Some entered) by by_computation.
  split_and!; [exact Hrun|by_computation|..];
    apply (@history_collapses_commands terminal typed entered Hrun).
Defined.

Lemma recall_after_enter_witness :
  @strings_TrimSpace terminal (text editing) = "reboot"
  ∧ String.length "reboot" ≠ 0
  ∧ last (history editing) ≠ Some "reboot"
  ∧ reverse (history editing ++ ["reboot"]) !! 1 = Some "cat init.lua"
  ∧ ∃ p', @onEvents terminal editing [KeyEnter; KeyUp; KeyUp] = Some p'
          ∧ text p' = "cat init.lua".
Proof.
  assert (Hcmd : @strings_TrimSpace terminal (text editing) = "reboot")
    by by_computation.
  assert (Hlen : String.length "reboot" ≠ 0) by by_computation.
  assert (Hlast : last (history editing) ≠ Some "reboot") by by_computation.
  assert (Hk : reverse (history editing ++ ["reboot"]) !! 1 = Some "cat init.lua")
    by by_computation.
  split_and!; [exact Hcmd|exact Hlen|exact Hlast|exact Hk|].
  destruct (@recall_after_enter terminal editing "reboot" 1 "cat init.lua"
              Hcmd Hlen Hlast Hk) as (p' & Hrun & Htext & _).
  exists p'. split; [exact Hrun|exact Htext].
Defined.

Lemma down_at_end_keeps_position_witness :
  history entered = [] ++ ["ls"; "cat init.lua"]
  ∧ historyPos entered = Z.of_nat (length (history entered))
  ∧ ∃ p', @onEvents terminal entered [KeyUp; KeyDown; KeyUp] = Some p'
          ∧ text p' = "ls".
Proof.
  assert (Hhist : history entered = [] ++ ["ls"; "cat init.lua"]) by by_computation.
  assert (Hpos : historyPos entered = Z.of_nat (length (history entered)))
    by by_computation.
  split_and!; [exact Hhist|exact Hpos|].
  destruct (@down_at_end_keeps_position terminal entered [] "ls" "cat init.lua"
              Hhist Hpos) as (p' & Hrun & Htext & _).
  exists p'. split; [exact Hrun|exact Htext].
Defined.
